(** * Mycelial signal runtime: a shallow embedding of the C runtime

    The development follows the C sources under [runtime/c]:
    [signal.h], [memory.c], [signal.c], [routing.c], [dispatch.c] and
    [scheduler.c].  Fixed-width integers are [Z] with the wrap-around
    written out, pointers are addresses in [Z] with [0] for [NULL], and the
    objects reachable through pointers live in typed stores indexed by
    address. *)

From Stdlib Require Import ZArith Lia Bool.
From stdpp Require Import base option list gmap.

Local Open Scope Z_scope.

(** ** Machine integers *)

Definition wrap (bits x : Z) : Z := x mod 2 ^ bits.
Definition u16 (x : Z) : Z := wrap 16 x.
Definition u32 (x : Z) : Z := wrap 32 x.
Definition u64 (x : Z) : Z := wrap 64 x.

(** [int] is 32 bits, two's complement. *)
Definition s32 (x : Z) : Z := (x + 2 ^ 31) mod 2 ^ 32 - 2 ^ 31.

(** [x & ~m] on a [bits]-wide unsigned operand. *)
Definition clear_bits (bits x m : Z) : Z := Z.land x (wrap bits (Z.lnot m)).

Definition NULL : Z := 0.

(** ** Constants of signal.h *)

Definition MAX_PAYLOAD_SIZE : Z := 64 * 1024.
Definition DEFAULT_HEAP_SIZE : Z := 16 * 1024 * 1024.

Definition SIGNAL_FLAG_OWNS_PAYLOAD : Z := 1.
Definition SIGNAL_FLAG_HEAP_ALLOCATED : Z := 2.
Definition SIGNAL_FLAG_PROCESSED : Z := 4.
Definition SIGNAL_FLAG_BROADCAST : Z := 8.

Definition QUEUE_FLAG_ACTIVE : Z := 1.
Definition QUEUE_FLAG_OVERFLOW : Z := 2.

Definition SIGNAL_OK : Z := 0.
Definition SIGNAL_ERR_QUEUE_FULL : Z := 1.
Definition SIGNAL_ERR_QUEUE_EMPTY : Z := 2.
Definition SIGNAL_ERR_NULL_POINTER : Z := 3.
Definition SIGNAL_ERR_ALLOC_FAILED : Z := 4.
Definition SIGNAL_ERR_PAYLOAD_TOO_LARGE : Z := 5.
Definition SIGNAL_ERR_NO_ROUTE : Z := 6.

(** [sizeof] on x86-64. *)
Definition sizeof_Signal : Z := 32.
Definition sizeof_SignalQueue : Z := 56.
Definition sizeof_FreeBlock : Z := 16.
Definition sizeof_ptr : Z := 8.

(** ** Structures of signal.h *)

Record Signal := mkSignal {
  sig_frequency_id : Z;      (* uint16_t *)
  sig_source_agent_id : Z;   (* uint16_t *)
  sig_flags : Z;             (* uint16_t *)
  sig_ref_count : Z;         (* uint16_t *)
  sig_payload_ptr : Z;       (* void*    *)
  sig_payload_size : Z;      (* uint32_t *)
  sig_payload_capacity : Z;  (* uint32_t *)
  sig_timestamp : Z          (* uint64_t *)
}.

Record SignalQueue := mkQueue {
  q_buffer_ptr : Z;          (* address of the ring *)
  q_buffer : list Z;         (* the ring: one Signal* per slot *)
  q_capacity : Z;
  q_mask : Z;
  q_head : Z;
  q_tail : Z;
  q_count : Z;
  q_total_enqueued : Z;
  q_total_dequeued : Z;
  q_dropped_count : Z;
  q_owner_agent_id : Z;
  q_flags : Z;
  q_reserved : Z
}.

Record FreeBlock := mkFreeBlock {
  fb_addr : Z;               (* where the block header sits *)
  fb_size : Z
}.

Record HeapState := mkHeap {
  hp_initialized : bool;     (* g_heap_initialized *)
  hp_base : Z;
  hp_current : Z;
  hp_end : Z;
  hp_total_size : Z;
  hp_used : Z;
  hp_peak_used : Z;
  hp_free_list : list FreeBlock
}.

Record RoutingEntry := mkRoute {
  re_source_agent_id : Z;
  re_frequency_id : Z;
  re_dest_count : Z;
  re_flags : Z;
  re_dest_agent_ids : list Z;
  re_dest_queues : list Z    (* cached SignalQueue* per destination *)
}.

Record RoutingTable := mkRoutingTable {
  rt_entries : list RoutingEntry;
  rt_capacity : Z;
  rt_mask : Z;
  rt_entry_count : Z;
  rt_collision_count : Z
}.

Record Agent := mkAgent {
  ag_agent_id : Z;
  ag_agent_type : Z;
  ag_state_ptr : Z;
  ag_input_queue : Z;        (* SignalQueue* *)
  ag_dispatch_table : Z;     (* void*        *)
  ag_flags : Z;
  ag_signal_count : Z
}.

(** [agents] is an array of [Agent*]; a null slot is [None].  No function
    modelled here writes to an [Agent], so the slot holds the record. *)
Record AgentRegistry := mkRegistry {
  reg_agents : list (option Agent);
  reg_count : Z;
  reg_capacity : Z
}.

(** ** Structures used by dispatch.c *)

Record DispatchEntry := mkEntry {
  de_frequency_id : Z;
  de_flags : Z;
  de_handler : Z;            (* signal_handler_fn *)
  de_guard : Z               (* guard_fn          *)
}.

Record DispatchTable := mkTable {
  dt_entries : list DispatchEntry;
  dt_entry_count : Z;
  dt_capacity : Z;
  dt_default_handler : Z;
  dt_agent_state : Z;
  dt_agent_id : Z;
  dt_lookup_count : Z;
  dt_hit_count : Z;
  dt_miss_count : Z
}.

(** ** Structures of scheduler.h *)

Inductive TidalPhase := PHASE_REST | PHASE_SENSE | PHASE_ACT.

Record Scheduler := mkScheduler {
  sch_registry : Z;                  (* AgentRegistry* *)
  sch_routing : Z;                   (* RoutingTable*  *)
  sch_current_phase : TidalPhase;
  sch_running : Z;                   (* int *)
  sch_empty_cycles : Z;              (* int *)
  sch_max_empty_cycles : Z;          (* int *)
  sch_cycle_count : Z;               (* uint64_t *)
  sch_total_signals_processed : Z;
  sch_agents_active : Z;
  sch_dispatch_errors : Z;
  sch_start_timestamp : Z;
  sch_end_timestamp : Z
}.

Definition sizeof_Scheduler : Z := 80.

(** ** The store

    One typed store per structure holds the objects alive at an address;
    [payloads] holds the bytes of payload buffers and [agent_mem] the
    memory agent state pointers refer to.  [os_mmap] is the answer of the
    kernel to the one [mmap] call of [heap_init], and [tsc] the cycle
    counter. *)

Record World := mkWorld {
  heap : HeapState;
  os_mmap : option Z;
  tsc : Z;
  signals : gmap Z Signal;
  payloads : gmap Z (list Z);
  queues : gmap Z SignalQueue;
  tables : gmap Z DispatchTable;
  rtables : gmap Z RoutingTable;
  registries : gmap Z AgentRegistry;
  scheds : gmap Z Scheduler;
  agent_mem : gmap Z Z
}.

Definition set_heap (h : HeapState) (w : World) : World :=
  mkWorld h (os_mmap w) (tsc w) (signals w) (payloads w) (queues w)
          (tables w) (rtables w) (registries w) (scheds w) (agent_mem w).
Definition set_tsc (t : Z) (w : World) : World :=
  mkWorld (heap w) (os_mmap w) t (signals w) (payloads w) (queues w)
          (tables w) (rtables w) (registries w) (scheds w) (agent_mem w).
Definition set_signals (s : gmap Z Signal) (w : World) : World :=
  mkWorld (heap w) (os_mmap w) (tsc w) s (payloads w) (queues w)
          (tables w) (rtables w) (registries w) (scheds w) (agent_mem w).
Definition set_payloads (p : gmap Z (list Z)) (w : World) : World :=
  mkWorld (heap w) (os_mmap w) (tsc w) (signals w) p (queues w)
          (tables w) (rtables w) (registries w) (scheds w) (agent_mem w).
Definition set_queues (q : gmap Z SignalQueue) (w : World) : World :=
  mkWorld (heap w) (os_mmap w) (tsc w) (signals w) (payloads w) q
          (tables w) (rtables w) (registries w) (scheds w) (agent_mem w).
Definition set_tables (t : gmap Z DispatchTable) (w : World) : World :=
  mkWorld (heap w) (os_mmap w) (tsc w) (signals w) (payloads w) (queues w)
          t (rtables w) (registries w) (scheds w) (agent_mem w).
Definition set_rtables (t : gmap Z RoutingTable) (w : World) : World :=
  mkWorld (heap w) (os_mmap w) (tsc w) (signals w) (payloads w) (queues w)
          (tables w) t (registries w) (scheds w) (agent_mem w).
Definition set_registries (r : gmap Z AgentRegistry) (w : World) : World :=
  mkWorld (heap w) (os_mmap w) (tsc w) (signals w) (payloads w) (queues w)
          (tables w) (rtables w) r (scheds w) (agent_mem w).
Definition set_scheds (s : gmap Z Scheduler) (w : World) : World :=
  mkWorld (heap w) (os_mmap w) (tsc w) (signals w) (payloads w) (queues w)
          (tables w) (rtables w) (registries w) s (agent_mem w).
Definition set_agent_mem (m : gmap Z Z) (w : World) : World :=
  mkWorld (heap w) (os_mmap w) (tsc w) (signals w) (payloads w) (queues w)
          (tables w) (rtables w) (registries w) (scheds w) m.

(** ** Computations

    A C function is a state transformer that returns a value, dereferences
    an address holding no live object ([Fault]), or, in a loop that is run
    with a bound on its iterations, exhausts them ([OutOfFuel]). *)

Inductive outcome (A : Type) : Type :=
| Done (a : A) (w : World)
| Fault
| OutOfFuel.
Arguments Done {A} a w.
Arguments Fault {A}.
Arguments OutOfFuel {A}.

Definition M (A : Type) : Type := World -> outcome A.

Definition ret {A} (a : A) : M A := fun w => Done a w.
Definition bind {A B} (m : M A) (k : A -> M B) : M B :=
  fun w => match m w with
           | Done a w' => k a w'
           | Fault => Fault
           | OutOfFuel => OutOfFuel
           end.
Definition fault {A} : M A := fun _ => Fault.
Definition get_world : M World := fun w => Done w w.
Definition modify (f : World -> World) : M unit := fun w => Done tt (f w).

#[global] Instance M_ret : MRet M := @ret.
#[global] Instance M_bind : MBind M := fun A B k m => bind m k.

(** Dereferencing: an address that holds no live object of the expected
    type, the null pointer first of all, is a fault. *)
Definition load {A} (store : World -> gmap Z A) (p : Z) : M A :=
  fun w => if p =? 0 then Fault
           else match store w !! p with
                | Some x => Done x w
                | None => Fault
                end.

Definition load_signal : Z -> M Signal := load signals.
Definition store_signal (p : Z) (s : Signal) : M unit :=
  modify (fun w => set_signals (<[p := s]> (signals w)) w).
Definition load_queue : Z -> M SignalQueue := load queues.
Definition store_queue (p : Z) (q : SignalQueue) : M unit :=
  modify (fun w => set_queues (<[p := q]> (queues w)) w).
Definition load_table : Z -> M DispatchTable := load tables.
Definition store_table (p : Z) (t : DispatchTable) : M unit :=
  modify (fun w => set_tables (<[p := t]> (tables w)) w).
Definition load_rtable : Z -> M RoutingTable := load rtables.
Definition store_rtable (p : Z) (t : RoutingTable) : M unit :=
  modify (fun w => set_rtables (<[p := t]> (rtables w)) w).
Definition load_registry : Z -> M AgentRegistry := load registries.
Definition load_sched : Z -> M Scheduler := load scheds.
Definition store_sched (p : Z) (s : Scheduler) : M unit :=
  modify (fun w => set_scheds (<[p := s]> (scheds w)) w).

(** ** memory.c *)

Definition get_heap : M HeapState := fun w => Done (heap w) w.
Definition put_heap (h : HeapState) : M unit := modify (set_heap h).

Definition sys_mmap (size : Z) : M Z :=
  fun w => match os_mmap w with
           | Some base => Done base w
           | None => Done NULL w
           end.

Definition heap_init (initial_size : Z) : M Z :=
  h ← get_heap;
  if hp_initialized h then mret 1
  else
    let initial_size :=
      if initial_size =? 0 then DEFAULT_HEAP_SIZE else initial_size in
    let page_size := 4096 in
    let initial_size :=
      clear_bits 64 (u64 (initial_size + page_size - 1)) (page_size - 1) in
    base ← sys_mmap initial_size;
    if base =? NULL then mret 0
    else
      put_heap (mkHeap true base base (base + initial_size) initial_size
                       0 0 []);;
      mret 1.

(** The size the allocator really hands out for a request. *)
Definition block_size (bytes : Z) : Z :=
  let bytes := clear_bits 64 (u64 (bytes + 7)) 7 in
  if bytes <? sizeof_FreeBlock then sizeof_FreeBlock else bytes.

(** First block of the free list that is large enough, and the list
    without it. *)
Fixpoint take_first_fit (bytes : Z) (l : list FreeBlock)
  : option (FreeBlock * list FreeBlock) :=
  match l with
  | [] => None
  | b :: l' =>
      if bytes <=? fb_size b then Some (b, l')
      else match take_first_fit bytes l' with
           | Some (b', r) => Some (b', b :: r)
           | None => None
           end
  end.

Definition bump_used (bytes : Z) (h : HeapState) : HeapState :=
  let used := u64 (hp_used h + bytes) in
  mkHeap (hp_initialized h) (hp_base h) (hp_current h) (hp_end h)
         (hp_total_size h) used
         (if hp_peak_used h <? used then used else hp_peak_used h)
         (hp_free_list h).

Definition heap_allocate_initialized (bytes : Z) : M Z :=
  if bytes =? 0 then mret NULL
  else
    let bytes := block_size bytes in
    h ← get_heap;
    match take_first_fit bytes (hp_free_list h) with
    | Some (block, rest) =>
        put_heap (bump_used bytes
          (mkHeap (hp_initialized h) (hp_base h) (hp_current h) (hp_end h)
                  (hp_total_size h) (hp_used h) (hp_peak_used h) rest));;
        mret (fb_addr block)
    | None =>
        let ptr := hp_current h in
        let new_current := hp_current h + bytes in
        if hp_end h <? new_current then mret NULL
        else
          put_heap (bump_used bytes
            (mkHeap (hp_initialized h) (hp_base h) new_current (hp_end h)
                    (hp_total_size h) (hp_used h) (hp_peak_used h)
                    (hp_free_list h)));;
          mret ptr
    end.

Definition heap_allocate (bytes : Z) : M Z :=
  h ← get_heap;
  if hp_initialized h then heap_allocate_initialized bytes
  else
    ok ← heap_init 0;
    if ok =? 0 then mret NULL else heap_allocate_initialized bytes.

(** [heap_free] writes a [FreeBlock] header over the first bytes of the
    block: whatever object lived at [ptr] is gone, and so are the words of
    agent memory that lie under the header. *)
Definition under_header (ptr : Z) (word : Z * Z) : Prop :=
  ptr <= word.1 < ptr + sizeof_FreeBlock.

#[global] Instance under_header_dec ptr word : Decision (under_header ptr word) :=
  decide (ptr <= word.1 < ptr + sizeof_FreeBlock).

Definition clobber (ptr : Z) : M unit :=
  modify (fun w =>
    mkWorld (heap w) (os_mmap w) (tsc w) (delete ptr (signals w))
            (delete ptr (payloads w)) (delete ptr (queues w))
            (delete ptr (tables w)) (delete ptr (rtables w))
            (delete ptr (registries w)) (delete ptr (scheds w))
            (filter (fun word => ~ under_header ptr word) (agent_mem w))).

Definition heap_free (ptr bytes : Z) : M Z :=
  if (ptr =? NULL) || (bytes =? 0) then mret 0
  else
    let bytes := block_size bytes in
    h ← get_heap;
    clobber ptr;;
    put_heap (mkHeap (hp_initialized h) (hp_base h) (hp_current h) (hp_end h)
                     (hp_total_size h) (u64 (hp_used h - bytes))
                     (hp_peak_used h)
                     (mkFreeBlock ptr bytes :: hp_free_list h));;
    mret 0.

(** ** Inline helpers of signal.h *)

(** [rdtsc]: a read returns the counter, which has advanced by the next
    read. *)
Definition get_timestamp : M Z :=
  fun w => Done (tsc w) (set_tsc (u64 (tsc w + 1)) w).

Definition fnv1a_hash (agent_id freq_id : Z) : Z :=
  let hash := 2166136261 in
  let hash := Z.lxor hash agent_id in
  let hash := u32 (hash * 16777619) in
  let hash := Z.lxor hash freq_id in
  let hash := u32 (hash * 16777619) in
  hash.

Definition is_power_of_two (x : Z) : bool :=
  negb (x =? 0) && (Z.land x (u32 (x - 1)) =? 0).

Definition next_power_of_two (x : Z) : Z :=
  let x := u32 (x - 1) in
  let x := Z.lor x (Z.shiftr x 1) in
  let x := Z.lor x (Z.shiftr x 2) in
  let x := Z.lor x (Z.shiftr x 4) in
  let x := Z.lor x (Z.shiftr x 8) in
  let x := Z.lor x (Z.shiftr x 16) in
  u32 (x + 1).

(** ** signal.c: signals *)

Definition set_sig_flags (f : Z) (s : Signal) : Signal :=
  mkSignal (sig_frequency_id s) (sig_source_agent_id s) f (sig_ref_count s)
           (sig_payload_ptr s) (sig_payload_size s) (sig_payload_capacity s)
           (sig_timestamp s).
Definition set_sig_ref_count (r : Z) (s : Signal) : Signal :=
  mkSignal (sig_frequency_id s) (sig_source_agent_id s) (sig_flags s) r
           (sig_payload_ptr s) (sig_payload_size s) (sig_payload_capacity s)
           (sig_timestamp s).
Definition set_sig_payload_ptr (p : Z) (s : Signal) : Signal :=
  mkSignal (sig_frequency_id s) (sig_source_agent_id s) (sig_flags s)
           (sig_ref_count s) p (sig_payload_size s) (sig_payload_capacity s)
           (sig_timestamp s).

Definition has_flag (flags bit : Z) : bool := negb (Z.land flags bit =? 0).

Definition signal_alloc : M Z :=
  sig ← heap_allocate sizeof_Signal;
  if sig =? NULL then mret NULL
  else
    ts ← get_timestamp;
    store_signal sig
      (mkSignal 0 0 SIGNAL_FLAG_HEAP_ALLOCATED 1 NULL 0 0 ts);;
    mret sig.

Definition signal_ref (sig : Z) : M unit :=
  if sig =? NULL then mret tt
  else
    s ← load_signal sig;
    store_signal sig (set_sig_ref_count (u16 (sig_ref_count s + 1)) s).

Definition signal_free (sig : Z) : M unit :=
  if sig =? NULL then mret tt
  else
    s ← load_signal sig;
    let s := if 0 <? sig_ref_count s
             then set_sig_ref_count (u16 (sig_ref_count s - 1)) s else s in
    store_signal sig s;;
    if 0 <? sig_ref_count s then mret tt
    else
      (if has_flag (sig_flags s) SIGNAL_FLAG_OWNS_PAYLOAD
          && negb (sig_payload_ptr s =? NULL)
       then
         heap_free (sig_payload_ptr s) (sig_payload_capacity s);;
         store_signal sig (set_sig_payload_ptr NULL s)
       else mret tt);;
      if has_flag (sig_flags s) SIGNAL_FLAG_HEAP_ALLOCATED
      then heap_free sig sizeof_Signal;; mret tt
      else mret tt.

(** The caller's buffer is [None] for a null pointer, else the bytes that
    can be read at it; [memcpy] past their end is a fault. *)
Definition memcpy_payload (dst : Z) (src : list Z) (n capacity : Z) : M unit :=
  if Z.of_nat (length src) <? n then fault
  else
    modify (fun w =>
      set_payloads
        (<[dst := take (Z.to_nat n) src
                  ++ replicate (Z.to_nat (capacity - n)) 0]> (payloads w)) w).

Definition signal_create (frequency_id source_agent_id : Z)
    (payload : option (list Z)) (payload_size : Z) : M Z :=
  if MAX_PAYLOAD_SIZE <? payload_size then mret NULL
  else
    sig ← signal_alloc;
    if sig =? NULL then mret NULL
    else
      s ← load_signal sig;
      let s := mkSignal (u16 frequency_id) (u16 source_agent_id)
                 (sig_flags s) (sig_ref_count s) (sig_payload_ptr s)
                 (sig_payload_size s) (sig_payload_capacity s)
                 (sig_timestamp s) in
      store_signal sig s;;
      match payload with
      | Some bytes =>
          if 0 <? payload_size then
            let capacity := clear_bits 32 (u32 (payload_size + 7)) 7 in
            p ← heap_allocate capacity;
            store_signal sig (set_sig_payload_ptr p s);;
            if p =? NULL then signal_free sig;; mret NULL
            else
              memcpy_payload p bytes payload_size capacity;;
              store_signal sig
                (mkSignal (sig_frequency_id s) (sig_source_agent_id s)
                   (Z.lor (sig_flags s) SIGNAL_FLAG_OWNS_PAYLOAD)
                   (sig_ref_count s) p payload_size capacity
                   (sig_timestamp s));;
              mret sig
          else mret sig
      | None => mret sig
      end.

(** ** signal.c: the ring buffer *)

Definition signal_queue_create (capacity : Z) : M Z :=
  let capacity :=
    if is_power_of_two capacity then capacity
    else next_power_of_two capacity in
  queue ← heap_allocate sizeof_SignalQueue;
  if queue =? NULL then mret NULL
  else
    let buffer_size := u64 (capacity * sizeof_ptr) in
    buffer ← heap_allocate buffer_size;
    if buffer =? NULL then heap_free queue sizeof_SignalQueue;; mret NULL
    else
      store_queue queue
        (mkQueue buffer (replicate (Z.to_nat capacity) NULL) capacity
                 (u32 (capacity - 1)) 0 0 0 0 0 0 0 QUEUE_FLAG_ACTIVE 0);;
      mret queue.

(** The three writes of the full branch and of the success branch. *)
Definition queue_drop (q : SignalQueue) : SignalQueue :=
  mkQueue (q_buffer_ptr q) (q_buffer q) (q_capacity q) (q_mask q)
          (q_head q) (q_tail q) (q_count q) (q_total_enqueued q)
          (q_total_dequeued q) (u32 (q_dropped_count q + 1))
          (q_owner_agent_id q) (Z.lor (q_flags q) QUEUE_FLAG_OVERFLOW)
          (q_reserved q).
Definition queue_write (index : nat) (p : Z) (q : SignalQueue) : SignalQueue :=
  mkQueue (q_buffer_ptr q) (<[index := p]> (q_buffer q)) (q_capacity q)
          (q_mask q) (q_head q) (q_tail q) (q_count q) (q_total_enqueued q)
          (q_total_dequeued q) (q_dropped_count q) (q_owner_agent_id q)
          (q_flags q) (q_reserved q).
Definition queue_pushed (q : SignalQueue) : SignalQueue :=
  mkQueue (q_buffer_ptr q) (q_buffer q) (q_capacity q) (q_mask q)
          (q_head q) (u32 (q_tail q + 1)) (u32 (q_count q + 1))
          (u32 (q_total_enqueued q + 1)) (q_total_dequeued q)
          (q_dropped_count q) (q_owner_agent_id q) (q_flags q)
          (q_reserved q).
Definition queue_popped (q : SignalQueue) : SignalQueue :=
  mkQueue (q_buffer_ptr q) (q_buffer q) (q_capacity q) (q_mask q)
          (u32 (q_head q + 1)) (q_tail q) (u32 (q_count q - 1))
          (q_total_enqueued q) (u32 (q_total_dequeued q + 1))
          (q_dropped_count q) (q_owner_agent_id q) (q_flags q)
          (q_reserved q).

Definition signal_queue_enqueue (queue signal : Z) : M Z :=
  if queue =? NULL then mret SIGNAL_ERR_NULL_POINTER
  else if signal =? NULL then mret SIGNAL_ERR_NULL_POINTER
  else
    q ← load_queue queue;
    if q_capacity q <=? q_count q then
      store_queue queue (queue_drop q);;
      mret SIGNAL_ERR_QUEUE_FULL
    else
      let index := Z.to_nat (Z.land (q_tail q) (q_mask q)) in
      match q_buffer q !! index with
      | None => fault
      | Some _ =>
          store_queue queue (queue_write index signal q);;
          signal_ref signal;;
          q ← load_queue queue;
          store_queue queue (queue_pushed q);;
          mret SIGNAL_OK
      end.

Definition signal_queue_dequeue (queue : Z) : M Z :=
  if queue =? NULL then mret NULL
  else
    q ← load_queue queue;
    if q_count q =? 0 then mret NULL
    else
      let index := Z.to_nat (Z.land (q_head q) (q_mask q)) in
      match q_buffer q !! index with
      | None => fault
      | Some sig =>
          store_queue queue (queue_popped (queue_write index NULL q));;
          mret sig
      end.

Definition signal_queue_is_empty (queue : Z) : M bool :=
  if queue =? NULL then mret true
  else q ← load_queue queue; mret (q_count q =? 0).

(** ** routing.c: the agent registry *)

Definition agent_registry_get (registry agent_id : Z) : M (option Agent) :=
  if registry =? NULL then mret None
  else
    r ← load_registry registry;
    if reg_capacity r <=? agent_id then mret None
    else match reg_agents r !! Z.to_nat agent_id with
         | Some slot => mret slot
         | None => fault
         end.

Definition agent_get_queue (registry agent_id : Z) : M Z :=
  agent ← agent_registry_get registry agent_id;
  match agent with
  | None => mret NULL
  | Some a => mret (ag_input_queue a)
  end.

(** ** routing.c: the routing table *)

Definition set_rt_collision_count (c : Z) (t : RoutingTable) : RoutingTable :=
  mkRoutingTable (rt_entries t) (rt_capacity t) (rt_mask t)
                 (rt_entry_count t) c.
Definition set_rt_entries (es : list RoutingEntry) (t : RoutingTable)
  : RoutingTable :=
  mkRoutingTable es (rt_capacity t) (rt_mask t) (rt_entry_count t)
                 (rt_collision_count t).
Definition set_re_dest_queue (i : nat) (queue : Z) (e : RoutingEntry)
  : RoutingEntry :=
  mkRoute (re_source_agent_id e) (re_frequency_id e) (re_dest_count e)
          (re_flags e) (re_dest_agent_ids e) (<[i := queue]> (re_dest_queues e)).

(** The [do ... while (index != start)] loop of [find_slot]; every
    iteration is one probe, and [fuel] bounds the probes. *)
Fixpoint find_slot_loop (fuel : nat) (table : Z)
    (source_agent_id frequency_id start index : Z) : M (Z * bool) :=
  match fuel with
  | O => fun _ => OutOfFuel
  | S fuel =>
      t ← load_rtable table;
      match rt_entries t !! Z.to_nat index with
      | None => fault
      | Some entry =>
          if re_source_agent_id entry =? 0 then mret (index, false)
          else if (re_source_agent_id entry =? source_agent_id)
                  && (re_frequency_id entry =? frequency_id)
          then mret (index, true)
          else
            store_rtable table
              (set_rt_collision_count (u32 (rt_collision_count t + 1)) t);;
            let index := Z.land (u32 (index + 1)) (rt_mask t) in
            if index =? start then mret (index, false)
            else find_slot_loop fuel table source_agent_id frequency_id
                                start index
      end
  end.

(** Returns the slot and [*out_found].  The loop leaves after at most
    [mask + 1] probes. *)
Definition find_slot (table source_agent_id frequency_id : Z) : M (Z * bool) :=
  t ← load_rtable table;
  let hash := fnv1a_hash source_agent_id frequency_id in
  let index := Z.land hash (rt_mask t) in
  find_slot_loop (S (Z.to_nat (rt_mask t))) table source_agent_id
                 frequency_id index index.

(** [routing_get_entry] returns a pointer into [table->entries]: here the
    index of the slot, [None] for [NULL]. *)
Definition routing_get_entry (table source_agent_id frequency_id : Z)
  : M (option Z) :=
  if table =? NULL then mret None
  else
    '(index, found) ← find_slot table source_agent_id frequency_id;
    if found : bool then mret (Some index) else mret None.

Definition load_entry (table index : Z) : M RoutingEntry :=
  t ← load_rtable table;
  match rt_entries t !! Z.to_nat index with
  | Some e => mret e
  | None => fault
  end.

Definition store_entry (table index : Z) (e : RoutingEntry) : M unit :=
  t ← load_rtable table;
  store_rtable table
    (set_rt_entries (<[Z.to_nat index := e]> (rt_entries t)) t).

(** The mailbox of destination [i]: the cached pointer [cached], or, when
    that is null and a registry was passed, the one the registry has,
    which is then written to the cache. *)
Definition resolve_destination (table entry agents : Z) (i : nat)
    (e : RoutingEntry) (cached : Z) : M Z :=
  if (cached =? NULL) && negb (agents =? NULL) then
    match re_dest_agent_ids e !! i with
    | None => fault
    | Some dest =>
        queue ← agent_get_queue agents dest;
        store_entry table entry (set_re_dest_queue i queue e);;
        mret queue
    end
  else mret cached.

(** One iteration of the delivery loop of [routing_broadcast], for
    destination [i]; returns the new value of [delivered]. *)
Definition broadcast_step (table entry signal agents : Z) (i : nat)
    (delivered : Z) : M Z :=
  e ← load_entry table entry;
  match re_dest_queues e !! i with
  | None => fault
  | Some cached =>
      queue ← resolve_destination table entry agents i e cached;
      if queue =? NULL then mret delivered
      else
        result ← signal_queue_enqueue queue signal;
        if result =? SIGNAL_OK then mret (s32 (delivered + 1))
        else mret delivered
  end.

(** The [for] loop over the destinations [i], [i + 1], ...; [n] is the
    number of destinations still to visit. *)
Fixpoint broadcast_loop (n : nat) (table entry signal agents : Z) (i : nat)
    (delivered : Z) : M Z :=
  match n with
  | O => mret delivered
  | S n =>
      delivered ← broadcast_step table entry signal agents i delivered;
      broadcast_loop n table entry signal agents (S i) delivered
  end.

Definition routing_broadcast (table signal agents : Z) : M Z :=
  if (table =? NULL) || (signal =? NULL) then mret 0
  else
    s ← load_signal signal;
    entry ← routing_get_entry table (sig_source_agent_id s)
                              (sig_frequency_id s);
    match entry with
    | None => mret 0
    | Some entry =>
        e ← load_entry table entry;
        delivered ← broadcast_loop (Z.to_nat (re_dest_count e)) table entry
                                   signal agents 0%nat 0;
        e ← load_entry table entry;
        (if 1 <? re_dest_count e then
           s ← load_signal signal;
           store_signal signal
             (set_sig_flags (Z.lor (sig_flags s) SIGNAL_FLAG_BROADCAST) s)
         else mret tt);;
        mret delivered
    end.

Definition emit_signal (table agents frequency_id source_agent_id : Z)
    (payload : option (list Z)) (payload_size : Z) : M Z :=
  sig ← signal_create frequency_id source_agent_id payload payload_size;
  if sig =? NULL then mret (- SIGNAL_ERR_ALLOC_FAILED)
  else
    delivered ← routing_broadcast table sig agents;
    if delivered =? 0 then signal_free sig;; mret 0
    else signal_free sig;; mret delivered.

(** ** dispatch.c

    [dispatch.h] is not among the sources.  Its status codes and entry
    flags are the fields of [DispatchHeader]; the machine code behind a
    handler or guard pointer is [call f agent_state signal], returning the
    [int] the function returns. *)

Class DispatchHeader := {
  DISPATCH_OK : Z;
  DISPATCH_ERR_NULL_POINTER : Z;
  DISPATCH_ERR_NO_HANDLER : Z;
  DISPATCH_ERR_GUARD_FAILED : Z;
  DISPATCH_ERR_HANDLER_FAILED : Z;
  DISPATCH_FLAG_ACTIVE : Z;
  DISPATCH_FLAG_HAS_GUARD : Z
}.

Definition Code : Type := Z -> Z -> Z -> M Z.

Definition set_dt_lookup_count (c : Z) (t : DispatchTable) : DispatchTable :=
  mkTable (dt_entries t) (dt_entry_count t) (dt_capacity t)
          (dt_default_handler t) (dt_agent_state t) (dt_agent_id t)
          c (dt_hit_count t) (dt_miss_count t).
Definition set_dt_hit_count (c : Z) (t : DispatchTable) : DispatchTable :=
  mkTable (dt_entries t) (dt_entry_count t) (dt_capacity t)
          (dt_default_handler t) (dt_agent_state t) (dt_agent_id t)
          (dt_lookup_count t) c (dt_miss_count t).
Definition set_dt_miss_count (c : Z) (t : DispatchTable) : DispatchTable :=
  mkTable (dt_entries t) (dt_entry_count t) (dt_capacity t)
          (dt_default_handler t) (dt_agent_state t) (dt_agent_id t)
          (dt_lookup_count t) (dt_hit_count t) c.

Section Dispatch.
Context `{DispatchHeader} (call : Code).

Definition entry_matches (frequency_id : Z) (e : DispatchEntry) : bool :=
  has_flag (de_flags e) DISPATCH_FLAG_ACTIVE
  && (de_frequency_id e =? frequency_id).

(** The linear search over [entries[i]], [entries[i + 1]], ...; [n]
    entries are still to be looked at.  [None] is a read past the
    array. *)
Fixpoint dispatch_scan (n : nat) (entries : list DispatchEntry)
    (frequency_id : Z) (i : nat) : option (option nat) :=
  match n with
  | O => Some None
  | S n =>
      match entries !! i with
      | None => None
      | Some e =>
          if entry_matches frequency_id e then Some (Some i)
          else dispatch_scan n entries frequency_id (S i)
      end
  end.

(** Returns the index of the entry, [None] for [NULL]. *)
Definition dispatch_lookup_entry (table frequency_id : Z)
  : M (option nat) :=
  if table =? NULL then mret None
  else
    t ← load_table table;
    match dispatch_scan (Z.to_nat (dt_entry_count t)) (dt_entries t)
                        frequency_id 0 with
    | Some r => mret r
    | None => fault
    end.

Definition load_dispatch_entry (table : Z) (i : nat) : M DispatchEntry :=
  t ← load_table table;
  match dt_entries t !! i with
  | Some e => mret e
  | None => fault
  end.

Definition dispatch_invoke_with_state (table agent_state signal : Z)
  : M Z :=
  if (table =? NULL) || (signal =? NULL) then mret DISPATCH_ERR_NULL_POINTER
  else
    t ← load_table table;
    store_table table (set_dt_lookup_count (u32 (dt_lookup_count t + 1)) t);;
    s ← load_signal signal;
    entry ← dispatch_lookup_entry table (sig_frequency_id s);
    match entry with
    | None =>
        t ← load_table table;
        store_table table (set_dt_miss_count (u32 (dt_miss_count t + 1)) t);;
        if negb (dt_default_handler t =? NULL) then
          result ← call (dt_default_handler t) agent_state signal;
          if negb (result =? 0) then mret DISPATCH_ERR_HANDLER_FAILED
          else mret DISPATCH_OK
        else mret DISPATCH_ERR_NO_HANDLER
    | Some i =>
        t ← load_table table;
        store_table table (set_dt_hit_count (u32 (dt_hit_count t + 1)) t);;
        e ← load_dispatch_entry table i;
        guard_passed ←
          (if has_flag (de_flags e) DISPATCH_FLAG_HAS_GUARD
              && negb (de_guard e =? NULL)
           then
             guard_result ← call (de_guard e) agent_state signal;
             mret (negb (guard_result =? 0))
           else mret true);
        if guard_passed : bool then
          e ← load_dispatch_entry table i;
          handler_result ← call (de_handler e) agent_state signal;
          if negb (handler_result =? 0) then mret DISPATCH_ERR_HANDLER_FAILED
          else mret DISPATCH_OK
        else mret DISPATCH_ERR_GUARD_FAILED
    end.

(** [table->agent_state] is read to build the argument list. *)
Definition dispatch_invoke (table signal : Z) : M Z :=
  t ← load_table table;
  dispatch_invoke_with_state table (dt_agent_state t) signal.

(** The [while] loop of [dispatch_process_batch]; [n] bounds the
    iterations left before [processed] reaches [(int)max_signals]. *)
Fixpoint process_batch_loop (n : nat) (table queue processed : Z) : M Z :=
  match n with
  | O => mret processed
  | S n =>
      signal ← signal_queue_dequeue queue;
      if signal =? NULL then mret processed
      else
        dispatch_invoke table signal;;
        signal_free signal;;
        process_batch_loop n table queue (s32 (processed + 1))
  end.

Definition dispatch_process_batch (table queue max_signals : Z) : M Z :=
  if (table =? NULL) || (queue =? NULL) then mret 0
  else process_batch_loop (Z.to_nat (s32 max_signals)) table queue 0.
End Dispatch.

(** ** scheduler.c *)

Definition get_cpu_timestamp : M Z := get_timestamp.

Definition set_sch_phase (p : TidalPhase) (s : Scheduler) : Scheduler :=
  mkScheduler (sch_registry s) (sch_routing s) p (sch_running s)
    (sch_empty_cycles s) (sch_max_empty_cycles s) (sch_cycle_count s)
    (sch_total_signals_processed s) (sch_agents_active s)
    (sch_dispatch_errors s) (sch_start_timestamp s) (sch_end_timestamp s).
Definition set_sch_running (r : Z) (s : Scheduler) : Scheduler :=
  mkScheduler (sch_registry s) (sch_routing s) (sch_current_phase s) r
    (sch_empty_cycles s) (sch_max_empty_cycles s) (sch_cycle_count s)
    (sch_total_signals_processed s) (sch_agents_active s)
    (sch_dispatch_errors s) (sch_start_timestamp s) (sch_end_timestamp s).
Definition set_sch_total (n : Z) (s : Scheduler) : Scheduler :=
  mkScheduler (sch_registry s) (sch_routing s) (sch_current_phase s)
    (sch_running s) (sch_empty_cycles s) (sch_max_empty_cycles s)
    (sch_cycle_count s) n (sch_agents_active s)
    (sch_dispatch_errors s) (sch_start_timestamp s) (sch_end_timestamp s).
Definition set_sch_dispatch_errors (n : Z) (s : Scheduler) : Scheduler :=
  mkScheduler (sch_registry s) (sch_routing s) (sch_current_phase s)
    (sch_running s) (sch_empty_cycles s) (sch_max_empty_cycles s)
    (sch_cycle_count s) (sch_total_signals_processed s) (sch_agents_active s)
    n (sch_start_timestamp s) (sch_end_timestamp s).
Definition set_sch_start (t : Z) (s : Scheduler) : Scheduler :=
  mkScheduler (sch_registry s) (sch_routing s) (sch_current_phase s)
    (sch_running s) (sch_empty_cycles s) (sch_max_empty_cycles s)
    (sch_cycle_count s) (sch_total_signals_processed s) (sch_agents_active s)
    (sch_dispatch_errors s) t (sch_end_timestamp s).
Definition set_sch_end (t : Z) (s : Scheduler) : Scheduler :=
  mkScheduler (sch_registry s) (sch_routing s) (sch_current_phase s)
    (sch_running s) (sch_empty_cycles s) (sch_max_empty_cycles s)
    (sch_cycle_count s) (sch_total_signals_processed s) (sch_agents_active s)
    (sch_dispatch_errors s) (sch_start_timestamp s) t.

(** The statistics update that closes a cycle. *)
Definition end_of_cycle (signals_processed : Z) (s : Scheduler) : Scheduler :=
  mkScheduler (sch_registry s) (sch_routing s) (sch_current_phase s)
    (sch_running s)
    (if 0 <? signals_processed then 0 else s32 (sch_empty_cycles s + 1))
    (sch_max_empty_cycles s) (u64 (sch_cycle_count s + 1))
    (sch_total_signals_processed s)
    (if 0 <? signals_processed
     then u64 (sch_agents_active s + signals_processed)
     else sch_agents_active s)
    (sch_dispatch_errors s) (sch_start_timestamp s) (sch_end_timestamp s).

Definition set_phase (sched : Z) (p : TidalPhase) : M unit :=
  s ← load_sched sched;
  store_sched sched (set_sch_phase p s).

Definition scheduler_create (registry routing : Z) : M Z :=
  if (registry =? NULL) || (routing =? NULL) then mret NULL
  else
    sched ← heap_allocate sizeof_Scheduler;
    if sched =? NULL then mret NULL
    else
      store_sched sched
        (mkScheduler registry routing PHASE_REST 1 0 10 0 0 0 0 0 0);;
      mret sched.

(** The body of the [for] loop of [scheduler_run_cycle] for agent slot
    [i]; returns the new value of [signals_processed]. *)
Definition cycle_step (sched : Z) (i : nat) (signals_processed : Z) : M Z :=
  s ← load_sched sched;
  r ← load_registry (sch_registry s);
  match reg_agents r !! i with
  | None => fault
  | Some None => mret signals_processed
  | Some (Some agent) =>
      if ag_input_queue agent =? NULL then mret signals_processed
      else
        set_phase sched PHASE_SENSE;;
        sig ← signal_queue_dequeue (ag_input_queue agent);
        if sig =? NULL then mret signals_processed
        else
          set_phase sched PHASE_ACT;;
          signal_free sig;;
          s ← load_sched sched;
          store_sched sched
            (set_sch_total (u64 (sch_total_signals_processed s + 1)) s);;
          mret (s32 (signals_processed + 1))
  end.

(** The [for] loop: [n] iterations are left when [registry->count] does
    not change under it; the bound [i < count] is read again each time. *)
Fixpoint cycle_loop (n : nat) (sched : Z) (i : nat) (signals_processed : Z)
  : M Z :=
  match n with
  | O => mret signals_processed
  | S n =>
      s ← load_sched sched;
      r ← load_registry (sch_registry s);
      if Z.of_nat i <? reg_count r then
        signals_processed ← cycle_step sched i signals_processed;
        cycle_loop n sched (S i) signals_processed
      else mret signals_processed
  end.

Definition scheduler_run_cycle (sched : Z) : M Z :=
  if sched =? NULL then mret SIGNAL_ERR_NULL_POINTER
  else
    s ← load_sched sched;
    if sch_registry s =? NULL then mret SIGNAL_ERR_NULL_POINTER
    else
      set_phase sched PHASE_REST;;
      r ← load_registry (sch_registry s);
      signals_processed ← cycle_loop (Z.to_nat (reg_count r)) sched 0%nat 0;
      s ← load_sched sched;
      store_sched sched (end_of_cycle signals_processed s);;
      mret signals_processed.

(** The [while (sched->running)] loop; [fuel] bounds the cycles. *)
Fixpoint run_loop (fuel : nat) (sched : Z) : M unit :=
  match fuel with
  | O =>
      s ← load_sched sched;
      if sch_running s =? 0 then mret tt else fun _ => OutOfFuel
  | S fuel =>
      s ← load_sched sched;
      if sch_running s =? 0 then mret tt
      else
        processed ← scheduler_run_cycle sched;
        if processed <? 0 then
          s ← load_sched sched;
          store_sched sched
            (set_sch_dispatch_errors (u64 (sch_dispatch_errors s + 1)) s);;
          run_loop fuel sched
        else
          s ← load_sched sched;
          if sch_max_empty_cycles s <=? sch_empty_cycles s then mret tt
          else run_loop fuel sched
  end.

Definition scheduler_run (fuel : nat) (sched : Z) : M Z :=
  if sched =? NULL then mret SIGNAL_ERR_NULL_POINTER
  else
    ts ← get_cpu_timestamp;
    s ← load_sched sched;
    store_sched sched (set_sch_start ts s);;
    run_loop fuel sched;;
    ts ← get_cpu_timestamp;
    s ← load_sched sched;
    store_sched sched (set_sch_end ts s);;
    mret (s32 (sch_total_signals_processed s)).

Definition scheduler_shutdown (sched : Z) : M unit :=
  if sched =? NULL then mret tt
  else
    s ← load_sched sched;
    store_sched sched (set_sch_running 0 s).

(** * Specification vocabulary *)

(** ** Mailboxes *)

(** What [signal_queue_create] establishes and the two queue operations
    keep. *)
Record queue_wf (q : SignalQueue) : Prop := mkQueueWf {
  wf_capacity : 1 <= q_capacity q < 2 ^ 32;
  wf_mask : q_mask q = q_capacity q - 1;
  wf_buffer : length (q_buffer q) = Z.to_nat (q_capacity q);
  wf_head : 0 <= q_head q < 2 ^ 32;
  wf_count : 0 <= q_count q <= q_capacity q;
  wf_tail : q_tail q = u32 (q_head q + q_count q);
  wf_dequeued : 0 <= q_total_dequeued q < 2 ^ 32;
  wf_enqueued : q_total_enqueued q = u32 (q_total_dequeued q + q_count q);
  wf_dropped : 0 <= q_dropped_count q < 2 ^ 32
}.

Definition enqueue_index (q : SignalQueue) : nat :=
  Z.to_nat (Z.land (q_tail q) (q_mask q)).
Definition dequeue_index (q : SignalQueue) : nat :=
  Z.to_nat (Z.land (q_head q) (q_mask q)).

(** A finite sequence of operations on one mailbox. *)
Inductive mailbox_op :=
| OpEnqueue (signal : Z)
| OpDequeue.

Definition run_op (queue : Z) (op : mailbox_op) : M unit :=
  match op with
  | OpEnqueue signal => signal_queue_enqueue queue signal;; mret tt
  | OpDequeue => signal_queue_dequeue queue;; mret tt
  end.

Fixpoint run_ops (queue : Z) (ops : list mailbox_op) : M unit :=
  match ops with
  | [] => mret tt
  | op :: ops => run_op queue op;; run_ops queue ops
  end.

(** The world before the first allocation: nothing is alive, and the
    kernel will map the heap at address 4096. *)
Definition empty_heap : HeapState := mkHeap false 0 0 0 0 0 0 [].
Definition boot_world : World :=
  mkWorld empty_heap (Some 4096) 0 ∅ ∅ ∅ ∅ ∅ ∅ ∅ ∅.

(** The world of an outcome, for statements about concrete runs. *)
Definition world_of {A} (o : outcome A) : World :=
  match o with
  | Done _ w => w
  | _ => boot_world
  end.
Definition value_of {A} (o : outcome A) : option A :=
  match o with
  | Done a _ => Some a
  | _ => None
  end.

(** A world with one signal (kind 7, from agent 1, four payload bytes)
    allocated from the boot world; the signal sits at 4096. *)
Definition signal_world : World :=
  world_of (signal_create 7 1 (Some [1; 2; 3; 4]) 4 boot_world).

(** The same world after a mailbox of capacity 1 was created at 4144. *)
Definition mailbox_world : World :=
  world_of (signal_queue_create 1 signal_world).

(** [signal] is offered to [queue] [n] times; the status codes, first
    attempt first. *)
Fixpoint enqueue_many (n : nat) (queue signal : Z) : M (list Z) :=
  match n with
  | O => mret []
  | S n =>
      status ← signal_queue_enqueue queue signal;
      rest ← enqueue_many n queue signal;
      mret (status :: rest)
  end.

(** [n] holders take a reference on [sig], one after the other. *)
Fixpoint take_references (n : nat) (sig : Z) : M unit :=
  match n with
  | O => mret tt
  | S n => signal_ref sig;; take_references n sig
  end.

(** The signal of [signal_world] once 65534 further references were
    taken: its [ref_count] is 65535. *)
Definition saturated_world : World :=
  world_of (take_references (Z.to_nat 65534) 4096 signal_world).

(** ** Dispatch tables *)

Section DispatchVocabulary.
Context `{DispatchHeader}.

(** The entries the search may read are inside the array. *)
Definition table_wf (t : DispatchTable) : Prop :=
  (Z.to_nat (dt_entry_count t) <= length (dt_entries t))%nat.

(** No active entry of [t] is registered for [kind]. *)
Definition no_match (t : DispatchTable) (kind : Z) : Prop :=
  forall i e, (i < Z.to_nat (dt_entry_count t))%nat ->
    dt_entries t !! i = Some e -> entry_matches kind e = false.

(** Entry [i] is the first active entry of [t] registered for [kind]. *)
Definition first_match (t : DispatchTable) (kind : Z) (i : nat)
    (e : DispatchEntry) : Prop :=
  (i < Z.to_nat (dt_entry_count t))%nat
  /\ dt_entries t !! i = Some e
  /\ entry_matches kind e = true
  /\ forall j e', (j < i)%nat -> dt_entries t !! j = Some e' ->
       entry_matches kind e' = false.

Definition has_guard (e : DispatchEntry) : bool :=
  has_flag (de_flags e) DISPATCH_FLAG_HAS_GUARD && negb (de_guard e =? NULL).

Definition status_of_handler (result : Z) : Z :=
  if result =? 0 then DISPATCH_OK else DISPATCH_ERR_HANDLER_FAILED.

(** The table after [lookup_count], and then [miss_count] or
    [hit_count], were advanced. *)
Definition table_missed (t : DispatchTable) : DispatchTable :=
  set_dt_miss_count (u32 (dt_miss_count t + 1))
    (set_dt_lookup_count (u32 (dt_lookup_count t + 1)) t).
Definition table_hit (t : DispatchTable) : DispatchTable :=
  set_dt_hit_count (u32 (dt_hit_count t + 1))
    (set_dt_lookup_count (u32 (dt_lookup_count t + 1)) t).

Definition world_missed (table : Z) (t : DispatchTable) (w : World) : World :=
  set_tables (<[table := table_missed t]> (tables w)) w.
Definition world_hit (table : Z) (t : DispatchTable) (w : World) : World :=
  set_tables (<[table := table_hit t]> (tables w)) w.

(** The four status codes a dispatch can end with are four different
    numbers. *)
Definition codes_distinct : Prop :=
  NoDup [DISPATCH_OK; DISPATCH_ERR_NO_HANDLER; DISPATCH_ERR_GUARD_FAILED;
         DISPATCH_ERR_HANDLER_FAILED].
End DispatchVocabulary.

(** [w_g] is the world in which the handler of entry [e] starts: the world
    after the counters were advanced when [e] has no guard, else the world
    a guard call with a non-zero result left. *)
Definition guard_passes `{DispatchHeader} (call : Code)
    (table agent_state signal : Z) (t : DispatchTable) (e : DispatchEntry)
    (w w_g : World) : Prop :=
  (has_guard e = false /\ w_g = world_hit table t w)
  \/ (has_guard e = true
      /\ exists g, g <> 0
           /\ call (de_guard e) agent_state signal (world_hit table t w)
              = Done g w_g).

(** ** A concrete header and concrete handlers, for runs

    The numbers are arbitrary.  Function 100 is a handler that stores the
    first payload byte in the agent state and succeeds, 200 a guard that
    accepts payloads whose first byte exceeds 10, and 300 a handler that
    fails. *)
Definition demo_header : DispatchHeader :=
  {| DISPATCH_OK := 0;
     DISPATCH_ERR_NULL_POINTER := 1;
     DISPATCH_ERR_NO_HANDLER := 2;
     DISPATCH_ERR_GUARD_FAILED := 3;
     DISPATCH_ERR_HANDLER_FAILED := 4;
     DISPATCH_FLAG_ACTIVE := 1;
     DISPATCH_FLAG_HAS_GUARD := 2 |}.

Definition first_payload_byte (signal : Z) : M Z :=
  s ← load_signal signal;
  bytes ← load payloads (sig_payload_ptr s);
  match bytes with
  | b :: _ => mret b
  | [] => fault
  end.

Definition demo_code : Code := fun f agent_state signal =>
  if f =? 100 then
    b ← first_payload_byte signal;
    modify (fun w => set_agent_mem (<[agent_state := b]> (agent_mem w)) w);;
    mret 0
  else if f =? 200 then
    b ← first_payload_byte signal;
    mret (if 10 <? b then 1 else 0)
  else if f =? 300 then mret 1
  else fault.

(** [signal_world] with two dispatch tables for an agent whose state is
    the word at 8000: the table at 9000 guards kind 7 with function 200,
    the table at 9100 handles kind 7 unguarded. *)
Definition guarded_table : DispatchTable :=
  mkTable [mkEntry 7 3 100 200] 1 4 NULL 8000 1 0 0 0.
Definition plain_table : DispatchTable :=
  mkTable [mkEntry 7 1 100 NULL] 1 4 NULL 8000 1 0 0 0.
Definition dispatch_world : World :=
  set_agent_mem {[8000 := 0]}
    (set_tables {[9000 := guarded_table; 9100 := plain_table]} signal_world).

(** ** Signals *)

(** The capacity [signal_create] gives the payload buffer. *)
Definition payload_capacity_for (payload_size : Z) : Z :=
  clear_bits 32 (u32 (payload_size + 7)) 7.

(** The header [signal_alloc] writes. *)
Definition fresh_header (ts : Z) : Signal :=
  mkSignal 0 0 SIGNAL_FLAG_HEAP_ALLOCATED 1 NULL 0 0 ts.

(** A heap that serves the next requests from its bump region only, with
    room for a signal header and a payload of [payload_size] bytes. *)
Definition bump_room (w : World) (payload_size : Z) : Prop :=
  hp_initialized (heap w) = true
  /\ hp_free_list (heap w) = []
  /\ 0 < hp_current (heap w)
  /\ hp_current (heap w) + sizeof_Signal
     + block_size (payload_capacity_for payload_size) <= hp_end (heap w).

(** The boot world once [heap_init] has run with the default size. *)
Definition heap_world : World := world_of (heap_init 0 boot_world).

(** A machine on which [mmap] fails: no heap can be set up. *)
Definition no_memory_world : World :=
  mkWorld empty_heap None 0 ∅ ∅ ∅ ∅ ∅ ∅ ∅ ∅.

(** ** The scheduler *)

(** Slot [slot] of the registry has nothing to deliver: it is empty, or
    its agent has no mailbox, or the mailbox is alive and empty. *)
Definition nothing_queued (qs : gmap Z SignalQueue) (slot : option Agent)
  : Prop :=
  match slot with
  | None => True
  | Some a =>
      ag_input_queue a = NULL
      \/ exists q, qs !! ag_input_queue a = Some q /\ q_count q = 0
  end.

(** Every slot the cycle visits exists and has nothing queued. *)
Definition quiescent (r : AgentRegistry) (qs : gmap Z SignalQueue) : Prop :=
  forall i : nat, Z.of_nat i < reg_count r ->
    exists slot, reg_agents r !! i = Some slot /\ nothing_queued qs slot.

(** The world [w] with scheduler [s] stored at [sched]. *)
Definition with_sched (sched : Z) (s : Scheduler) (w : World) : World :=
  set_scheds (<[sched := s]> (scheds w)) w.

(** The scheduler [s] sits at [sched], its registry is [r], and the
    network is quiescent. *)
Definition scheduled (sched : Z) (r : AgentRegistry) (s : Scheduler)
    (w : World) : Prop :=
  scheds w !! sched = Some s
  /\ sch_registry s <> NULL
  /\ registries w !! sch_registry s = Some r
  /\ quiescent r (queues w).

(** The cycles [scheduler_run] needs before [empty_cycles] reaches
    [max_empty_cycles]; the first one runs in any case. *)
Definition cycles_to_quiescence (s : Scheduler) : Z :=
  Z.max 1 (sch_max_empty_cycles s - sch_empty_cycles s).

(** A network of one agent (slot 0, state word at 8000, mailbox at 4144,
    dispatch table [plain_table] at 9100) under a scheduler at 9600.  In
    [idle_world] the mailbox is empty; in [cycle_world] the signal at 4096
    has been enqueued and released by its creator. *)
Definition demo_registry : AgentRegistry :=
  mkRegistry [Some (mkAgent 0 1 8000 4144 9100 0 0)] 1 1.
Definition demo_scheduler : Scheduler :=
  mkScheduler 9500 9700 PHASE_REST 1 0 10 0 0 0 0 0 0.
Definition idle_world : World :=
  set_scheds {[9600 := demo_scheduler]}
    (set_registries {[9500 := demo_registry]}
       (set_agent_mem {[8000 := 0]}
          (set_tables {[9100 := plain_table]} mailbox_world))).
Definition cycle_world : World :=
  world_of ((signal_queue_enqueue 4144 4096;; signal_free 4096) idle_world).

(** ** Routing *)

(** A table as [routing_table_create] builds it: [2 ^ k] slots and the mask
    [2 ^ k - 1]. *)
Definition rtable_wf (t : RoutingTable) : Prop :=
  exists k, 0 <= k < 32
    /\ rt_mask t = 2 ^ k - 1
    /\ length (rt_entries t) = Z.to_nat (2 ^ k).

(** A route as [routing_add_entry] builds it: the two arrays have
    [dest_count] elements. *)
Definition route_wf (e : RoutingEntry) : Prop :=
  0 <= re_dest_count e < 2 ^ 31
  /\ length (re_dest_agent_ids e) = Z.to_nat (re_dest_count e)
  /\ length (re_dest_queues e) = Z.to_nat (re_dest_count e)
  /\ Forall (fun agent_id => 0 <= agent_id) (re_dest_agent_ids e).

(** A registry whose array has the [capacity] slots it was created
    with. *)
Definition registry_wf (r : AgentRegistry) : Prop :=
  (Z.to_nat (reg_capacity r) <= length (reg_agents r))%nat.

(** The mailbox [agent_get_queue] finds for [agent_id]. *)
Definition registry_queue (r : AgentRegistry) (agent_id : Z) : Z :=
  if reg_capacity r <=? agent_id then NULL
  else match reg_agents r !! Z.to_nat agent_id with
       | Some (Some a) => ag_input_queue a
       | _ => NULL
       end.

(** The mailbox a destination is delivered to: the cached pointer, or, when
    the cache is still null and a registry was passed, the registry's. *)
Definition resolve_queue (agents : Z) (r : AgentRegistry) (cached dest : Z)
  : Z :=
  if (cached =? NULL) && negb (agents =? NULL) then registry_queue r dest
  else cached.

Definition resolved_queues (agents : Z) (r : AgentRegistry) (e : RoutingEntry)
  : list Z :=
  zip_with (resolve_queue agents r) (re_dest_queues e) (re_dest_agent_ids e).

(** An enqueue into [queue] succeeds: the mailbox exists and has room. *)
Definition accepts (qs : gmap Z SignalQueue) (queue : Z) : bool :=
  if queue =? NULL then false
  else match qs !! queue with
       | Some q => q_count q <? q_capacity q
       | None => false
       end.

Definition deliveries (qs : gmap Z SignalQueue) (dests : list Z) : Z :=
  Z.of_nat (length (filter (fun queue => accepts qs queue = true) dests)).

(** The mailboxes of a route are alive, and no mailbox is the destination
    of two sockets of the route. *)
Definition destinations_ready (qs : gmap Z SignalQueue) (dests : list Z)
  : Prop :=
  (forall (i j : nat) queue, dests !! i = Some queue -> dests !! j = Some queue ->
     queue <> NULL -> i = j)
  /\ forall (i : nat) queue, dests !! i = Some queue -> queue <> NULL ->
       exists q, qs !! queue = Some q /\ queue_wf q.

Definition route_key (source_agent_id frequency_id : Z) (e : RoutingEntry)
  : Prop :=
  re_source_agent_id e = source_agent_id
  /\ re_frequency_id e = frequency_id.

(** What holds between two iterations of the delivery loop of
    [routing_broadcast], when the destinations below [i] were served and
    [d] enqueues succeeded: the route [e0] at slot [entry] has changed in
    its cache below [i] only, the signal [s0] has gained [d] references
    and nothing else, and the mailboxes still to be served are as they were
    in [w0]. *)
Definition broadcast_inv (table entry signal : Z) (e0 : RoutingEntry)
    (s0 : Signal) (dests : list Z) (w0 : World) (i : nat) (d : Z)
    (w : World) : Prop :=
  (exists t e,
     rtables w !! table = Some t
     /\ rt_entries t !! Z.to_nat entry = Some e
     /\ re_dest_count e = re_dest_count e0
     /\ re_dest_agent_ids e = re_dest_agent_ids e0
     /\ length (re_dest_queues e) = length (re_dest_queues e0)
     /\ forall j : nat, (i <= j)%nat ->
          re_dest_queues e !! j = re_dest_queues e0 !! j)
  /\ registries w = registries w0
  /\ signals w !! signal
     = Some (set_sig_ref_count (u16 (sig_ref_count s0 + d)) s0)
  /\ (forall (j : nat) queue, (i <= j)%nat -> dests !! j = Some queue ->
        queue <> NULL -> queues w !! queue = queues w0 !! queue)
  /\ d = deliveries (queues w0) (take i dests).

(** The registry behind the pointer [agents]; a null pointer needs
    none. *)
Definition registry_at (agents : Z) (r : AgentRegistry) (w : World) : Prop :=
  agents = NULL \/ (registries w !! agents = Some r /\ registry_wf r).

(** A network for broadcasts, built on [signal_world]: agents 2 and 3 own
    the mailboxes at 4144 (capacity 1) and 4216 (capacity 2); the routing
    table at 9800 has four slots and one route, from agent 1 on kind 7 to
    agents 2 and 3, whose mailbox cache is still empty. *)
Definition empty_route : RoutingEntry := mkRoute 0 0 0 0 [] [].
Definition demo_route : RoutingEntry := mkRoute 1 7 2 0 [2; 3] [NULL; NULL].
Definition demo_rtable : RoutingTable :=
  mkRoutingTable
    (<[Z.to_nat (Z.land (fnv1a_hash 1 7) 3) := demo_route]>
       (replicate 4 empty_route))
    4 3 1 0.
Definition broadcast_registry : AgentRegistry :=
  mkRegistry [None; None; Some (mkAgent 2 1 0 4144 0 0 0);
              Some (mkAgent 3 1 0 4216 0 0 0)] 4 4.
Definition broadcast_world : World :=
  set_rtables {[9800 := demo_rtable]}
    (set_registries {[9500 := broadcast_registry]}
       (world_of ((signal_queue_create 1;; signal_queue_create 2)
                    signal_world))).

(** The world [w] with routing table [t] stored at [table]. *)
Definition with_rtable (table : Z) (t : RoutingTable) (w : World) : World :=
  set_rtables (<[table := t]> (rtables w)) w.

(** * The rest of the runtime

    The functions of [memory.c], [signal.c], [routing.c], [dispatch.c] and
    [scheduler.c] that the definitions above do not reach. *)

(** ** memory.c: statistics *)

Definition heap_get_used : M Z := h ← get_heap; mret (hp_used h).
Definition heap_get_peak : M Z := h ← get_heap; mret (hp_peak_used h).
Definition heap_get_total : M Z := h ← get_heap; mret (hp_total_size h).

(** ** signal.c: the rest of the mailbox interface *)

Definition signal_queue_peek (queue : Z) : M Z :=
  if queue =? NULL then mret NULL
  else
    q ← load_queue queue;
    if q_count q =? 0 then mret NULL
    else
      let index := Z.to_nat (Z.land (q_head q) (q_mask q)) in
      match q_buffer q !! index with
      | None => fault
      | Some sig => mret sig
      end.

Definition signal_queue_count (queue : Z) : M Z :=
  if negb (queue =? NULL) then q ← load_queue queue; mret (q_count q)
  else mret 0.

Definition signal_queue_capacity (queue : Z) : M Z :=
  if negb (queue =? NULL) then q ← load_queue queue; mret (q_capacity q)
  else mret 0.

Definition signal_queue_is_full (queue : Z) : M bool :=
  if negb (queue =? NULL) then
    q ← load_queue queue; mret (q_capacity q <=? q_count q)
  else mret true.

Definition signal_queue_get_dropped (queue : Z) : M Z :=
  if negb (queue =? NULL) then q ← load_queue queue; mret (q_dropped_count q)
  else mret 0.

(** The [while (!signal_queue_is_empty(queue))] loop of
    [signal_queue_destroy]; [fuel] bounds the iterations. *)
Fixpoint destroy_loop (fuel : nat) (queue : Z) : M unit :=
  match fuel with
  | O =>
      empty ← signal_queue_is_empty queue;
      if empty : bool then mret tt else fun _ => OutOfFuel
  | S fuel =>
      empty ← signal_queue_is_empty queue;
      if empty : bool then mret tt
      else
        sig ← signal_queue_dequeue queue;
        signal_free sig;;
        destroy_loop fuel queue
  end.

Definition signal_queue_destroy (fuel : nat) (queue : Z) : M unit :=
  if queue =? NULL then mret tt
  else
    destroy_loop fuel queue;;
    q ← load_queue queue;
    (if negb (q_buffer_ptr q =? NULL)
     then heap_free (q_buffer_ptr q) (u64 (q_capacity q * sizeof_ptr));; mret tt
     else mret tt);;
    heap_free queue sizeof_SignalQueue;;
    mret tt.

Definition signal_mark_processed (sig : Z) : M unit :=
  if sig =? NULL then mret tt
  else
    s ← load_signal sig;
    store_signal sig
      (set_sig_flags (Z.lor (sig_flags s) SIGNAL_FLAG_PROCESSED) s);;
    signal_free sig.

(** ** routing.c: tables and registries *)

Definition sizeof_RoutingTable : Z := 24.
Definition sizeof_RoutingEntry : Z := 32.
Definition sizeof_AgentRegistry : Z := 16.

(** [memset] leaves every slot with [source_agent_id = 0] and null
    arrays. *)
Definition routing_table_create (capacity : Z) : M Z :=
  let capacity :=
    if is_power_of_two capacity then capacity
    else next_power_of_two capacity in
  table ← heap_allocate sizeof_RoutingTable;
  if table =? NULL then mret NULL
  else
    let entries_size := u64 (capacity * sizeof_RoutingEntry) in
    entries ← heap_allocate entries_size;
    if entries =? NULL then heap_free table sizeof_RoutingTable;; mret NULL
    else
      store_rtable table
        (mkRoutingTable (replicate (Z.to_nat capacity) (mkRoute 0 0 0 0 [] []))
                        capacity (u32 (capacity - 1)) 0 0);;
      mret table.

(** [routing_lookup] returns the array of destinations, [None] for [NULL],
    and the value it stores in [*out_count], [None] when it stores nothing;
    [out_count] tells whether the pointer passed is non-null. *)
Definition routing_lookup (table source_agent_id frequency_id : Z)
    (out_count : bool) : M (option (list Z) * option Z) :=
  if (table =? NULL) || negb out_count then
    mret (None, if out_count then Some 0 else None)
  else
    '(index, found) ← find_slot table source_agent_id frequency_id;
    if found : bool then
      e ← load_entry table index;
      mret (Some (re_dest_agent_ids e), Some (re_dest_count e))
    else mret (None, Some 0).

(** The inner loop of [routing_resolve_queues], over the destinations [j],
    [j + 1], ... of the route in slot [index]; a write past the cache
    array is a fault. *)
Fixpoint resolve_route_loop (n : nat) (table agents index : Z) (j : nat)
  : M unit :=
  match n with
  | O => mret tt
  | S n =>
      e ← load_entry table index;
      match re_dest_agent_ids e !! j, re_dest_queues e !! j with
      | Some dest, Some _ =>
          queue ← agent_get_queue agents dest;
          store_entry table index (set_re_dest_queue j queue e);;
          resolve_route_loop n table agents index (S j)
      | _, _ => fault
      end
  end.

(** The outer loop, over the slots [i], [i + 1], ... of the table. *)
Fixpoint resolve_table_loop (n : nat) (table agents : Z) (i : nat) : M unit :=
  match n with
  | O => mret tt
  | S n =>
      e ← load_entry table (Z.of_nat i);
      (if re_source_agent_id e =? 0 then mret tt
       else resolve_route_loop (Z.to_nat (re_dest_count e)) table agents
                               (Z.of_nat i) 0);;
      resolve_table_loop n table agents (S i)
  end.

Definition routing_resolve_queues (table agents : Z) : M unit :=
  if (table =? NULL) || (agents =? NULL) then mret tt
  else
    t ← load_rtable table;
    resolve_table_loop (Z.to_nat (rt_capacity t)) table agents 0.

Definition store_registry (p : Z) (r : AgentRegistry) : M unit :=
  modify (fun w => set_registries (<[p := r]> (registries w)) w).

Definition agent_registry_create (capacity : Z) : M Z :=
  registry ← heap_allocate sizeof_AgentRegistry;
  if registry =? NULL then mret NULL
  else
    agents ← heap_allocate (u64 (capacity * sizeof_ptr));
    if agents =? NULL then heap_free registry sizeof_AgentRegistry;; mret NULL
    else
      store_registry registry
        (mkRegistry (replicate (Z.to_nat capacity) None) 0 capacity);;
      mret registry.

(** [agent] is [None] for a null pointer. *)
Definition agent_registry_add (registry : Z) (agent : option Agent) : M Z :=
  match agent with
  | None => mret SIGNAL_ERR_NULL_POINTER
  | Some a =>
      if registry =? NULL then mret SIGNAL_ERR_NULL_POINTER
      else
        r ← load_registry registry;
        if reg_capacity r <=? ag_agent_id a then mret SIGNAL_ERR_ALLOC_FAILED
        else
          let slot := Z.to_nat (ag_agent_id a) in
          match reg_agents r !! slot with
          | None => fault
          | Some _ =>
              store_registry registry
                (mkRegistry (<[slot := Some a]> (reg_agents r))
                   (if reg_count r <=? ag_agent_id a
                    then u32 (ag_agent_id a + 1) else reg_count r)
                   (reg_capacity r));;
              mret SIGNAL_OK
          end
  end.

(** ** dispatch.c: registration and lookup

    [DISPATCH_ERR_ALLOC_FAILED] and the two [sizeof] come from [dispatch.h]
    like the constants of [DispatchHeader]. *)

Class DispatchSizes := {
  DISPATCH_ERR_ALLOC_FAILED : Z;
  sizeof_DispatchTable : Z;
  sizeof_DispatchEntry : Z
}.

Definition set_dt_entries (es : list DispatchEntry) (t : DispatchTable)
  : DispatchTable :=
  mkTable es (dt_entry_count t) (dt_capacity t) (dt_default_handler t)
          (dt_agent_state t) (dt_agent_id t) (dt_lookup_count t)
          (dt_hit_count t) (dt_miss_count t).
Definition set_dt_entry_count (n : Z) (t : DispatchTable) : DispatchTable :=
  mkTable (dt_entries t) n (dt_capacity t) (dt_default_handler t)
          (dt_agent_state t) (dt_agent_id t) (dt_lookup_count t)
          (dt_hit_count t) (dt_miss_count t).
Definition set_dt_default_handler (h : Z) (t : DispatchTable) : DispatchTable :=
  mkTable (dt_entries t) (dt_entry_count t) (dt_capacity t) h
          (dt_agent_state t) (dt_agent_id t) (dt_lookup_count t)
          (dt_hit_count t) (dt_miss_count t).
Definition set_dt_agent_state (p : Z) (t : DispatchTable) : DispatchTable :=
  mkTable (dt_entries t) (dt_entry_count t) (dt_capacity t)
          (dt_default_handler t) p (dt_agent_id t) (dt_lookup_count t)
          (dt_hit_count t) (dt_miss_count t).

Section DispatchRegistration.
Context `{DispatchHeader} `{DispatchSizes} (call : Code).

Definition dispatch_table_create (capacity agent_id : Z) : M Z :=
  table ← heap_allocate sizeof_DispatchTable;
  if table =? NULL then mret NULL
  else
    let entries_size := u64 (capacity * sizeof_DispatchEntry) in
    entries ← heap_allocate entries_size;
    if entries =? NULL then heap_free table sizeof_DispatchTable;; mret NULL
    else
      store_table table
        (mkTable (replicate (Z.to_nat capacity) (mkEntry 0 0 NULL NULL))
                 0 capacity NULL NULL agent_id 0 0 0);;
      mret table.

(** [flags |= DISPATCH_FLAG_HAS_GUARD] when a guard is given, else
    [flags &= ~DISPATCH_FLAG_HAS_GUARD]; on the non-negative [flags] the
    result does not depend on the width of the field. *)
Definition guard_flag (guard flags : Z) : Z :=
  if negb (guard =? NULL) then Z.lor flags DISPATCH_FLAG_HAS_GUARD
  else Z.land flags (Z.lnot DISPATCH_FLAG_HAS_GUARD).

Definition dispatch_register (table frequency_id handler guard : Z) : M Z :=
  if (table =? NULL) || (handler =? NULL) then mret DISPATCH_ERR_NULL_POINTER
  else
    t ← load_table table;
    match dispatch_scan (Z.to_nat (dt_entry_count t)) (dt_entries t)
                        frequency_id 0 with
    | None => fault
    | Some (Some i) =>
        match dt_entries t !! i with
        | None => fault
        | Some e =>
            store_table table
              (set_dt_entries
                 (<[i := mkEntry (de_frequency_id e)
                                 (guard_flag guard (de_flags e))
                                 handler guard]> (dt_entries t)) t);;
            mret DISPATCH_OK
        end
    | Some None =>
        if dt_capacity t <=? dt_entry_count t
        then mret DISPATCH_ERR_ALLOC_FAILED
        else
          let i := Z.to_nat (dt_entry_count t) in
          match dt_entries t !! i with
          | None => fault
          | Some _ =>
              store_table table
                (set_dt_entry_count (u32 (dt_entry_count t + 1))
                   (set_dt_entries
                      (<[i := mkEntry frequency_id
                                (if negb (guard =? NULL)
                                 then Z.lor DISPATCH_FLAG_ACTIVE
                                            DISPATCH_FLAG_HAS_GUARD
                                 else DISPATCH_FLAG_ACTIVE)
                                handler guard]> (dt_entries t)) t));;
              mret DISPATCH_OK
          end
    end.

Definition dispatch_unregister (table frequency_id : Z) : M Z :=
  if table =? NULL then mret DISPATCH_ERR_NULL_POINTER
  else
    t ← load_table table;
    match dispatch_scan (Z.to_nat (dt_entry_count t)) (dt_entries t)
                        frequency_id 0 with
    | None => fault
    | Some (Some i) =>
        match dt_entries t !! i with
        | None => fault
        | Some e =>
            store_table table
              (set_dt_entries
                 (<[i := mkEntry (de_frequency_id e)
                           (Z.land (de_flags e)
                                   (Z.lnot DISPATCH_FLAG_ACTIVE))
                           (de_handler e) (de_guard e)]> (dt_entries t)) t);;
            mret DISPATCH_OK
        end
    | Some None => mret DISPATCH_ERR_NO_HANDLER
    end.

Definition dispatch_set_default (table handler : Z) : M unit :=
  if negb (table =? NULL) then
    t ← load_table table;
    store_table table (set_dt_default_handler handler t)
  else mret tt.

Definition dispatch_set_state (table state : Z) : M unit :=
  if negb (table =? NULL) then
    t ← load_table table;
    store_table table (set_dt_agent_state state t)
  else mret tt.

Definition dispatch_lookup (table frequency_id : Z) : M Z :=
  if table =? NULL then mret NULL
  else
    t ← load_table table;
    match dispatch_scan (Z.to_nat (dt_entry_count t)) (dt_entries t)
                        frequency_id 0 with
    | None => fault
    | Some (Some i) =>
        match dt_entries t !! i with
        | None => fault
        | Some e => mret (de_handler e)
        end
    | Some None => mret NULL
    end.

Definition dispatch_get_lookup_count (table : Z) : M Z :=
  if negb (table =? NULL) then t ← load_table table; mret (dt_lookup_count t)
  else mret 0.
Definition dispatch_get_hit_count (table : Z) : M Z :=
  if negb (table =? NULL) then t ← load_table table; mret (dt_hit_count t)
  else mret 0.
Definition dispatch_get_miss_count (table : Z) : M Z :=
  if negb (table =? NULL) then t ← load_table table; mret (dt_miss_count t)
  else mret 0.

Definition dispatch_reset_stats (table : Z) : M unit :=
  if negb (table =? NULL) then
    t ← load_table table;
    store_table table
      (set_dt_miss_count 0 (set_dt_hit_count 0 (set_dt_lookup_count 0 t)))
  else mret tt.

(** The [while] loop of [dispatch_process_queue]; [fuel] bounds the
    iterations. *)
Fixpoint process_queue_loop (fuel : nat) (table queue processed : Z)
  : M Z :=
  match fuel with
  | O =>
      signal ← signal_queue_dequeue queue;
      if signal =? NULL then (mret processed : M Z) else fun _ => OutOfFuel
  | S fuel =>
      signal ← signal_queue_dequeue queue;
      if signal =? NULL then mret processed
      else
        dispatch_invoke call table signal;;
        signal_free signal;;
        process_queue_loop fuel table queue (s32 (processed + 1))
  end.

Definition dispatch_process_queue (fuel : nat) (table queue : Z) : M Z :=
  if (table =? NULL) || (queue =? NULL) then mret 0
  else process_queue_loop fuel table queue 0.
End DispatchRegistration.

(** ** scheduler.c: the rest *)

Definition scheduler_destroy (sched : Z) : M unit :=
  if sched =? NULL then mret tt
  else heap_free sched sizeof_Scheduler;; mret tt.

(** The [for] loop of [scheduler_run_cycles]; [n] cycles are left. *)
Fixpoint run_cycles_loop (n : nat) (sched : Z) : M unit :=
  match n with
  | O => mret tt
  | S n =>
      processed ← scheduler_run_cycle sched;
      (if processed <? 0 then
         s ← load_sched sched;
         store_sched sched
           (set_sch_dispatch_errors (u64 (sch_dispatch_errors s + 1)) s)
       else mret tt);;
      run_cycles_loop n sched
  end.

Definition scheduler_run_cycles (sched max_cycles : Z) : M Z :=
  if sched =? NULL then mret SIGNAL_ERR_NULL_POINTER
  else
    ts ← get_cpu_timestamp;
    s ← load_sched sched;
    store_sched sched (set_sch_start ts s);;
    run_cycles_loop (Z.to_nat max_cycles) sched;;
    ts ← get_cpu_timestamp;
    s ← load_sched sched;
    store_sched sched (set_sch_end ts s);;
    mret (s32 (sch_total_signals_processed s)).

Definition scheduler_get_cycle_count (sched : Z) : M Z :=
  if sched =? NULL then mret 0
  else s ← load_sched sched; mret (sch_cycle_count s).

Definition scheduler_get_signals_processed (sched : Z) : M Z :=
  if sched =? NULL then mret 0
  else s ← load_sched sched; mret (sch_total_signals_processed s).

(** * Further vocabulary *)

(** ** The heap *)

(** The heap is set up, its free list is empty and the bump region has
    room for [bytes] more bytes. *)
Definition bump_fits (w : World) (bytes : Z) : Prop :=
  hp_initialized (heap w) = true
  /\ hp_free_list (heap w) = []
  /\ 0 < hp_current (heap w)
  /\ hp_current (heap w) + bytes <= hp_end (heap w).

(** [heap_world] after a first block of 64 bytes was handed out, at
    4096. *)
Definition block_world : World := world_of (heap_allocate 64 heap_world).

(** ** Mailboxes as sequences *)

(** The capacity is a power of two, as [signal_queue_create] makes it. *)
Definition pow2_capacity (q : SignalQueue) : Prop :=
  exists k, 0 <= k < 32 /\ q_capacity q = 2 ^ k.

(** The slot of the reference that is [i] places behind the head. *)
Definition slot_of (q : SignalQueue) (i : nat) : nat :=
  Z.to_nat (Z.land (u32 (q_head q + Z.of_nat i)) (q_mask q)).

(** The references waiting in the mailbox, the oldest first. *)
Definition queue_contents (q : SignalQueue) : list Z :=
  map (fun i => default NULL (q_buffer q !! slot_of q i))
      (seq 0 (Z.to_nat (q_count q))).

(** The signals of [l] are offered to [queue] one after the other. *)
Fixpoint enqueue_all (queue : Z) (l : list Z) : M unit :=
  match l with
  | [] => mret tt
  | signal :: l => signal_queue_enqueue queue signal;; enqueue_all queue l
  end.

(** [n] signals are taken from [queue]; the first one taken first. *)
Fixpoint dequeue_many (n : nat) (queue : Z) : M (list Z) :=
  match n with
  | O => mret []
  | S n =>
      signal ← signal_queue_dequeue queue;
      rest ← dequeue_many n queue;
      mret (signal :: rest)
  end.

(** [broadcast_world] with a second signal (kind 9, from agent 1, no
    payload), which sits at 4288. *)
Definition two_signals_world : World :=
  world_of (signal_create 9 1 None 0 broadcast_world).

(** ** Signals and their references *)

(** [n] holders give up their reference on [sig], one after the other. *)
Fixpoint release_references (n : nat) (sig : Z) : M unit :=
  match n with
  | O => mret tt
  | S n => signal_free sig;; release_references n sig
  end.

(** The typed stores of [w] and [w'] hold the same object at [p]. *)
Definition same_at (p : Z) (w w' : World) : Prop :=
  signals w' !! p = signals w !! p
  /\ payloads w' !! p = payloads w !! p
  /\ queues w' !! p = queues w !! p
  /\ tables w' !! p = tables w !! p
  /\ rtables w' !! p = rtables w !! p
  /\ registries w' !! p = registries w !! p
  /\ scheds w' !! p = scheds w !! p.

(** What a holder that gives up its reference leaves of a heap-allocated
    signal: the signal with one reference less, or nothing when that was
    the last one. *)
Definition after_release (s : Signal) : option Signal :=
  if 1 <? sig_ref_count s
  then Some (set_sig_ref_count (sig_ref_count s - 1) s)
  else None.

(** The signals waiting in mailbox [q] at [queue] can be released one by
    one: no signal waits twice, each is a live heap-allocated signal with
    a sane count, and neither a signal nor its payload sits where the
    mailbox, its ring or another waiting signal sits. *)
Definition queued_signals_ok (w : World) (queue : Z) (q : SignalQueue)
  : Prop :=
  NoDup (queue_contents q)
  /\ forall sig, sig ∈ queue_contents q ->
       sig <> NULL /\ sig <> queue /\ sig <> q_buffer_ptr q
       /\ exists s,
            signals w !! sig = Some s
            /\ 1 <= sig_ref_count s < 2 ^ 16
            /\ has_flag (sig_flags s) SIGNAL_FLAG_HEAP_ALLOCATED = true
            /\ sig_payload_ptr s <> queue
            /\ sig_payload_ptr s <> q_buffer_ptr q
            /\ sig_payload_ptr s ∉ queue_contents q.

(** ** Probing the routing table *)

(** The slot [find_slot] looks at in its [j]-th probe for the key
    [(source_agent_id, frequency_id)]. *)
Definition probe_slot (t : RoutingTable) (source_agent_id frequency_id : Z)
    (j : nat) : nat :=
  Z.to_nat
    (Z.land (Z.land (fnv1a_hash source_agent_id frequency_id) (rt_mask t)
             + Z.of_nat j)
            (rt_mask t)).

(** A registry with room for four agents and nobody registered yet, at
    9500 in [signal_world]. *)
Definition empty_registry : AgentRegistry := mkRegistry [None; None; None; None] 0 4.
Definition registry_world : World :=
  set_registries {[9500 := empty_registry]} signal_world.

(** [broadcast_world] with a routing table whose only route is one from
    agent 0, on kind 7 to agents 2 and 3, stored in the home slot of its
    key; and a signal of kind 7 from agent 0, which sits at 4288. *)
Definition zero_route : RoutingEntry := mkRoute 0 7 2 0 [2; 3] [NULL; NULL].
Definition zero_rtable : RoutingTable :=
  mkRoutingTable
    (<[Z.to_nat (Z.land (fnv1a_hash 0 7) 3) := zero_route]>
       (replicate 4 empty_route))
    4 3 1 0.
Definition zero_world : World :=
  set_rtables {[9800 := zero_rtable]}
    (world_of (signal_create 7 0 None 0 broadcast_world)).

(** ** Registered handlers *)

Section RegistrationVocabulary.
Context `{DispatchHeader}.

(** [DISPATCH_FLAG_ACTIVE] is a flag, and a different one than
    [DISPATCH_FLAG_HAS_GUARD]. *)
Definition flags_sane : Prop :=
  DISPATCH_FLAG_ACTIVE <> 0
  /\ Z.land DISPATCH_FLAG_ACTIVE DISPATCH_FLAG_HAS_GUARD = 0.

(** The array has [capacity] entries, the first [entry_count] of which
    are in use. *)
Definition table_sized (t : DispatchTable) : Prop :=
  length (dt_entries t) = Z.to_nat (dt_capacity t)
  /\ 0 <= dt_entry_count t <= dt_capacity t
  /\ dt_capacity t < 2 ^ 32.

(** No kind has two active entries. *)
Definition unique_active (t : DispatchTable) : Prop :=
  forall kind (i j : nat) e e',
    (i < Z.to_nat (dt_entry_count t))%nat ->
    (j < Z.to_nat (dt_entry_count t))%nat ->
    dt_entries t !! i = Some e -> dt_entries t !! j = Some e' ->
    entry_matches kind e = true -> entry_matches kind e' = true -> i = j.
End RegistrationVocabulary.

(** Sizes and the missing status code, for runs with [demo_header]. *)
Definition demo_sizes : DispatchSizes :=
  {| DISPATCH_ERR_ALLOC_FAILED := 5;
     sizeof_DispatchTable := 48;
     sizeof_DispatchEntry := 24 |}.

(** A table with room for two handlers and none registered, at 9200 in
    [signal_world]; and the same table full: kind 7 is handled by function
    100, kind 8 by function 300. *)
Definition empty_table : DispatchTable :=
  mkTable [mkEntry 0 0 NULL NULL; mkEntry 0 0 NULL NULL] 0 2 NULL 8000 1 0 0 0.
Definition full_table : DispatchTable :=
  mkTable [mkEntry 7 1 100 NULL; mkEntry 8 1 300 NULL] 2 2 NULL 8000 1 0 0 0.
Definition register_world : World :=
  set_tables {[9200 := empty_table]} signal_world.
Definition full_table_world : World :=
  set_tables {[9200 := full_table]} signal_world.

(** ** What the scheduler leaves alone *)

(** From [w] to [w'] no dispatch table and no word of agent state was
    written by a handler, and none was created: the tables of [w'] are
    tables of [w], counters included, and the words of [w'] are words of
    [w].  A word of [w] that is missing in [w'] lies under the header of a
    block on the free list, which has lost no block. *)
Definition handlers_untouched (w w' : World) : Prop :=
  tables w' ⊆ tables w
  /\ agent_mem w' ⊆ agent_mem w
  /\ (forall b, b ∈ hp_free_list (heap w) -> b ∈ hp_free_list (heap w'))
  /\ forall k v, agent_mem w !! k = Some v ->
       agent_mem w' !! k = Some v
       \/ exists b, b ∈ hp_free_list (heap w')
                    /\ under_header (fb_addr b) (k, v).

Definition leaves_handlers {A} (m : M A) : Prop :=
  forall w a w', m w = Done a w' -> handlers_untouched w w'.

(** A scheduler that was given no registry, at 9600 in [signal_world]. *)
Definition orphan_scheduler : Scheduler :=
  mkScheduler NULL 9700 PHASE_REST 1 0 10 0 0 0 0 0 0.
Definition orphan_world : World :=
  set_scheds {[9600 := orphan_scheduler]} signal_world.

(** * Proofs *)

(** ** Arithmetic and monad lemmas *)

Lemma land_le_r (a b : Z) : 0 <= b -> Z.land a b <= b.
Proof.
  intros Hb.
  assert (Hsplit : b = Z.land a b + Z.land (Z.lnot a) b).
  { rewrite Z.add_nocarry_lxor.
    - apply Z.bits_inj'; intros n Hn.
      rewrite Z.lxor_spec, !Z.land_spec, Z.lnot_spec by lia.
      destruct (Z.testbit a n), (Z.testbit b n); reflexivity.
    - apply Z.bits_inj'; intros n Hn.
      rewrite !Z.land_spec, Z.lnot_spec, Z.bits_0 by lia.
      destruct (Z.testbit a n), (Z.testbit b n); reflexivity. }
  assert (0 <= Z.land (Z.lnot a) b) by (apply Z.land_nonneg; auto).
  lia.
Qed.

Lemma wrap_small (bits x : Z) : 0 <= x < 2 ^ bits -> wrap bits x = x.
Proof. intros; unfold wrap; apply Z.mod_small; assumption. Qed.

Lemma wrap_range (bits x : Z) : 0 <= bits -> 0 <= wrap bits x < 2 ^ bits.
Proof. intros; unfold wrap; apply Z.mod_pos_bound; apply Z.pow_pos_nonneg; lia. Qed.

Lemma u32_small x : 0 <= x < 2 ^ 32 -> u32 x = x.
Proof. apply wrap_small. Qed.
Lemma u32_range x : 0 <= u32 x < 2 ^ 32.
Proof. apply wrap_range; lia. Qed.

Lemma s32_small x : - 2 ^ 31 <= x < 2 ^ 31 -> s32 x = x.
Proof. intros Hx. unfold s32. rewrite Z.mod_small; lia. Qed.

Lemma u16_add_assoc a b c : u16 (u16 (a + b) + c) = u16 (a + (b + c)).
Proof. unfold u16, wrap. rewrite Zplus_mod_idemp_l. f_equal; lia. Qed.

Lemma u32_add_assoc a b c : u32 (u32 (a + b) + c) = u32 (a + (b + c)).
Proof. unfold u32, wrap. rewrite Zplus_mod_idemp_l. f_equal; lia. Qed.

Lemma u64_add_assoc a b c : u64 (u64 (a + b) + c) = u64 (a + (b + c)).
Proof. unfold u64, wrap. rewrite Zplus_mod_idemp_l. f_equal; lia. Qed.

Lemma bind_done {A B} (m : M A) (k : A -> M B) w a w' :
  m w = Done a w' -> (m ≫= k) w = k a w'.
Proof. intros E; unfold mbind, M_bind, bind; rewrite E; reflexivity. Qed.

Lemma bind_fault {A B} (m : M A) (k : A -> M B) w :
  m w = Fault -> (m ≫= k) w = Fault.
Proof. intros E; unfold mbind, M_bind, bind; rewrite E; reflexivity. Qed.

Lemma load_done {A} (store : World -> gmap Z A) p w x :
  p <> NULL -> store w !! p = Some x -> load store p w = Done x w.
Proof.
  intros Hp Hx; unfold load.
  rewrite (proj2 (Z.eqb_neq p 0)) by exact Hp. rewrite Hx; reflexivity.
Qed.

Lemma load_inv {A} (store : World -> gmap Z A) p w x w' :
  load store p w = Done x w' -> p <> NULL /\ store w !! p = Some x /\ w' = w.
Proof.
  unfold load. destruct (Z.eqb_spec p 0); [discriminate|].
  destruct (store w !! p); [|discriminate].
  intros [= <- <-]; auto.
Qed.

(** ** The mailbox *)

Lemma signal_queue_enqueue_full queue signal q w :
  queue <> NULL -> signal <> NULL ->
  queues w !! queue = Some q ->
  q_capacity q <= q_count q ->
  signal_queue_enqueue queue signal w
  = Done SIGNAL_ERR_QUEUE_FULL
         (set_queues (<[queue := queue_drop q]> (queues w)) w).
Proof.
  intros Hq Hs Hl Hfull. unfold signal_queue_enqueue.
  rewrite (proj2 (Z.eqb_neq queue NULL)), (proj2 (Z.eqb_neq signal NULL)) by assumption.
  erewrite bind_done by (apply load_done; eassumption).
  rewrite (proj2 (Z.leb_le _ _)) by assumption.
  reflexivity.
Qed.

Lemma signal_queue_enqueue_ok queue signal q s w :
  queue <> NULL -> signal <> NULL ->
  queues w !! queue = Some q ->
  signals w !! signal = Some s ->
  q_count q < q_capacity q ->
  (enqueue_index q < length (q_buffer q))%nat ->
  signal_queue_enqueue queue signal w
  = Done SIGNAL_OK
      (set_queues
         (<[queue := queue_pushed (queue_write (enqueue_index q) signal q)]>
            (queues w))
         (set_signals
            (<[signal := set_sig_ref_count (u16 (sig_ref_count s + 1)) s]>
               (signals w)) w)).
Proof.
  intros Hq Hs Hl Hsl Hroom Hidx. unfold signal_queue_enqueue.
  rewrite (proj2 (Z.eqb_neq queue NULL)), (proj2 (Z.eqb_neq signal NULL)) by assumption.
  erewrite bind_done by (apply load_done; eassumption).
  rewrite (proj2 (Z.leb_gt _ _)) by assumption.
  fold (enqueue_index q).
  destruct (lookup_lt_is_Some_2 _ _ Hidx) as [old Hold]. rewrite Hold.
  unfold signal_ref. rewrite (proj2 (Z.eqb_neq signal NULL)) by assumption.
  unfold mbind, M_bind, bind, store_queue, store_signal, load_signal, load_queue, load, modify, mret, M_ret, ret.
  simpl. rewrite (proj2 (Z.eqb_neq signal 0)), (proj2 (Z.eqb_neq queue 0)) by assumption.
  rewrite Hsl. simpl. rewrite lookup_insert_eq. 
  unfold set_queues, set_signals; simpl. rewrite insert_insert_eq. reflexivity.
Qed.

Lemma signal_queue_dequeue_empty queue q w :
  queue <> NULL -> queues w !! queue = Some q -> q_count q = 0 ->
  signal_queue_dequeue queue w = Done NULL w.
Proof.
  intros Hq Hl Hc. unfold signal_queue_dequeue.
  rewrite (proj2 (Z.eqb_neq queue NULL)) by assumption.
  erewrite bind_done by (apply load_done; eassumption).
  rewrite Hc. reflexivity.
Qed.

Lemma signal_queue_dequeue_ok queue q sig w :
  queue <> NULL -> queues w !! queue = Some q -> q_count q <> 0 ->
  q_buffer q !! dequeue_index q = Some sig ->
  signal_queue_dequeue queue w
  = Done sig
      (set_queues
         (<[queue := queue_popped (queue_write (dequeue_index q) NULL q)]>
            (queues w)) w).
Proof.
  intros Hq Hl Hc Hb. unfold signal_queue_dequeue.
  rewrite (proj2 (Z.eqb_neq queue NULL)) by assumption.
  erewrite bind_done by (apply load_done; eassumption).
  rewrite (proj2 (Z.eqb_neq _ _)) by assumption.
  fold (dequeue_index q). rewrite Hb. reflexivity.
Qed.

Lemma enqueue_index_lt q : queue_wf q -> (enqueue_index q < length (q_buffer q))%nat.
Proof.
  intros [Hcap Hmask Hbuf Hhead Hcount Htail _ _ _]. unfold enqueue_index.
  rewrite Hbuf, Hmask.
  assert (0 <= Z.land (q_tail q) (q_capacity q - 1) <= q_capacity q - 1).
  { split; [apply Z.land_nonneg; right; lia | apply land_le_r; lia]. }
  lia.
Qed.

Lemma dequeue_index_lt q : queue_wf q -> (dequeue_index q < length (q_buffer q))%nat.
Proof.
  intros [Hcap Hmask Hbuf Hhead Hcount Htail _ _ _]. unfold dequeue_index.
  rewrite Hbuf, Hmask.
  assert (0 <= Z.land (q_head q) (q_capacity q - 1) <= q_capacity q - 1).
  { split; [apply Z.land_nonneg; right; lia | apply land_le_r; lia]. }
  lia.
Qed.

Lemma queue_wf_drop q : queue_wf q -> queue_wf (queue_drop q).
Proof.
  intros [? ? ? ? ? ? ? ? ?]; constructor; simpl; auto. apply u32_range.
Qed.

Lemma queue_wf_pushed i p q :
  queue_wf q -> q_count q < q_capacity q ->
  queue_wf (queue_pushed (queue_write i p q)).
Proof.
  intros [Hcap Hmask Hbuf Hhead Hcount Htail Hdeq Henq Hdrop] Hroom.
  assert (Hc : u32 (q_count q + 1) = q_count q + 1) by (apply u32_small; lia).
  constructor; simpl; auto.
  - rewrite length_insert; exact Hbuf.
  - rewrite Hc; lia.
  - rewrite Hc, Htail. apply u32_add_assoc.
  - rewrite Hc, Henq. apply u32_add_assoc.
Qed.

Lemma queue_wf_popped i p q :
  queue_wf q -> q_count q <> 0 ->
  queue_wf (queue_popped (queue_write i p q)).
Proof.
  intros [Hcap Hmask Hbuf Hhead Hcount Htail Hdeq Henq Hdrop] Hne.
  assert (Hc : u32 (q_count q - 1) = q_count q - 1) by (apply u32_small; lia).
  constructor; simpl; auto.
  - rewrite length_insert; exact Hbuf.
  - apply u32_range.
  - rewrite Hc; lia.
  - rewrite Hc, Htail, u32_add_assoc. f_equal; lia.
  - apply u32_range.
  - rewrite Hc, Henq, u32_add_assoc. f_equal; lia.
Qed.

Ltac munfold :=
  unfold mbind, M_bind, bind, mret, M_ret, ret, modify, fault, get_heap,
    put_heap, get_world in *.

Lemma heap_allocate_initialized_inv bytes w p w' :
  heap_allocate_initialized bytes w = Done p w' ->
  (exists h, w' = set_heap h w) /\ (p <> NULL -> bytes <> 0).
Proof.
  unfold heap_allocate_initialized.
  destruct (Z.eqb_spec bytes 0) as [->|Hb].
  - munfold. intros [= <- <-]. split; [exists (heap w); destruct w; reflexivity|].
    intros Hp; exfalso; apply Hp; reflexivity.
  - munfold. simpl.
    destruct (take_first_fit _ _) as [[block rest]|].
    + intros [= <- <-]. split; [eexists; reflexivity | auto].
    + destruct (_ <? _).
      * intros [= <- <-]. split; [exists (heap w); destruct w; reflexivity | auto].
      * intros [= <- <-]. split; [eexists; reflexivity | auto].
Qed.

Lemma heap_allocate_inv bytes w p w' :
  heap_allocate bytes w = Done p w' ->
  (exists h, w' = set_heap h w) /\ (p <> NULL -> bytes <> 0).
Proof.
  unfold heap_allocate, heap_init, sys_mmap. munfold. simpl.
  destruct (hp_initialized (heap w)) eqn:Hinit.
  - apply heap_allocate_initialized_inv.
  - rewrite Hinit. destruct (os_mmap w) as [base|]; simpl.
    + destruct (Z.eqb_spec base NULL); simpl.
      * intros [= <- <-]. split; [exists (heap w); destruct w; reflexivity|].
        intros Hp; exfalso; apply Hp; reflexivity.
      * intros Ha. apply heap_allocate_initialized_inv in Ha as [[h ->] Hp].
        split; [eexists; reflexivity | exact Hp].
    + intros [= <- <-]. split; [exists (heap w); destruct w; reflexivity|].
      intros Hp; exfalso; apply Hp; reflexivity.
Qed.

Lemma heap_allocate_total bytes w :
  exists p w', heap_allocate bytes w = Done p w'.
Proof.
  unfold heap_allocate, heap_init, sys_mmap, heap_allocate_initialized.
  munfold. simpl.
  repeat match goal with
         | |- context [if ?b then _ else _] => destruct b; simpl
         | |- context [match ?o with Some _ => _ | None => _ end] =>
             destruct o as [[? ?]|] ; simpl
         | |- context [match os_mmap w with _ => _ end] =>
             destruct (os_mmap w); simpl
         end; eauto.
Qed.

Lemma signal_queue_create_inv capacity w queue w' :
  0 <= capacity < 2 ^ 32 ->
  signal_queue_create capacity w = Done queue w' -> queue <> NULL ->
  exists q, queues w' !! queue = Some q /\ queue_wf q /\ q_count q = 0.
Proof.
  intros Hcap. unfold signal_queue_create.
  set (cap := if is_power_of_two capacity then capacity
              else next_power_of_two capacity).
  assert (Hrange : 0 <= cap < 2 ^ 32).
  { subst cap. destruct (is_power_of_two capacity); [exact Hcap|].
    unfold next_power_of_two. apply u32_range. }
  destruct (heap_allocate_total sizeof_SignalQueue w) as (p1 & w1 & E1).
  rewrite (bind_done _ _ _ _ _ E1).
  destruct (Z.eqb_spec p1 NULL) as [->|Hp1].
  { intros [= <- <-] Hn; exfalso; apply Hn; reflexivity. }
  destruct (heap_allocate_total (u64 (cap * sizeof_ptr)) w1) as (p2 & w2 & E2).
  rewrite (bind_done _ _ _ _ _ E2).
  destruct (Z.eqb_spec p2 NULL) as [->|Hp2].
  { unfold heap_free. munfold. simpl.
    destruct (_ || _); intros [= <- <-] Hn; exfalso; apply Hn; reflexivity. }
  apply heap_allocate_inv in E2 as [_ Hsize]. specialize (Hsize Hp2).
  assert (Hpos : 1 <= cap).
  { destruct (Z.eq_dec cap 0) as [E0|]; [|lia].
    exfalso; apply Hsize. rewrite E0; reflexivity. }
  unfold store_queue. munfold. simpl. intros [= <- <-] _.
  simpl. rewrite lookup_insert_eq. eexists; split; [reflexivity|].
  split; [|reflexivity].
  constructor; simpl; try lia.
  - apply u32_small; lia.
  - rewrite length_replicate; reflexivity.
  - rewrite u32_small; lia.
  - rewrite u32_small; lia.
Qed.

Lemma has_flag_lor (f b : Z) : b <> 0 -> has_flag (Z.lor f b) b = true.
Proof.
  intros Hb. unfold has_flag.
  replace (Z.land (Z.lor f b) b) with b.
  - rewrite (proj2 (Z.eqb_neq b 0)) by exact Hb; reflexivity.
  - apply Z.bits_inj'; intros n Hn.
    rewrite Z.land_spec, Z.lor_spec.
    destruct (Z.testbit f n), (Z.testbit b n); reflexivity.
Qed.

(** C3: on a full mailbox [signal_queue_enqueue] counts a drop, raises the
    overflow flag and returns [SIGNAL_ERR_QUEUE_FULL], leaving the signal,
    the ring and [head], [tail], [count], [total_enqueued] as they were; on
    a mailbox with room it writes the reference at
    [tail & (capacity - 1)], takes a reference on the signal, advances
    [tail], [count] and [total_enqueued] by one and returns [SIGNAL_OK].
    The counters are the C fields: [uint32_t] (and [uint16_t] for
    [ref_count]) increments. *)
Theorem signal_queue_enqueue_spec (queue signal : Z) (q : SignalQueue)
    (w : World) :
  queue <> NULL -> signal <> NULL ->
  queues w !! queue = Some q -> queue_wf q ->
  (q_count q = q_capacity q ->
     exists w' q',
       signal_queue_enqueue queue signal w = Done SIGNAL_ERR_QUEUE_FULL w'
       /\ queues w' !! queue = Some q'
       /\ q_dropped_count q' = u32 (q_dropped_count q + 1)
       /\ has_flag (q_flags q') QUEUE_FLAG_OVERFLOW = true
       /\ signals w' = signals w
       /\ q_buffer q' = q_buffer q
       /\ q_head q' = q_head q /\ q_tail q' = q_tail q
       /\ q_count q' = q_count q
       /\ q_total_enqueued q' = q_total_enqueued q)
  /\ (q_count q < q_capacity q ->
      forall s, signals w !! signal = Some s ->
      exists w' q' s',
        signal_queue_enqueue queue signal w = Done SIGNAL_OK w'
        /\ queues w' !! queue = Some q'
        /\ signals w' !! signal = Some s'
        /\ q_buffer q' !! Z.to_nat (Z.land (q_tail q) (q_capacity q - 1))
           = Some signal
        /\ sig_ref_count s' = u16 (sig_ref_count s + 1)
        /\ q_tail q' = u32 (q_tail q + 1)
        /\ q_count q' = q_count q + 1
        /\ q_total_enqueued q' = u32 (q_total_enqueued q + 1)
        /\ q_head q' = q_head q
        /\ q_dropped_count q' = q_dropped_count q).
Proof.
  intros Hq Hs Hl Hwf. split.
  - intros Hfull.
    exists (set_queues (<[queue := queue_drop q]> (queues w)) w), (queue_drop q).
    split; [apply signal_queue_enqueue_full; auto; lia|].
    split; [simpl; apply lookup_insert_eq|].
    simpl. repeat split; try reflexivity.
    apply has_flag_lor; discriminate.
  - intros Hroom s Hsl.
    pose proof (enqueue_index_lt q Hwf) as Hidx.
    eexists _, _, _.
    split; [apply signal_queue_enqueue_ok; eauto|].
    split; [simpl; apply lookup_insert_eq|].
    split; [simpl; apply lookup_insert_eq|].
    simpl. repeat split; try reflexivity.
    + rewrite <- (wf_mask q Hwf). fold (enqueue_index q).
      apply list_lookup_insert_eq. exact Hidx.
    + apply u32_small. destruct Hwf; lia.
Qed.

(** C8: on an empty mailbox, [signal_queue_enqueue] followed by
    [signal_queue_dequeue] hands back the reference that was enqueued, and
    [total_enqueued] and [total_dequeued] have each advanced by one. *)
Theorem enqueue_dequeue_roundtrip (queue signal : Z) (q : SignalQueue)
    (s : Signal) (w : World) :
  queue <> NULL -> signal <> NULL ->
  queues w !! queue = Some q -> queue_wf q ->
  signals w !! signal = Some s ->
  q_count q = 0 ->
  exists w1 w2 q2,
    signal_queue_enqueue queue signal w = Done SIGNAL_OK w1
    /\ signal_queue_dequeue queue w1 = Done signal w2
    /\ queues w2 !! queue = Some q2
    /\ q_total_enqueued q2 = u32 (q_total_enqueued q + 1)
    /\ q_total_dequeued q2 = u32 (q_total_dequeued q + 1)
    /\ q_count q2 = 0.
Proof.
  intros Hq Hs Hl Hwf Hsl Hempty.
  pose proof (enqueue_index_lt q Hwf) as Hidx.
  assert (Hroom : q_count q < q_capacity q) by (destruct Hwf; lia).
  set (q1 := queue_pushed (queue_write (enqueue_index q) signal q)).
  assert (Hsame : dequeue_index q1 = enqueue_index q).
  { unfold dequeue_index, enqueue_index, q1; simpl.
    rewrite (wf_tail q Hwf), Hempty, Z.add_0_r, u32_small; [reflexivity|].
    apply (wf_head q Hwf). }
  eexists _, _, _.
  split; [apply signal_queue_enqueue_ok; eauto|].
  split.
  { apply signal_queue_dequeue_ok with (q := q1); auto.
    - simpl. apply lookup_insert_eq.
    - unfold q1; simpl. rewrite Hempty. discriminate.
    - rewrite Hsame. unfold q1; simpl.
      apply list_lookup_insert_eq. exact Hidx. }
  split; [simpl; apply lookup_insert_eq|].
  simpl. rewrite Hempty. repeat split; reflexivity.
Qed.

Lemma signal_queue_enqueue_dangling queue signal q w :
  queue <> NULL -> signal <> NULL ->
  queues w !! queue = Some q ->
  signals w !! signal = None ->
  q_count q < q_capacity q ->
  (enqueue_index q < length (q_buffer q))%nat ->
  signal_queue_enqueue queue signal w = Fault.
Proof.
  intros Hq Hs Hl Hsl Hroom Hidx. unfold signal_queue_enqueue.
  rewrite (proj2 (Z.eqb_neq queue NULL)),
          (proj2 (Z.eqb_neq signal NULL)) by assumption.
  erewrite bind_done by (apply load_done; eassumption).
  rewrite (proj2 (Z.leb_gt _ _)) by assumption.
  fold (enqueue_index q).
  destruct (lookup_lt_is_Some_2 _ _ Hidx) as [old Hold]. rewrite Hold.
  unfold signal_ref, load_signal, load, store_queue.
  rewrite (proj2 (Z.eqb_neq signal NULL)) by assumption.
  munfold; simpl.
  rewrite (proj2 (Z.eqb_neq signal 0)) by assumption.
  rewrite Hsl. reflexivity.
Qed.

Lemma run_op_wf queue op w w' q :
  queue <> NULL -> queues w !! queue = Some q -> queue_wf q ->
  run_op queue op w = Done tt w' ->
  exists q', queues w' !! queue = Some q' /\ queue_wf q'.
Proof.
  intros Hq Hl Hwf. destruct op as [signal|]; simpl.
  - destruct (Z.eq_dec signal NULL) as [->|Hs].
    { unfold signal_queue_enqueue.
      rewrite (proj2 (Z.eqb_neq queue NULL)) by assumption.
      munfold; simpl. intros [= <-]; eauto. }
    destruct (Z_lt_le_dec (q_count q) (q_capacity q)) as [Hroom|Hfull].
    + destruct (signals w !! signal) as [s|] eqn:Hsl.
      * erewrite bind_done
          by (eapply signal_queue_enqueue_ok; eauto using enqueue_index_lt).
        munfold. intros [= <-]. simpl. rewrite lookup_insert_eq.
        eexists; split; [reflexivity|]. apply queue_wf_pushed; assumption.
      * rewrite bind_fault; [discriminate|].
        apply signal_queue_enqueue_dangling with (q := q);
          auto using enqueue_index_lt.
    + erewrite bind_done by (eapply signal_queue_enqueue_full; eauto).
      munfold. intros [= <-]. simpl. rewrite lookup_insert_eq.
      eexists; split; [reflexivity|]. apply queue_wf_drop; assumption.
  - destruct (Z.eq_dec (q_count q) 0) as [Hempty|Hne].
    + erewrite bind_done by (eapply signal_queue_dequeue_empty; eauto).
      munfold. intros [= <-]; eauto.
    + destruct (lookup_lt_is_Some_2 _ _ (dequeue_index_lt q Hwf)) as [sig Hsig].
      erewrite bind_done by (eapply signal_queue_dequeue_ok; eauto).
      munfold. intros [= <-]. simpl. rewrite lookup_insert_eq.
      eexists; split; [reflexivity|]. apply queue_wf_popped; assumption.
Qed.

Lemma run_ops_wf queue ops : forall w w' q,
  queue <> NULL -> queues w !! queue = Some q -> queue_wf q ->
  run_ops queue ops w = Done tt w' ->
  exists q', queues w' !! queue = Some q' /\ queue_wf q'.
Proof.
  induction ops as [|op ops IH]; intros w w' q Hq Hl Hwf; simpl.
  - munfold. intros [= <-]; eauto.
  - destruct (run_op queue op w) as [[] w1| |] eqn:E1.
    + rewrite (bind_done _ _ _ _ _ E1). intros Hrest.
      destruct (run_op_wf _ _ _ _ _ Hq Hl Hwf E1) as (q1 & Hl1 & Hwf1).
      eapply IH; eauto.
    + rewrite (bind_fault _ _ _ E1). discriminate.
    + unfold mbind, M_bind, bind. rewrite E1. discriminate.
Qed.

Lemma queue_wf_counters q :
  queue_wf q ->
  0 <= q_count q <= q_capacity q
  /\ u32 (q_total_enqueued q - q_total_dequeued q) = q_count q.
Proof.
  intros [Hcap Hmask Hbuf Hhead Hcount Htail Hdeq Henq Hdrop].
  split; [exact Hcount|]. rewrite Henq. unfold u32, wrap.
  rewrite Zminus_mod_idemp_l.
  replace (q_total_dequeued q + q_count q - q_total_dequeued q)
    with (q_count q) by lia.
  apply Z.mod_small. lia.
Qed.

(** C2, as the code has it: whatever sequence of enqueues and dequeues
    follows the creation of a mailbox, [0 <= count <= capacity] and
    [total_enqueued - total_dequeued == count] in [uint32_t] arithmetic;
    rejected signals are counted in [dropped_count] only. *)
Theorem mailbox_invariant (capacity : Z) (ops : list mailbox_op)
    (queue : Z) (w0 w1 w2 : World) :
  0 <= capacity < 2 ^ 32 ->
  signal_queue_create capacity w0 = Done queue w1 -> queue <> NULL ->
  run_ops queue ops w1 = Done tt w2 ->
  exists q, queues w2 !! queue = Some q
    /\ 0 <= q_count q <= q_capacity q
    /\ u32 (q_total_enqueued q - q_total_dequeued q) = q_count q.
Proof.
  intros Hcap Hcreate Hq Hrun.
  destruct (signal_queue_create_inv _ _ _ _ Hcap Hcreate Hq) as (q0 & Hl0 & Hwf0 & _).
  destruct (run_ops_wf _ _ _ _ _ Hq Hl0 Hwf0 Hrun) as (q & Hl & Hwf).
  exists q. split; [exact Hl|]. apply queue_wf_counters; exact Hwf.
Qed.

Lemma mailbox_invariant_witness :
  exists q,
    queues (world_of (run_ops 4144 [OpEnqueue 4096; OpEnqueue 4096; OpDequeue]
                              mailbox_world)) !! 4144 = Some q
    /\ 0 <= q_count q <= q_capacity q
    /\ u32 (q_total_enqueued q - q_total_dequeued q) = q_count q.
Proof.
  apply (mailbox_invariant 1 [OpEnqueue 4096; OpEnqueue 4096; OpDequeue]
           4144 signal_world mailbox_world).
  - lia.
  - vm_compute; reflexivity.
  - discriminate.
  - vm_compute; reflexivity.
Defined.

(** C2, as stated, fails on a mailbox of capacity 1 that is offered the
    same signal twice: the second enqueue is counted in [dropped_count]
    but not in [total_enqueued]. *)
Lemma mailbox_counters_counterexample :
  exists w1 w2 q,
    signal_queue_create 1 signal_world = Done 4144 w1
    /\ run_ops 4144 [OpEnqueue 4096; OpEnqueue 4096] w1 = Done tt w2
    /\ queues w2 !! 4144 = Some q
    /\ q_total_enqueued q - q_total_dequeued q - q_dropped_count q
       <> q_count q.
Proof.
  eexists _, _, _.
  split; [vm_compute; reflexivity|].
  split; [vm_compute; reflexivity|].
  split; [vm_compute; reflexivity|].
  vm_compute. discriminate.
Qed.

Ltac wf_by_computation :=
  constructor; simpl; first [lia | reflexivity | vm_compute; reflexivity].

Lemma signal_queue_enqueue_spec_witness :
  exists w' q' s',
    signal_queue_enqueue 4144 4096 mailbox_world = Done SIGNAL_OK w'
    /\ queues w' !! 4144 = Some q'
    /\ signals w' !! 4096 = Some s'
    /\ q_buffer q' !! 0%nat = Some 4096
    /\ sig_ref_count s' = 2
    /\ q_count q' = 1.
Proof.
  destruct (signal_queue_enqueue_spec 4144 4096
              (mkQueue 4200 [0] 1 0 0 0 0 0 0 0 0 1 0) mailbox_world)
    as [_ Hok].
  - discriminate.
  - discriminate.
  - vm_compute; reflexivity.
  - wf_by_computation.
  - destruct (Hok ltac:(reflexivity)
                (mkSignal 7 1 3 1 4128 4 8 0) ltac:(vm_compute; reflexivity))
      as (w' & q' & s' & E & Hq & Hs & Hb & Hr & _ & Hc & _).
    exists w', q', s'. repeat split; assumption.
Defined.

Lemma enqueue_dequeue_roundtrip_witness :
  exists w1 w2 q2,
    signal_queue_enqueue 4144 4096 mailbox_world = Done SIGNAL_OK w1
    /\ signal_queue_dequeue 4144 w1 = Done 4096 w2
    /\ queues w2 !! 4144 = Some q2
    /\ q_total_enqueued q2 = 1
    /\ q_total_dequeued q2 = 1
    /\ q_count q2 = 0.
Proof.
  apply (enqueue_dequeue_roundtrip 4144 4096
           (mkQueue 4200 [0] 1 0 0 0 0 0 0 0 0 1 0)
           (mkSignal 7 1 3 1 4128 4 8 0) mailbox_world).
  - discriminate.
  - discriminate.
  - vm_compute; reflexivity.
  - wf_by_computation.
  - vm_compute; reflexivity.
  - reflexivity.
Defined.

(** ** Reference counts *)

(** C10: [signal_ref] on a signal whose [ref_count] is 65535 leaves it at
    0, and the next [signal_free] then releases the header: the signal is
    gone from the store and its block heads the free list, while every
    mailbox that held the reference still holds it. *)
Theorem signal_ref_wraps (sig : Z) (s : Signal) (w : World) :
  sig <> NULL ->
  signals w !! sig = Some s ->
  sig_ref_count s = 65535 ->
  has_flag (sig_flags s) SIGNAL_FLAG_HEAP_ALLOCATED = true ->
  exists w1 w2 s1,
    signal_ref sig w = Done tt w1
    /\ signals w1 !! sig = Some s1
    /\ sig_ref_count s1 = 0
    /\ signal_free sig w1 = Done tt w2
    /\ signals w2 !! sig = None
    /\ head (hp_free_list (heap w2)) = Some (mkFreeBlock sig sizeof_Signal)
    /\ forall p q, p <> sig -> p <> sig_payload_ptr s ->
         queues w !! p = Some q -> queues w2 !! p = Some q.
Proof.
  intros Hsig Hl Hrc Hheap.
  set (s1 := set_sig_ref_count 0 s).
  set (w1 := set_signals (<[sig := s1]> (signals w)) w).
  assert (E1 : signal_ref sig w = Done tt w1).
  { unfold signal_ref. rewrite (proj2 (Z.eqb_neq sig NULL)) by assumption.
    erewrite bind_done by (apply load_done; eassumption).
    rewrite Hrc. reflexivity. }
  assert (Hl1 : signals w1 !! sig = Some s1) by apply lookup_insert_eq.
  exists w1.
  unfold signal_free. rewrite (proj2 (Z.eqb_neq sig NULL)) by assumption.
  erewrite bind_done by (apply load_done; eassumption).
  change (0 <? sig_ref_count s1) with false. cbv iota.
  change (sig_flags s1) with (sig_flags s). rewrite Hheap.
  change (sig_payload_ptr s1) with (sig_payload_ptr s).
  change (sig_payload_capacity s1) with (sig_payload_capacity s).
  unfold heap_free, clobber, store_signal.
  rewrite (proj2 (Z.eqb_neq sig NULL)) by assumption.
  munfold. simpl.
  destruct (has_flag (sig_flags s) SIGNAL_FLAG_OWNS_PAYLOAD
            && negb (sig_payload_ptr s =? NULL)) eqn:Hown; simpl.
  - apply andb_true_iff in Hown as [_ Hp]. apply negb_true_iff in Hp.
    rewrite Hp. simpl.
    destruct (sig_payload_capacity s =? 0); simpl;
      eexists _, s1; (split; [exact E1|]); (split; [exact Hl1|]);
      (split; [reflexivity|]); (split; [reflexivity|]); simpl;
      (split; [apply lookup_delete_eq|]); (split; [reflexivity|]);
      intros p q Hp1 Hp2 Hq;
      rewrite ?lookup_delete_ne by congruence; exact Hq.
  - eexists _, s1; (split; [exact E1|]); (split; [exact Hl1|]);
      (split; [reflexivity|]); (split; [reflexivity|]); simpl;
      (split; [apply lookup_delete_eq|]); (split; [reflexivity|]);
      intros p q Hp1 Hp2 Hq;
      rewrite ?lookup_delete_ne by congruence; exact Hq.
Qed.

(** ** Dispatch *)

Section DispatchProofs.
Context `{DispatchHeader} (call : Code).

Lemma dispatch_scan_none n es k : forall i,
  (i + n <= length es)%nat ->
  (forall j e, (i <= j < i + n)%nat -> es !! j = Some e ->
     entry_matches k e = false) ->
  dispatch_scan n es k i = Some None.
Proof.
  induction n as [|n IH]; intros i Hlen Hno; simpl; [reflexivity|].
  destruct (lookup_lt_is_Some_2 es i ltac:(lia)) as [e He].
  rewrite He, (Hno i e) by (auto; lia).
  apply IH; [lia|]. intros j e' Hj. apply Hno; lia.
Qed.

Lemma dispatch_scan_some n es k j e : forall i,
  (i <= j < i + n)%nat -> es !! j = Some e ->
  entry_matches k e = true ->
  (forall j' e', (i <= j' < j)%nat -> es !! j' = Some e' ->
     entry_matches k e' = false) ->
  dispatch_scan n es k i = Some (Some j).
Proof.
  induction n as [|n IH]; intros i Hj He Hm Hno; simpl; [lia|].
  destruct (Nat.eq_dec i j) as [->|Hne].
  - rewrite He, Hm. reflexivity.
  - destruct (lookup_lt_is_Some_2 es i) as [e' He'].
    { apply lookup_lt_Some in He. lia. }
    rewrite He', (Hno i e') by (auto; lia).
    apply IH; auto; [lia|]. intros j' e'' Hj'. apply Hno; lia.
Qed.

Lemma dispatch_scan_cases n es k : forall i,
  (i + n <= length es)%nat ->
  (dispatch_scan n es k i = Some None
   /\ forall j e, (i <= j < i + n)%nat -> es !! j = Some e ->
        entry_matches k e = false)
  \/ (exists j e, dispatch_scan n es k i = Some (Some j)
        /\ (i <= j < i + n)%nat /\ es !! j = Some e
        /\ entry_matches k e = true
        /\ forall j' e', (i <= j' < j)%nat -> es !! j' = Some e' ->
             entry_matches k e' = false).
Proof.
  induction n as [|n IH]; intros i Hlen; simpl.
  - left; split; [reflexivity|]. intros; lia.
  - destruct (lookup_lt_is_Some_2 es i ltac:(lia)) as [e He]. rewrite He.
    destruct (entry_matches k e) eqn:Hm.
    + right. exists i, e. repeat split; auto; try lia; intros; lia.
    + destruct (IH (S i) ltac:(lia)) as [[E Hno]|(j & e' & E & Hj & He' & Hm' & Hno)].
      * left; split; [exact E|]. intros j e' Hj He'.
        destruct (Nat.eq_dec j i) as [->|]; [congruence|]. apply (Hno j); auto; lia.
      * right. exists j, e'. repeat split; auto; try lia.
        intros j' e'' Hj' He''.
        destruct (Nat.eq_dec j' i) as [->|]; [congruence|]. apply (Hno j'); auto; lia.
Qed.

Lemma table_cases t k :
  table_wf t ->
  no_match t k \/ exists i e, first_match t k i e.
Proof.
  intros Hwf.
  destruct (dispatch_scan_cases (Z.to_nat (dt_entry_count t)) (dt_entries t) k 0 Hwf)
    as [[_ Hno]|(j & e & _ & Hj & He & Hm & Hno)].
  - left. intros i e Hi. apply Hno; lia.
  - right. exists j, e. repeat split; auto; try lia.
    intros j' e' Hj'. apply Hno; lia.
Qed.

Lemma no_match_first_match t k i e :
  no_match t k -> first_match t k i e -> False.
Proof.
  intros Hno (Hi & He & Hm & _). rewrite (Hno i e Hi He) in Hm. discriminate.
Qed.

(** The run up to the end of the lookup. *)
Lemma dispatch_lookup_entry_miss table t k w :
  table <> NULL -> tables w !! table = Some t -> table_wf t ->
  no_match t k ->
  dispatch_lookup_entry table k w = Done None w.
Proof.
  intros Ht Hl Hwf Hno. unfold dispatch_lookup_entry.
  rewrite (proj2 (Z.eqb_neq table NULL)) by assumption.
  erewrite bind_done by (apply load_done; eassumption).
  rewrite dispatch_scan_none; [reflexivity|exact Hwf|].
  intros j e Hj. apply Hno; lia.
Qed.

Lemma dispatch_lookup_entry_hit table t k i e w :
  table <> NULL -> tables w !! table = Some t ->
  first_match t k i e ->
  dispatch_lookup_entry table k w = Done (Some i) w.
Proof.
  intros Ht Hl (Hi & He & Hm & Hno). unfold dispatch_lookup_entry.
  rewrite (proj2 (Z.eqb_neq table NULL)) by assumption.
  erewrite bind_done by (apply load_done; eassumption).
  rewrite (dispatch_scan_some _ _ _ i e); auto; [lia|].
  intros j' e' Hj'. apply Hno; lia.
Qed.

Lemma dispatch_prefix_miss table agent_state signal t s w :
  table <> NULL -> signal <> NULL ->
  tables w !! table = Some t -> signals w !! signal = Some s ->
  table_wf t -> no_match t (sig_frequency_id s) ->
  dispatch_invoke_with_state call table agent_state signal w
  = (if negb (dt_default_handler t =? NULL) then
       result ← call (dt_default_handler t) agent_state signal;
       if negb (result =? 0) then mret DISPATCH_ERR_HANDLER_FAILED
       else mret DISPATCH_OK
     else mret DISPATCH_ERR_NO_HANDLER) (world_missed table t w).
Proof.
  intros Ht Hs Hl Hsl Hwf Hno. unfold dispatch_invoke_with_state.
  rewrite (proj2 (Z.eqb_neq table NULL)), (proj2 (Z.eqb_neq signal NULL))
    by assumption. cbn [orb].
  erewrite bind_done by (apply load_done; eassumption).
  erewrite bind_done by reflexivity.
  erewrite bind_done by (apply load_done; [assumption | exact Hsl]).
  erewrite bind_done.
  2:{ eapply dispatch_lookup_entry_miss; [assumption | apply lookup_insert_eq | |];
      [exact Hwf | exact Hno]. }
  cbv beta iota.
  erewrite bind_done by (apply load_done; [assumption | apply lookup_insert_eq]).
  erewrite bind_done by reflexivity.
  unfold world_missed, table_missed, set_tables; simpl.
  rewrite insert_insert_eq. reflexivity.
Qed.

Lemma dispatch_prefix_hit table agent_state signal t s i e w :
  table <> NULL -> signal <> NULL ->
  tables w !! table = Some t -> signals w !! signal = Some s ->
  first_match t (sig_frequency_id s) i e ->
  dispatch_invoke_with_state call table agent_state signal w
  = (guard_passed ←
       (if has_guard e then
          guard_result ← call (de_guard e) agent_state signal;
          mret (negb (guard_result =? 0))
        else mret true);
     if guard_passed : bool then
       e ← load_dispatch_entry table i;
       handler_result ← call (de_handler e) agent_state signal;
       if negb (handler_result =? 0) then mret DISPATCH_ERR_HANDLER_FAILED
       else mret DISPATCH_OK
     else mret DISPATCH_ERR_GUARD_FAILED) (world_hit table t w).
Proof.
  intros Ht Hs Hl Hsl Hfm. unfold dispatch_invoke_with_state.
  rewrite (proj2 (Z.eqb_neq table NULL)), (proj2 (Z.eqb_neq signal NULL))
    by assumption. cbn [orb].
  erewrite bind_done by (apply load_done; eassumption).
  erewrite bind_done by reflexivity.
  erewrite bind_done by (apply load_done; [assumption | exact Hsl]).
  erewrite bind_done.
  2:{ eapply dispatch_lookup_entry_hit; [assumption | apply lookup_insert_eq |].
      exact Hfm. }
  cbv beta iota.
  erewrite bind_done by (apply load_done; [assumption | apply lookup_insert_eq]).
  erewrite bind_done by reflexivity.
  destruct Hfm as (_ & He & _).
  erewrite bind_done.
  2:{ unfold load_dispatch_entry.
      erewrite bind_done by (apply load_done; [assumption | apply lookup_insert_eq]).
      simpl. rewrite He. reflexivity. }
  unfold world_hit, table_hit, set_tables, has_guard; simpl.
  rewrite insert_insert_eq. reflexivity.
Qed.

Lemma codes_distinct_inv :
  codes_distinct ->
  DISPATCH_OK <> DISPATCH_ERR_NO_HANDLER
  /\ DISPATCH_ERR_GUARD_FAILED <> DISPATCH_ERR_NO_HANDLER
  /\ DISPATCH_ERR_HANDLER_FAILED <> DISPATCH_ERR_NO_HANDLER
  /\ DISPATCH_OK <> DISPATCH_ERR_HANDLER_FAILED.
Proof.
  unfold codes_distinct. rewrite !NoDup_cons, !not_elem_of_cons.
  intuition congruence.
Qed.

Lemma handler_status r :
  (if negb (r =? 0) then DISPATCH_ERR_HANDLER_FAILED else DISPATCH_OK)
  = status_of_handler r.
Proof. unfold status_of_handler. destruct (r =? 0); reflexivity. Qed.

Lemma run_handler table agent_state signal i t' e' r w_g w' :
  table <> NULL ->
  tables w_g !! table = Some t' -> dt_entries t' !! i = Some e' ->
  call (de_handler e') agent_state signal w_g = Done r w' ->
  (e ← load_dispatch_entry table i;
   handler_result ← call (de_handler e) agent_state signal;
   if negb (handler_result =? 0) then mret DISPATCH_ERR_HANDLER_FAILED
   else mret DISPATCH_OK) w_g
  = Done (status_of_handler r) w'.
Proof.
  intros Ht Hl He Hcall.
  erewrite bind_done.
  2:{ unfold load_dispatch_entry.
      erewrite bind_done by (apply load_done; eassumption).
      cbv beta. rewrite He. reflexivity. }
  cbv beta. erewrite bind_done by exact Hcall.
  rewrite <- handler_status. destruct (negb (r =? 0)); reflexivity.
Qed.

(** What a dispatch that got past the null checks can return. *)
Lemma dispatch_hit_status table agent_state signal t s i e w c w' :
  table <> NULL -> signal <> NULL ->
  tables w !! table = Some t -> signals w !! signal = Some s ->
  first_match t (sig_frequency_id s) i e ->
  dispatch_invoke_with_state call table agent_state signal w = Done c w' ->
  c = DISPATCH_ERR_GUARD_FAILED \/ c = DISPATCH_OK
  \/ c = DISPATCH_ERR_HANDLER_FAILED.
Proof.
  intros Ht Hs Hl Hsl Hfm.
  rewrite (dispatch_prefix_hit _ _ _ _ _ _ _ _ Ht Hs Hl Hsl Hfm).
  unfold load_dispatch_entry, load_table, load.
  unfold mbind, M_bind, bind, mret, M_ret, ret, fault.
  intros Hrun.
  repeat (case_match; try discriminate); simplify_eq; auto.
Qed.

Lemma dispatch_miss_status table agent_state signal t s w c w' :
  table <> NULL -> signal <> NULL ->
  tables w !! table = Some t -> signals w !! signal = Some s ->
  table_wf t -> no_match t (sig_frequency_id s) ->
  dt_default_handler t <> NULL ->
  dispatch_invoke_with_state call table agent_state signal w = Done c w' ->
  c = DISPATCH_OK \/ c = DISPATCH_ERR_HANDLER_FAILED.
Proof.
  intros Ht Hs Hl Hsl Hwf Hno Hd.
  rewrite (dispatch_prefix_miss _ _ _ _ _ _ Ht Hs Hl Hsl Hwf Hno).
  rewrite (proj2 (Z.eqb_neq _ _) Hd).
  unfold mbind, M_bind, bind, mret, M_ret, ret. simpl.
  intros Hrun.
  repeat (case_match; try discriminate); simplify_eq; auto.
Qed.

(** C4: the outcome of [dispatch_invoke_with_state] on a live table and
    a live signal.  With no active entry for the kind and no default
    handler it returns [DISPATCH_ERR_NO_HANDLER], and only then; with no
    entry but a default handler it runs the default and returns
    [DISPATCH_ERR_HANDLER_FAILED] when the result is non-zero, else
    [DISPATCH_OK]; when the guard of the matching entry returns zero it
    returns [DISPATCH_ERR_GUARD_FAILED] in the world the guard left, the
    handler not having run; otherwise it runs the handler and returns
    [DISPATCH_ERR_HANDLER_FAILED] when the result is non-zero, else
    [DISPATCH_OK]. *)
Theorem dispatch_invoke_with_state_spec (table agent_state signal : Z)
    (t : DispatchTable) (s : Signal) (w : World) :
  table <> NULL -> signal <> NULL ->
  tables w !! table = Some t -> signals w !! signal = Some s ->
  table_wf t ->
  let kind := sig_frequency_id s in
  let run := dispatch_invoke_with_state call table agent_state signal w in
  (no_match t kind -> dt_default_handler t = NULL ->
     run = Done DISPATCH_ERR_NO_HANDLER (world_missed table t w))
  /\ (no_match t kind -> dt_default_handler t <> NULL ->
      forall r w',
        call (dt_default_handler t) agent_state signal
             (world_missed table t w) = Done r w' ->
        run = Done (status_of_handler r) w')
  /\ (forall i e, first_match t kind i e -> has_guard e = true ->
      forall w',
        call (de_guard e) agent_state signal (world_hit table t w)
        = Done 0 w' ->
        run = Done DISPATCH_ERR_GUARD_FAILED w')
  /\ (forall i e w_g, first_match t kind i e ->
      guard_passes call table agent_state signal t e w w_g ->
      forall t' e' r w',
        tables w_g !! table = Some t' -> dt_entries t' !! i = Some e' ->
        call (de_handler e') agent_state signal w_g = Done r w' ->
        run = Done (status_of_handler r) w')
  /\ (codes_distinct ->
      (forall c w', run = Done c w' ->
         (c = DISPATCH_ERR_NO_HANDLER
          <-> no_match t kind /\ dt_default_handler t = NULL))
      /\ (forall r, status_of_handler r = DISPATCH_ERR_HANDLER_FAILED
                    <-> r <> 0)).
Proof.
  intros Ht Hs Hl Hsl Hwf kind run.
  assert (Hnone : no_match t kind -> dt_default_handler t = NULL ->
            run = Done DISPATCH_ERR_NO_HANDLER (world_missed table t w)).
  { intros Hno Hd. unfold run.
    rewrite (dispatch_prefix_miss _ _ _ _ _ _ Ht Hs Hl Hsl Hwf Hno).
    rewrite Hd. reflexivity. }
  split; [exact Hnone|]. split.
  { intros Hno Hd r w' Hcall. unfold run.
    rewrite (dispatch_prefix_miss _ _ _ _ _ _ Ht Hs Hl Hsl Hwf Hno).
    rewrite (proj2 (Z.eqb_neq _ _) Hd). cbn [negb].
    erewrite bind_done by exact Hcall.
    rewrite <- handler_status. destruct (negb (r =? 0)); reflexivity. }
  split.
  { intros i e Hfm Hg w' Hcall. unfold run.
    rewrite (dispatch_prefix_hit _ _ _ _ _ _ _ _ Ht Hs Hl Hsl Hfm).
    rewrite Hg. erewrite bind_done.
    2:{ erewrite bind_done by exact Hcall. reflexivity. }
    reflexivity. }
  split.
  { intros i e w_g Hfm Hpass t' e' r w' Hl' He' Hcall. unfold run.
    rewrite (dispatch_prefix_hit _ _ _ _ _ _ _ _ Ht Hs Hl Hsl Hfm).
    destruct Hpass as [[Hg ->]|(Hg & g & Hg0 & Hguard)]; rewrite Hg.
    - erewrite bind_done by reflexivity. cbv beta iota.
      eapply run_handler; eauto.
    - erewrite bind_done.
      2:{ erewrite bind_done by exact Hguard. reflexivity. }
      rewrite (proj2 (Z.eqb_neq _ _) Hg0). cbn [negb].
      eapply run_handler; eauto. }
  intros Hdist.
  destruct (codes_distinct_inv Hdist) as (Hd1 & Hd2 & Hd3 & Hd4).
  split.
  - intros c w' Hrun. split.
    + intros ->.
      destruct (table_cases t kind Hwf) as [Hno|(i & e & Hfm)].
      * split; [exact Hno|].
        destruct (Z.eq_dec (dt_default_handler t) NULL) as [|Hd]; [assumption|].
        destruct (dispatch_miss_status _ _ _ _ _ _ _ _ Ht Hs Hl Hsl Hwf Hno Hd Hrun);
          congruence.
      * destruct (dispatch_hit_status _ _ _ _ _ _ _ _ _ _ Ht Hs Hl Hsl Hfm Hrun)
          as [|[|]]; congruence.
    + intros [Hno Hd]. pose proof (Hnone Hno Hd) as E.
      subst run. rewrite E in Hrun. congruence.
  - intros r. unfold status_of_handler.
    destruct (Z.eqb_spec r 0); split; congruence.
Qed.

(** C9: [dispatch_invoke] reads [table->agent_state] before any check,
    so on a null table it faults, whereas [dispatch_invoke_with_state]
    checks first and returns [DISPATCH_ERR_NULL_POINTER]. *)
Theorem dispatch_invoke_null_table (agent_state signal : Z) (w : World) :
  dispatch_invoke call NULL signal w = Fault
  /\ dispatch_invoke_with_state call NULL agent_state signal w
     = Done DISPATCH_ERR_NULL_POINTER w.
Proof. split; reflexivity. Qed.
End DispatchProofs.

(** ** signal_create *)

Lemma clear_low3 x : 0 <= x < 2 ^ 32 -> clear_bits 32 x 7 = 8 * (x / 8).
Proof.
  intros Hx. unfold clear_bits.
  change (wrap 32 (Z.lnot 7)) with (Z.shiftl (Z.ones 29) 3).
  assert (E : Z.land x (Z.shiftl (Z.ones 29) 3)
              = Z.shiftl (Z.land (Z.shiftr x 3) (Z.ones 29)) 3).
  { apply Z.bits_inj'; intros n Hn.
    rewrite Z.land_spec, (Z.shiftl_spec (Z.ones 29) 3 n Hn),
      (Z.shiftl_spec (Z.land (Z.shiftr x 3) (Z.ones 29)) 3 n Hn).
    destruct (Z_lt_le_dec n 3).
    - rewrite (Z.testbit_neg_r (Z.ones 29)),
        (Z.testbit_neg_r (Z.land (Z.shiftr x 3) (Z.ones 29))) by lia.
      apply andb_false_r.
    - rewrite Z.land_spec, Z.shiftr_spec by lia.
      replace (n - 3 + 3) with n by lia. reflexivity. }
  rewrite E, Z.land_ones, Z.shiftr_div_pow2, Z.shiftl_mul_pow2 by lia.
  change (2 ^ 3) with 8. change (2 ^ 29) with 536870912.
  rewrite Z.mod_small; [lia|].
  split; [apply Z.div_pos; lia|]. apply Z.div_lt_upper_bound; lia.
Qed.

Lemma payload_capacity_for_bounds n :
  0 < n <= MAX_PAYLOAD_SIZE ->
  n <= payload_capacity_for n < 2 ^ 32.
Proof.
  unfold MAX_PAYLOAD_SIZE. intros Hn. unfold payload_capacity_for.
  rewrite u32_small by lia. rewrite clear_low3 by lia.
  pose proof (Z.div_mod (n + 7) 8 ltac:(lia)).
  pose proof (Z.mod_pos_bound (n + 7) 8 ltac:(lia)). lia.
Qed.

Lemma heap_free_total ptr bytes w :
  exists w', heap_free ptr bytes w = Done 0 w'.
Proof.
  unfold heap_free, clobber. munfold. destruct (_ || _); simpl; eauto.
Qed.

Lemma signal_free_total sig s w :
  sig <> NULL -> signals w !! sig = Some s ->
  exists w', signal_free sig w = Done tt w'.
Proof.
  intros Hsig Hl. unfold signal_free.
  rewrite (proj2 (Z.eqb_neq sig NULL)) by assumption.
  erewrite bind_done by (apply load_done; eassumption).
  erewrite bind_done by reflexivity.
  destruct (0 <? sig_ref_count _); [eexists; reflexivity|].
  unfold heap_free, clobber, store_signal. munfold. simpl.
  repeat match goal with
         | |- context [if ?b then _ else _] => destruct b; simpl
         end; eauto.
Qed.

Lemma signal_alloc_cases w :
  exists p h,
    heap_allocate sizeof_Signal w = Done p (set_heap h w)
    /\ signal_alloc w
       = if p =? NULL then Done NULL (set_heap h w)
         else Done p
                (set_signals (<[p := fresh_header (tsc w)]> (signals w))
                   (set_tsc (u64 (tsc w + 1)) (set_heap h w))).
Proof.
  destruct (heap_allocate_total sizeof_Signal w) as (p & w1 & E).
  destruct (heap_allocate_inv _ _ _ _ E) as [[h ->] _].
  exists p, h. split; [exact E|].
  unfold signal_alloc. rewrite (bind_done _ _ _ _ _ E).
  destruct (p =? NULL); reflexivity.
Qed.

Lemma heap_allocate_bump bytes w :
  hp_initialized (heap w) = true -> hp_free_list (heap w) = [] ->
  bytes <> 0 ->
  hp_current (heap w) + block_size bytes <= hp_end (heap w) ->
  exists h,
    heap_allocate bytes w = Done (hp_current (heap w)) (set_heap h w)
    /\ hp_initialized h = true /\ hp_free_list h = []
    /\ hp_current h = hp_current (heap w) + block_size bytes
    /\ hp_end h = hp_end (heap w).
Proof.
  intros Hinit Hfree Hb Hroom.
  unfold heap_allocate, heap_allocate_initialized. munfold. simpl.
  rewrite Hinit, (proj2 (Z.eqb_neq bytes 0)) by exact Hb.
  rewrite Hfree. simpl.
  rewrite (proj2 (Z.ltb_ge _ _)) by lia.
  eexists; split; [reflexivity|]. simpl. rewrite Hinit. auto.
Qed.

Lemma block_size_ge bytes : sizeof_FreeBlock <= block_size bytes.
Proof. unfold block_size. destruct (Z.ltb_spec (clear_bits 64 (u64 (bytes + 7)) 7) sizeof_FreeBlock); lia. Qed.

Lemma block_size_Signal : block_size sizeof_Signal = sizeof_Signal.
Proof. reflexivity. Qed.

(** What [heap_allocate] returns, and the heap it leaves, depend on the
    heap and on the answer of [mmap] only. *)
Lemma heap_allocate_congr bytes w w2 :
  heap w2 = heap w -> os_mmap w2 = os_mmap w ->
  exists p h,
    heap_allocate bytes w = Done p (set_heap h w)
    /\ heap_allocate bytes w2 = Done p (set_heap h w2).
Proof.
  destruct w, w2. simpl. intros -> ->.
  unfold heap_allocate, heap_init, sys_mmap, heap_allocate_initialized.
  munfold. simpl.
  repeat match goal with
         | |- context [if ?b then _ else _] => destruct b; simpl
         | |- context [match take_first_fit ?b ?l with _ => _ end] =>
             destruct (take_first_fit b l) as [[? ?]|]; simpl
         | |- context [match ?o with Some _ => _ | None => _ end] =>
             destruct o; simpl
         end; eexists _, _; split; reflexivity.
Qed.

(** Every path through [signal_create] for a payload below the limit.
    [hdr] is what the heap answers to the request for the header, [buf]
    what it then answers to the request for the payload block. *)
Lemma signal_create_run f a payload n w :
  n <= MAX_PAYLOAD_SIZE ->
  (forall bytes, payload = Some bytes -> n <= Z.of_nat (length bytes)) ->
  exists hdr h1,
    heap_allocate sizeof_Signal w = Done hdr (set_heap h1 w)
    /\ (hdr = NULL ->
        signal_create f a payload n w = Done NULL (set_heap h1 w))
    /\ (hdr <> NULL ->
        (payload = None \/ n <= 0 ->
         signal_create f a payload n w
         = Done hdr
             (set_signals
                (<[hdr := mkSignal (u16 f) (u16 a) SIGNAL_FLAG_HEAP_ALLOCATED
                                   1 NULL 0 0 (tsc w)]> (signals w))
                (set_tsc (u64 (tsc w + 1)) (set_heap h1 w))))
        /\ (forall bytes, payload = Some bytes -> 0 < n ->
            exists buf h2,
              heap_allocate (payload_capacity_for n) (set_heap h1 w)
              = Done buf (set_heap h2 w)
              /\ (buf = NULL ->
                  exists w', signal_create f a payload n w = Done NULL w')
              /\ (buf <> NULL ->
                  signal_create f a payload n w
                  = Done hdr
                      (set_payloads
                         (<[buf := take (Z.to_nat n) bytes
                                   ++ replicate
                                        (Z.to_nat (payload_capacity_for n - n))
                                        0]> (payloads w))
                         (set_signals
                            (<[hdr := mkSignal (u16 f) (u16 a)
                                        (Z.lor SIGNAL_FLAG_HEAP_ALLOCATED
                                               SIGNAL_FLAG_OWNS_PAYLOAD)
                                        1 buf n (payload_capacity_for n)
                                        (tsc w)]> (signals w))
                            (set_tsc (u64 (tsc w + 1)) (set_heap h2 w))))))).
Proof.
  intros Hmax Hlen. unfold signal_create.
  rewrite (proj2 (Z.ltb_ge _ _)) by lia.
  fold (payload_capacity_for n).
  destruct (signal_alloc_cases w) as (hdr & h1 & E1 & Ealloc).
  exists hdr, h1. split; [exact E1|].
  destruct (Z.eq_dec hdr NULL) as [Hhdr|Hhdr].
  { rewrite (proj2 (Z.eqb_eq _ _) Hhdr) in Ealloc.
    rewrite (bind_done _ _ _ _ _ Ealloc). change (NULL =? NULL) with true.
    split; [intros _; reflexivity | intros []; exact Hhdr]. }
  rewrite (proj2 (Z.eqb_neq _ _) Hhdr) in Ealloc.
  rewrite (bind_done _ _ _ _ _ Ealloc), (proj2 (Z.eqb_neq _ _) Hhdr).
  split; [intros Habs; contradiction|]. intros _.
  erewrite bind_done
    by (apply load_done; [assumption | simpl; apply lookup_insert_eq]).
  erewrite bind_done by reflexivity.
  unfold store_signal, modify, fresh_header. simpl.
  rewrite insert_insert_eq.
  split.
  { intros [->|Hzero]; [reflexivity|].
    destruct payload; [|reflexivity].
    rewrite (proj2 (Z.ltb_ge _ _)) by exact Hzero. reflexivity. }
  intros bytes -> Hpos. rewrite (proj2 (Z.ltb_lt _ _)) by exact Hpos.
  match goal with
  | |- context [(heap_allocate ?b ≫= _) ?w2] =>
      destruct (heap_allocate_congr b (set_heap h1 w) w2 eq_refl eq_refl)
        as (buf & h2 & E2 & E2')
  end.
  exists buf, h2. split; [exact E2|].
  rewrite (bind_done _ _ _ _ _ E2').
  erewrite bind_done by reflexivity. simpl. rewrite insert_insert_eq.
  destruct (Z.eq_dec buf NULL) as [Hbuf|Hbuf].
  { rewrite (proj2 (Z.eqb_eq _ _) Hbuf).
    split; [|intros []; exact Hbuf]. intros _.
    match goal with
    | |- context [(signal_free hdr ≫= _) ?w4] =>
        destruct (signal_free_total hdr
                    (set_sig_payload_ptr buf
                       (mkSignal (u16 f) (u16 a)
                          SIGNAL_FLAG_HEAP_ALLOCATED 1 NULL 0 0 (tsc w))) w4)
          as (w5 & E5); [assumption | simpl; apply lookup_insert_eq |]
    end.
    rewrite (bind_done _ _ _ _ _ E5). eexists. reflexivity. }
  rewrite (proj2 (Z.eqb_neq _ _) Hbuf).
  split; [intros Habs; contradiction|]. intros _.
  unfold memcpy_payload. rewrite (proj2 (Z.ltb_ge _ _)) by (apply Hlen; reflexivity).
  erewrite bind_done by reflexivity.
  erewrite bind_done by reflexivity. simpl. rewrite insert_insert_eq.
  reflexivity.
Qed.

(** C6, as the code has it.  A [payload_size] above [MAX_PAYLOAD_SIZE]
    makes [signal_create] return [NULL] before anything is allocated.  For
    a non-null payload pointer and [0 < payload_size <= MAX_PAYLOAD_SIZE]
    it returns either [NULL] or a signal with [ref_count = 1], the
    owns-payload flag set and a private buffer whose first [payload_size]
    bytes are the caller's; it returns a signal exactly when the heap
    serves the request for the header and then the request for the payload
    block, which it does when the bump region of a heap without free
    blocks has room for both.  For a null payload pointer, or a
    [payload_size] of 0, it returns a signal exactly when the heap serves
    the request for the header, and that signal has [ref_count = 1], no
    buffer, [payload_size] 0 and the owns-payload flag clear. *)
Theorem signal_create_spec (frequency_id source_agent_id : Z)
    (bytes : list Z) (payload_size : Z) (w : World) :
  (MAX_PAYLOAD_SIZE < payload_size ->
     forall payload,
       signal_create frequency_id source_agent_id payload payload_size w
       = Done NULL w)
  /\ (0 < payload_size <= MAX_PAYLOAD_SIZE ->
      payload_size <= Z.of_nat (length bytes) ->
      exists sig w',
        signal_create frequency_id source_agent_id (Some bytes)
                      payload_size w = Done sig w'
        /\ (sig <> NULL ->
            exists s buffer,
              signals w' !! sig = Some s
              /\ sig_ref_count s = 1
              /\ has_flag (sig_flags s) SIGNAL_FLAG_OWNS_PAYLOAD = true
              /\ sig_frequency_id s = u16 frequency_id
              /\ sig_source_agent_id s = u16 source_agent_id
              /\ sig_payload_size s = payload_size
              /\ sig_payload_ptr s <> NULL
              /\ payloads w' !! sig_payload_ptr s = Some buffer
              /\ take (Z.to_nat payload_size) buffer
                 = take (Z.to_nat payload_size) bytes)
        /\ (sig <> NULL <->
            exists hdr w1 buf w2,
              heap_allocate sizeof_Signal w = Done hdr w1 /\ hdr <> NULL
              /\ heap_allocate (payload_capacity_for payload_size) w1
                 = Done buf w2
              /\ buf <> NULL)
        /\ (bump_room w payload_size -> sig <> NULL))
  /\ (payload_size <= MAX_PAYLOAD_SIZE ->
      forall payload, payload = None \/ payload_size <= 0 ->
      exists sig w',
        signal_create frequency_id source_agent_id payload payload_size w
        = Done sig w'
        /\ (sig <> NULL ->
            exists s,
              signals w' !! sig = Some s
              /\ sig_ref_count s = 1
              /\ has_flag (sig_flags s) SIGNAL_FLAG_OWNS_PAYLOAD = false
              /\ sig_frequency_id s = u16 frequency_id
              /\ sig_source_agent_id s = u16 source_agent_id
              /\ sig_payload_ptr s = NULL
              /\ sig_payload_size s = 0
              /\ payloads w' = payloads w)
        /\ (sig <> NULL <->
            exists hdr w1,
              heap_allocate sizeof_Signal w = Done hdr w1 /\ hdr <> NULL)).
Proof.
  split; [|split].
  { intros Hbig payload. unfold signal_create.
    rewrite (proj2 (Z.ltb_lt _ _)) by exact Hbig. reflexivity. }
  - intros Hsize Hlen.
    pose proof (payload_capacity_for_bounds _ Hsize) as Hcap.
    pose proof (block_size_ge (payload_capacity_for payload_size)) as Hblock.
    destruct (signal_create_run frequency_id source_agent_id (Some bytes)
                payload_size w ltac:(lia))
      as (hdr & h1 & E1 & Hnone & Hlive).
    { intros b [= <-]. exact Hlen. }
    assert (Hbump1 : bump_room w payload_size ->
              hdr <> NULL
              /\ hp_initialized h1 = true /\ hp_free_list h1 = []
              /\ 0 < hp_current h1
              /\ hp_current h1
                 + block_size (payload_capacity_for payload_size)
                 <= hp_end h1).
    { intros (Hinit & Hfree & Hcur & Hroom).
      destruct (heap_allocate_bump sizeof_Signal w Hinit Hfree)
        as (h & E & Hi & Hf & Hc & He);
        [discriminate
        | rewrite block_size_Signal;
          unfold sizeof_Signal, sizeof_FreeBlock in *; lia |].
      rewrite E in E1. injection E1 as <- <-.
      rewrite Hc, He, block_size_Signal.
      unfold sizeof_Signal, sizeof_FreeBlock, NULL in *.
      repeat split; auto; lia. }
    destruct (Z.eq_dec hdr NULL) as [Hhdr|Hhdr].
    { exists NULL, (set_heap h1 w). split; [exact (Hnone Hhdr)|].
      split; [intros []; reflexivity|]. split.
      - split; [intros []; reflexivity|].
        intros (hdr' & w1 & _ & _ & E & Hne & _).
        rewrite E1 in E. injection E as <- _. contradiction.
      - intros Hroom. destruct (Hbump1 Hroom) as [Hne _]. contradiction. }
    destruct (proj2 (Hlive Hhdr) bytes eq_refl ltac:(lia))
      as (buf & h2 & E2 & Hfail & Hok).
    assert (Hbump2 : bump_room w payload_size -> buf <> NULL).
    { intros Hroom.
      destruct (Hbump1 Hroom) as (_ & Hinit & Hfree & Hpos & Hr).
      destruct (heap_allocate_bump (payload_capacity_for payload_size)
                  (set_heap h1 w))
        as (h & E & _); [exact Hinit | exact Hfree | lia | exact Hr |].
      rewrite E in E2. injection E2 as <- _. simpl. unfold NULL. lia. }
    destruct (Z.eq_dec buf NULL) as [Hbuf|Hbuf].
    { destruct (Hfail Hbuf) as (w' & E). exists NULL, w'.
      split; [exact E|]. split; [intros []; reflexivity|]. split.
      - split; [intros []; reflexivity|].
        intros (hdr' & w1 & buf' & w2 & E' & _ & E2' & Hne).
        rewrite E1 in E'. injection E' as <- <-.
        rewrite E2 in E2'. injection E2' as <- _. contradiction.
      - intros Hroom. exfalso. exact (Hbump2 Hroom Hbuf). }
    eexists hdr, _. split; [exact (Hok Hbuf)|].
    split; [|split; [|intros _; exact Hhdr]].
    + intros _. eexists _, _.
      split; [simpl; apply lookup_insert_eq|]. simpl.
      split; [reflexivity|]. split; [reflexivity|]. split; [reflexivity|].
      split; [reflexivity|]. split; [reflexivity|]. split; [exact Hbuf|].
      split; [apply lookup_insert_eq|].
      rewrite take_app_le; [|rewrite length_take; lia].
      rewrite take_take. f_equal. lia.
    + split; [|intros _; exact Hhdr]. intros _.
      exists hdr, (set_heap h1 w), buf, (set_heap h2 w). auto.
  - intros Hmax payload Hplain.
    destruct (signal_create_run frequency_id source_agent_id payload
                payload_size w Hmax)
      as (hdr & h1 & E1 & Hnone & Hlive).
    { intros b Hb. destruct Hplain as [->|Hzero]; [discriminate|]. lia. }
    destruct (Z.eq_dec hdr NULL) as [Hhdr|Hhdr].
    { exists NULL, (set_heap h1 w). split; [exact (Hnone Hhdr)|].
      split; [intros []; reflexivity|].
      split; [intros []; reflexivity|].
      intros (hdr' & w1 & E & Hne).
      rewrite E1 in E. injection E as <- _. contradiction. }
    eexists hdr, _. split; [exact (proj1 (Hlive Hhdr) Hplain)|].
    split.
    + intros _. eexists. split; [simpl; apply lookup_insert_eq|].
      repeat split; reflexivity.
    + split; [|intros _; exact Hhdr]. intros _.
      exists hdr, (set_heap h1 w). auto.
Qed.

(** ** The scheduler on a quiescent network *)

Lemma with_sched_twice sched s1 s2 w :
  with_sched sched s2 (with_sched sched s1 w) = with_sched sched s2 w.
Proof.
  unfold with_sched, set_scheds; simpl. rewrite insert_insert_eq. reflexivity.
Qed.

Lemma with_sched_same sched s w :
  scheds w !! sched = Some s -> with_sched sched s w = w.
Proof.
  intros Hl. unfold with_sched, set_scheds. rewrite insert_id by exact Hl.
  destruct w; reflexivity.
Qed.

Lemma set_sch_phase_same s : set_sch_phase (sch_current_phase s) s = s.
Proof. destruct s; reflexivity. Qed.

Lemma set_phase_run sched ph s w :
  sched <> NULL -> scheds w !! sched = Some s ->
  set_phase sched ph w = Done tt (with_sched sched (set_sch_phase ph s) w).
Proof.
  intros Hs Hl. unfold set_phase.
  erewrite bind_done by (apply load_done; eassumption). reflexivity.
Qed.

Section Quiescent.
Variables (sched : Z) (r : AgentRegistry).
Hypothesis sched_not_null : sched <> NULL.

Local Abbreviation scheduled := (scheduled sched r).

Lemma scheduled_with_sched s s' w :
  scheduled s w -> sch_registry s' = sch_registry s ->
  scheduled s' (with_sched sched s' w).
Proof.
  intros (Hl & Hr & Hreg & Hq) E. unfold scheduled. rewrite E.
  split; [apply lookup_insert_eq|]. auto.
Qed.

Lemma cycle_step_quiescent s w i p :
  scheduled s w -> Z.of_nat i < reg_count r ->
  exists ph,
    cycle_step sched i p w
    = Done p (with_sched sched (set_sch_phase ph s) w).
Proof.
  intros (Hl & Hr & Hreg & Hq) Hi. unfold cycle_step.
  erewrite bind_done by (apply load_done; eassumption).
  erewrite bind_done by (apply load_done; eassumption).
  destruct (Hq i Hi) as (slot & Hslot & Hnothing). rewrite Hslot.
  assert (Hstay : Done p w
                  = Done p (with_sched sched
                              (set_sch_phase (sch_current_phase s) s) w)).
  { rewrite set_sch_phase_same, with_sched_same by exact Hl. reflexivity. }
  destruct slot as [a|]; [|eexists; exact Hstay].
  destruct (Z.eqb_spec (ag_input_queue a) NULL) as [|Hqueue];
    [eexists; exact Hstay|].
  destruct Hnothing as [?|(q & Hlq & Hempty)]; [contradiction|].
  exists PHASE_SENSE.
  erewrite bind_done by (apply set_phase_run; eassumption).
  erewrite bind_done
    by (eapply signal_queue_dequeue_empty; [exact Hqueue | exact Hlq | exact Hempty]).
  reflexivity.
Qed.

Lemma cycle_loop_quiescent n p : forall i s w,
  scheduled s w ->
  exists ph,
    cycle_loop n sched i p w
    = Done p (with_sched sched (set_sch_phase ph s) w).
Proof.
  induction n as [|n IH]; intros i s w Hsched.
  - exists (sch_current_phase s). simpl.
    destruct Hsched as (Hl & _).
    rewrite set_sch_phase_same, with_sched_same by exact Hl. reflexivity.
  - pose proof Hsched as (Hl & Hr & Hreg & Hq). simpl.
    erewrite bind_done by (apply load_done; eassumption).
    erewrite bind_done by (apply load_done; eassumption).
    destruct (Z.ltb_spec (Z.of_nat i) (reg_count r)) as [Hi|Hi].
    + destruct (cycle_step_quiescent s w i p Hsched Hi) as (ph1 & E1).
      rewrite (bind_done _ _ _ _ _ E1).
      destruct (IH (S i) (set_sch_phase ph1 s)
                   (with_sched sched (set_sch_phase ph1 s) w))
        as (ph2 & E2).
      { apply (scheduled_with_sched s); [exact Hsched | reflexivity]. }
      exists ph2. rewrite E2, with_sched_twice. reflexivity.
    + exists (sch_current_phase s).
      rewrite set_sch_phase_same, with_sched_same by exact Hl. reflexivity.
Qed.

Lemma scheduler_run_cycle_quiescent s w :
  scheduled s w ->
  exists ph,
    scheduler_run_cycle sched w
    = Done 0 (with_sched sched (end_of_cycle 0 (set_sch_phase ph s)) w).
Proof.
  intros Hsched. pose proof Hsched as (Hl & Hr & Hreg & Hq).
  unfold scheduler_run_cycle.
  rewrite (proj2 (Z.eqb_neq sched NULL)) by assumption.
  erewrite bind_done by (apply load_done; eassumption).
  rewrite (proj2 (Z.eqb_neq _ NULL)) by assumption.
  erewrite bind_done by (apply set_phase_run; eassumption).
  erewrite bind_done by (apply load_done; [assumption | exact Hreg]).
  destruct (cycle_loop_quiescent (Z.to_nat (reg_count r)) 0 0%nat
              (set_sch_phase PHASE_REST s)
              (with_sched sched (set_sch_phase PHASE_REST s) w))
    as (ph & E).
  { apply (scheduled_with_sched s); [exact Hsched | reflexivity]. }
  rewrite (bind_done _ _ _ _ _ E), with_sched_twice.
  erewrite bind_done
    by (apply load_done; [assumption | apply lookup_insert_eq]).
  erewrite bind_done by reflexivity.
  exists ph. unfold store_sched. 
  change (set_sch_phase ph (set_sch_phase PHASE_REST s)) with (set_sch_phase ph s).
  fold (with_sched sched (end_of_cycle 0 (set_sch_phase ph s))
          (with_sched sched (set_sch_phase ph s) w)).
  rewrite with_sched_twice. reflexivity.
Qed.

Lemma run_loop_quiescent (m : nat) : forall s w fuel,
  scheduled s w -> sch_running s <> 0 ->
  0 <= sch_empty_cycles s < 2 ^ 31 - 1 ->
  sch_max_empty_cycles s < 2 ^ 31 ->
  Z.to_nat (sch_max_empty_cycles s - sch_empty_cycles s - 1) = m ->
  (S m <= fuel)%nat ->
  exists s',
    run_loop fuel sched w = Done tt (with_sched sched s' w)
    /\ sch_cycle_count s' = u64 (sch_cycle_count s + Z.of_nat (S m))
    /\ sch_total_signals_processed s' = sch_total_signals_processed s
    /\ sch_max_empty_cycles s' <= sch_empty_cycles s'
    /\ sch_max_empty_cycles s' = sch_max_empty_cycles s.
Proof.
  induction m as [|m IH]; intros s w fuel Hsched Hrun Hempty Hmax Hm Hfuel;
    (destruct fuel as [|fuel]; [lia|]);
    pose proof Hsched as (Hl & _);
    destruct (scheduler_run_cycle_quiescent s w Hsched) as (ph & E);
    simpl run_loop;
    (erewrite bind_done by (apply load_done; eassumption));
    rewrite (proj2 (Z.eqb_neq _ _) Hrun);
    rewrite (bind_done _ _ _ _ _ E); cbn [Z.ltb Z.compare];
    (erewrite bind_done
       by (apply load_done; [assumption | apply lookup_insert_eq]));
    cbn [sch_max_empty_cycles sch_empty_cycles end_of_cycle set_sch_phase
         Z.ltb Z.compare];
    rewrite s32_small by lia;
    destruct (Z.leb_spec (sch_max_empty_cycles s) (sch_empty_cycles s + 1))
      as [Hstop|Hgo]; try lia.
  - eexists. split; [reflexivity|]. simpl. rewrite s32_small by lia.
    repeat split; auto.
  - destruct (IH (end_of_cycle 0 (set_sch_phase ph s))
                 (with_sched sched (end_of_cycle 0 (set_sch_phase ph s)) w)
                 fuel) as (s' & E' & Hcc & Htot & Hdone & Hsame).
    + apply (scheduled_with_sched s); [exact Hsched | reflexivity].
    + exact Hrun.
    + simpl. rewrite s32_small by lia. lia.
    + exact Hmax.
    + simpl. rewrite s32_small by lia. lia.
    + lia.
    + exists s'. rewrite E', with_sched_twice. split; [reflexivity|].
      simpl in Hcc, Htot, Hsame. rewrite Hcc, u64_add_assoc.
      repeat split; auto. f_equal. lia.
Qed.
End Quiescent.

Lemma cycles_to_quiescence_succ s :
  Z.to_nat (cycles_to_quiescence s)
  = S (Z.to_nat (sch_max_empty_cycles s - sch_empty_cycles s - 1)).
Proof. unfold cycles_to_quiescence. lia. Qed.

(** C7: [scheduler_run] returns at once, without running a cycle, when
    [running] is 0; its loop stops after any cycle that leaves
    [empty_cycles >= max_empty_cycles]; and on a network whose mailboxes
    are all empty it returns after [max (1, max_empty_cycles -
    empty_cycles)] cycles, which is at most [max_empty_cycles + 1], having
    processed no signal and left every mailbox as it was. *)
Theorem scheduler_run_terminates (sched : Z) (s : Scheduler)
    (r : AgentRegistry) (w : World) :
  sched <> NULL -> scheds w !! sched = Some s ->
  (sch_running s = 0 ->
     forall fuel, exists w' s',
       scheduler_run fuel sched w
       = Done (s32 (sch_total_signals_processed s)) w'
       /\ scheds w' !! sched = Some s'
       /\ sch_cycle_count s' = sch_cycle_count s)
  /\ (sch_running s <> 0 ->
      forall fuel p w1 s1,
        scheduler_run_cycle sched w = Done p w1 -> 0 <= p ->
        scheds w1 !! sched = Some s1 ->
        sch_max_empty_cycles s1 <= sch_empty_cycles s1 ->
        run_loop (S fuel) sched w = Done tt w1)
  /\ (sch_running s <> 0 -> scheduled sched r s w ->
      0 <= sch_empty_cycles s < 2 ^ 31 - 1 ->
      0 <= sch_max_empty_cycles s < 2 ^ 31 ->
      cycles_to_quiescence s <= sch_max_empty_cycles s + 1
      /\ forall fuel, (Z.to_nat (cycles_to_quiescence s) <= fuel)%nat ->
           exists w' s',
             scheduler_run fuel sched w
             = Done (s32 (sch_total_signals_processed s)) w'
             /\ scheds w' !! sched = Some s'
             /\ sch_cycle_count s'
                = u64 (sch_cycle_count s + cycles_to_quiescence s)
             /\ sch_total_signals_processed s'
                = sch_total_signals_processed s
             /\ sch_max_empty_cycles s' <= sch_empty_cycles s'
             /\ queues w' = queues w).
Proof.
  intros Hsched Hl.
  assert (Hstart : forall fuel,
            scheduler_run fuel sched w
            = (run_loop fuel sched;;
               ts ← get_cpu_timestamp;
               s ← load_sched sched;
               store_sched sched (set_sch_end ts s);;
               mret (s32 (sch_total_signals_processed s)))
                (with_sched sched (set_sch_start (tsc w) s)
                   (set_tsc (u64 (tsc w + 1)) w))).
  { intros fuel. unfold scheduler_run.
    rewrite (proj2 (Z.eqb_neq sched NULL)) by assumption.
    erewrite bind_done by reflexivity.
    erewrite bind_done by (apply load_done; [assumption | exact Hl]).
    erewrite bind_done by reflexivity. reflexivity. }
  assert (Hfinish : forall s' w1,
            scheds w1 !! sched = Some s' ->
            (ts ← get_cpu_timestamp;
             s ← load_sched sched;
             store_sched sched (set_sch_end ts s);;
             mret (s32 (sch_total_signals_processed s))) w1
            = Done (s32 (sch_total_signals_processed s'))
                (with_sched sched (set_sch_end (tsc w1) s')
                   (set_tsc (u64 (tsc w1 + 1)) w1))).
  { intros s' w1 Hl1.
    erewrite bind_done by reflexivity.
    erewrite bind_done by (apply load_done; [assumption | exact Hl1]).
    erewrite bind_done by reflexivity. reflexivity. }
  split; [|split].
  - intros Hstop fuel. rewrite (Hstart fuel).
    erewrite bind_done.
    2:{ destruct fuel; simpl;
          (erewrite bind_done
             by (apply load_done; [assumption | apply lookup_insert_eq]));
          simpl; rewrite Hstop; reflexivity. }
    erewrite Hfinish by apply lookup_insert_eq.
    eexists _, _. split; [reflexivity|].
    split; [apply lookup_insert_eq | reflexivity].
  - intros Hrun fuel p w1 s1 Hcycle Hp Hl1 Hdone. simpl.
    erewrite bind_done by (apply load_done; eassumption).
    rewrite (proj2 (Z.eqb_neq _ _) Hrun).
    rewrite (bind_done _ _ _ _ _ Hcycle).
    rewrite (proj2 (Z.ltb_ge _ _)) by exact Hp.
    erewrite bind_done by (apply load_done; eassumption).
    rewrite (proj2 (Z.leb_le _ _)) by exact Hdone. reflexivity.
  - intros Hrun Hq Hempty Hmax.
    split; [unfold cycles_to_quiescence; lia|].
    intros fuel Hfuel. rewrite (Hstart fuel).
    rewrite cycles_to_quiescence_succ in Hfuel.
    assert (Hq' : scheduled sched r (set_sch_start (tsc w) s)
                    (with_sched sched (set_sch_start (tsc w) s)
                       (set_tsc (u64 (tsc w + 1)) w))).
    { apply (scheduled_with_sched sched r s); [|reflexivity].
      destruct Hq as (? & ? & ? & ?). repeat split; assumption. }
    destruct (run_loop_quiescent sched r Hsched
                (Z.to_nat (sch_max_empty_cycles s - sch_empty_cycles s - 1))
                (set_sch_start (tsc w) s) _ fuel Hq' Hrun Hempty
                ltac:(simpl; lia) eq_refl Hfuel)
      as (s' & E & Hcc & Htot & Hdone & _).
    rewrite (bind_done _ _ _ _ _ E), with_sched_twice.
    erewrite Hfinish by apply lookup_insert_eq.
    simpl in Hcc, Htot. rewrite Htot.
    eexists _, _. split; [reflexivity|].
    split; [apply lookup_insert_eq|]. simpl.
    rewrite Hcc, Htot.
    repeat split; auto.
    f_equal. f_equal. unfold cycles_to_quiescence. lia.
Qed.

Lemma scheduler_run_terminates_witness :
  exists w' s',
    scheduler_run 11 9600 idle_world = Done 0 w'
    /\ scheds w' !! 9600 = Some s'
    /\ sch_cycle_count s' = 10
    /\ sch_total_signals_processed s' = 0.
Proof.
  destruct (scheduler_run_terminates 9600 demo_scheduler demo_registry
              idle_world) as (_ & _ & Hq).
  - discriminate.
  - vm_compute; reflexivity.
  - destruct Hq as [_ Hrun].
    + discriminate.
    + split; [vm_compute; reflexivity|].
      split; [discriminate|].
      split; [vm_compute; reflexivity|].
      intros [|i] Hi; [|simpl in Hi; lia].
      eexists; split; [reflexivity|]. right.
      eexists; split; [vm_compute; reflexivity | reflexivity].
    + simpl; lia.
    + simpl; lia.
    + destruct (Hrun 11%nat) as (w' & s' & E & Hl & Hcc & Htot & _).
      * vm_compute; lia.
      * exists w', s'. repeat split; assumption.
Defined.

Lemma signal_ref_wraps_witness :
  exists w1 w2,
    signal_ref 4096 saturated_world = Done tt w1
    /\ (sig_ref_count <$> signals w1 !! 4096) = Some 0
    /\ signal_free 4096 w1 = Done tt w2
    /\ signals w2 !! 4096 = None.
Proof.
  destruct (signal_ref_wraps 4096 (mkSignal 7 1 3 65535 4128 4 8 0)
              saturated_world)
    as (w1 & w2 & s1 & E1 & Hl1 & Hrc & E2 & Hgone & _).
  - discriminate.
  - vm_compute; reflexivity.
  - reflexivity.
  - reflexivity.
  - exists w1, w2. rewrite Hl1. simpl. rewrite Hrc. auto.
Defined.

Lemma dispatch_invoke_with_state_spec_witness :
  exists w',
    @dispatch_invoke_with_state demo_header demo_code 9000 8000 4096
      dispatch_world
    = Done (@DISPATCH_ERR_GUARD_FAILED demo_header) w'
    /\ agent_mem w' !! 8000 = Some 0.
Proof.
  destruct (@dispatch_invoke_with_state_spec demo_header demo_code
              9000 8000 4096 guarded_table (mkSignal 7 1 3 1 4128 4 8 0)
              dispatch_world)
    as (_ & _ & Hguard & _).
  - discriminate.
  - discriminate.
  - vm_compute; reflexivity.
  - vm_compute; reflexivity.
  - unfold table_wf; simpl; lia.
  - eexists. split.
    + apply (Hguard 0%nat (mkEntry 7 3 100 200)).
      * split; [simpl; lia|]. split; [reflexivity|]. split; [reflexivity|].
        intros j e' Hj; lia.
      * reflexivity.
      * vm_compute; reflexivity.
    + vm_compute; reflexivity.
Defined.

(** The unguarded table runs the handler, which stores the first payload
    byte in the agent state. *)
Example dispatch_runs_handler :
  let run := @dispatch_invoke_with_state demo_header demo_code 9100 8000 4096
               dispatch_world in
  value_of run = Some (@DISPATCH_OK demo_header)
  /\ agent_mem (world_of run) !! 8000 = Some 1.
Proof. vm_compute. split; reflexivity. Qed.

Lemma signal_create_spec_witness :
  (exists sig w',
     signal_create 7 1 (Some (replicate (Z.to_nat MAX_PAYLOAD_SIZE) 0))
                   MAX_PAYLOAD_SIZE heap_world = Done sig w'
     /\ sig <> NULL)
  /\ signal_create 7 1 (Some (replicate (Z.to_nat MAX_PAYLOAD_SIZE) 0))
                   (MAX_PAYLOAD_SIZE + 1) heap_world = Done NULL heap_world
  /\ (exists sig w',
        signal_create 7 1 None 4 heap_world = Done sig w' /\ sig <> NULL)
  /\ (let recycled :=
        world_of ((sig ← signal_create 7 1 (Some [1; 2; 3; 4]) 4;
                   signal_free sig) heap_world) in
      hp_free_list (heap recycled) <> []
      /\ exists sig w',
           signal_create 9 2 (Some [5; 6; 7; 8]) 4 recycled = Done sig w'
           /\ sig <> NULL).
Proof.
  split; [|split; [|split]].
  - destruct (signal_create_spec 7 1 (replicate (Z.to_nat MAX_PAYLOAD_SIZE) 0)
                MAX_PAYLOAD_SIZE heap_world) as (_ & Hok & _).
    destruct Hok as (sig & w' & E & _ & _ & Hroom).
    + unfold MAX_PAYLOAD_SIZE; lia.
    + rewrite length_replicate. lia.
    + exists sig, w'. split; [exact E|]. apply Hroom.
      vm_compute. repeat split; discriminate.
  - destruct (signal_create_spec 7 1 (replicate (Z.to_nat MAX_PAYLOAD_SIZE) 0)
                (MAX_PAYLOAD_SIZE + 1) heap_world) as (Hbig & _).
    apply Hbig. lia.
  - destruct (signal_create_spec 7 1 [] 4 heap_world) as (_ & _ & Hplain).
    destruct (Hplain ltac:(unfold MAX_PAYLOAD_SIZE; lia) None)
      as (sig & w' & E & _ & Hserved); [left; reflexivity|].
    exists sig, w'. split; [exact E|]. apply Hserved.
    eexists _, _. split; [vm_compute; reflexivity | discriminate].
  - intros recycled. split; [vm_compute; discriminate|].
    destruct (signal_create_spec 9 2 [5; 6; 7; 8] 4 recycled)
      as (_ & Hok & _).
    destruct Hok as (sig & w' & E & _ & Hserved & _).
    + unfold MAX_PAYLOAD_SIZE; lia.
    + simpl; lia.
    + exists sig, w'. split; [exact E|]. apply Hserved.
      eexists _, _, _, _. split; [vm_compute; reflexivity|].
      split; [discriminate|].
      split; [vm_compute; reflexivity | discriminate].
Defined.

(** C6, as stated, fails for the null payload pointer: with
    [payload_size = 4] the signal is created without a payload buffer and
    without the owns-payload flag.  It also fails when the heap cannot
    serve the request: [signal_create] then returns [NULL]. *)
Lemma signal_create_null_payload_counterexample :
  (exists w' s,
     signal_create 7 1 None 4 boot_world = Done 4096 w'
     /\ signals w' !! 4096 = Some s
     /\ has_flag (sig_flags s) SIGNAL_FLAG_OWNS_PAYLOAD = false
     /\ sig_payload_ptr s = NULL
     /\ sig_payload_size s = 0
     /\ payloads w' = ∅)
  /\ signal_create 7 1 (Some [1; 2; 3; 4]) 4 no_memory_world
     = Done NULL no_memory_world.
Proof.
  split; [|vm_compute; reflexivity].
  eexists _, _. split; [vm_compute; reflexivity|].
  split; [vm_compute; reflexivity|].
  repeat split; vm_compute; reflexivity.
Qed.

(** C1 at a concrete network.  One agent has one signal of kind 7 queued
    and a handler registered for kind 7.  A scheduler cycle dequeues the
    signal, releases it and counts it as processed, but the dispatch table
    has recorded no lookup and the agent state is unchanged: the handler
    was not invoked.  [dispatch_process_batch] on the same mailbox does
    invoke it. *)
Theorem scheduler_cycle_skips_dispatch :
  let cycle := scheduler_run_cycle 9600 cycle_world in
  let batch := @dispatch_process_batch demo_header demo_code 9100 4144 1
                 cycle_world in
  (q_count <$> queues cycle_world !! 4144) = Some 1
  /\ value_of cycle = Some 1
  /\ (q_count <$> queues (world_of cycle) !! 4144) = Some 0
  /\ signals (world_of cycle) !! 4096 = None
  /\ (sch_total_signals_processed <$> scheds (world_of cycle) !! 9600)
     = Some 1
  /\ tables (world_of cycle) !! 9100 = Some plain_table
  /\ agent_mem (world_of cycle) !! 8000 = Some 0
  /\ value_of batch = Some 1
  /\ (dt_lookup_count <$> tables (world_of batch) !! 9100) = Some 1
  /\ (dt_hit_count <$> tables (world_of batch) !! 9100) = Some 1
  /\ agent_mem (world_of batch) !! 8000 = Some 1.
Proof. vm_compute. repeat split; reflexivity. Qed.

(** The overflow scenario: a mailbox of capacity 16 offered the same signal
    20 times accepts 16 and rejects 4, which it counts as drops. *)
Example overflow_scenario :
  let run := (queue ← signal_queue_create 16;
              statuses ← enqueue_many 20 queue 4096;
              q ← load_queue queue;
              mret (statuses, q_count q, q_dropped_count q,
                    has_flag (q_flags q) QUEUE_FLAG_OVERFLOW)) signal_world in
  value_of run
  = Some (replicate 16 SIGNAL_OK ++ replicate 4 SIGNAL_ERR_QUEUE_FULL,
          16, 4, true).
Proof. vm_compute. reflexivity. Qed.

(** [scheduler_create] starts a scheduler that is running, has seen no
    empty cycle and gives up after 10 of them. *)
Example scheduler_create_defaults :
  let run := scheduler_create 9500 9700 heap_world in
  value_of run = Some 4096
  /\ scheds (world_of run) !! 4096
     = Some (mkScheduler 9500 9700 PHASE_REST 1 0 10 0 0 0 0 0 0).
Proof. vm_compute. split; reflexivity. Qed.

(** ** Routing: the lookup *)

Lemma with_rtable_twice table t1 t2 w :
  with_rtable table t2 (with_rtable table t1 w) = with_rtable table t2 w.
Proof.
  unfold with_rtable, set_rtables; simpl. rewrite insert_insert_eq. reflexivity.
Qed.

Lemma with_rtable_same table t w :
  rtables w !! table = Some t -> with_rtable table t w = w.
Proof.
  intros Hl. unfold with_rtable, set_rtables. rewrite insert_id by exact Hl.
  destruct w; reflexivity.
Qed.

Lemma land_mask x k : 0 <= k -> Z.land x (2 ^ k - 1) = x mod 2 ^ k.
Proof.
  intros Hk. rewrite <- Z.land_ones by exact Hk.
  rewrite Z.ones_equiv. reflexivity.
Qed.

Section FindSlot.
Variables (table source_agent_id frequency_id start k : Z).
Variable t : RoutingTable.
Hypothesis table_not_null : table <> NULL.
Hypothesis k_range : 0 <= k < 32.
Hypothesis mask_eq : rt_mask t = 2 ^ k - 1.
Hypothesis entries_length : length (rt_entries t) = Z.to_nat (2 ^ k).
Hypothesis start_range : 0 <= start < 2 ^ k.

Local Abbreviation route_key := (route_key source_agent_id frequency_id).

Lemma find_slot_loop_total (fuel : nat) : forall index c w,
  rtables w !! table = Some (set_rt_collision_count c t) ->
  (1 <= fuel)%nat -> Z.of_nat fuel <= 2 ^ k ->
  index = (start + 2 ^ k - Z.of_nat fuel) mod 2 ^ k ->
  exists i found c',
    find_slot_loop fuel table source_agent_id frequency_id start index w
    = Done (i, found) (with_rtable table (set_rt_collision_count c' t) w)
    /\ (found = true ->
        exists e, rt_entries t !! Z.to_nat i = Some e /\ route_key e).
Proof.
  assert (Hpow : 0 < 2 ^ k) by (apply Z.pow_pos_nonneg; lia).
  assert (Hpow32 : 2 ^ k <= 2 ^ 31) by (apply Z.pow_le_mono_r; lia).
  induction fuel as [|fuel IH]; intros index c w Hl Hfuel1 Hfuel2 Hindex;
    [lia|].
  assert (Hrange : 0 <= index < 2 ^ k)
    by (rewrite Hindex; apply Z.mod_pos_bound; lia).
  destruct (lookup_lt_is_Some_2 (rt_entries t) (Z.to_nat index)) as [e He];
    [lia|].
  simpl find_slot_loop.
  erewrite bind_done by (apply load_done; eassumption).
  cbn [rt_entries set_rt_collision_count]. rewrite He.
  destruct (re_source_agent_id e =? 0).
  { exists index, false, c. rewrite with_rtable_same by exact Hl.
    split; [reflexivity | discriminate]. }
  destruct ((re_source_agent_id e =? source_agent_id)
            && (re_frequency_id e =? frequency_id)) eqn:Hkey.
  { exists index, true, c. rewrite with_rtable_same by exact Hl.
    split; [reflexivity|]. intros _. exists e. split; [exact He|].
    apply andb_true_iff in Hkey as [H1 H2].
    split; apply Z.eqb_eq; assumption. }
  erewrite bind_done by reflexivity.
  cbn [rt_mask rt_collision_count set_rt_collision_count].
  rewrite u32_small by lia. rewrite mask_eq, land_mask by lia.
  assert (Hnext : (index + 1) mod 2 ^ k
                  = (start + 2 ^ k - Z.of_nat fuel) mod 2 ^ k).
  { rewrite Hindex, Zplus_mod_idemp_l. f_equal. lia. }
  destruct (Z.eqb_spec ((index + 1) mod 2 ^ k) start) as [Hback|Hon].
  { eexists _, false, _. split; [reflexivity | discriminate]. }
  assert (Hmore : (1 <= fuel)%nat).
  { destruct fuel; [|lia]. exfalso. apply Hon. rewrite Hnext.
    replace (start + 2 ^ k - Z.of_nat 0) with (start + 1 * 2 ^ k) by lia.
    rewrite Z.mod_add by lia. apply Z.mod_small. exact start_range. }
  destruct (IH ((index + 1) mod 2 ^ k) (u32 (c + 1))
               (with_rtable table
                  (set_rt_collision_count (u32 (c + 1)) t) w))
    as (i & found & c' & E & Hfound);
    [apply lookup_insert_eq | exact Hmore | lia | exact Hnext |].
  exists i, found, c'. split; [|exact Hfound].
  unfold store_rtable, modify in *.
  etransitivity; [exact E|]. rewrite with_rtable_twice. reflexivity.
Qed.
End FindSlot.

Lemma routing_get_entry_total table source_agent_id frequency_id t w :
  table <> NULL -> rtables w !! table = Some t -> rtable_wf t ->
  exists route c',
    routing_get_entry table source_agent_id frequency_id w
    = Done route (with_rtable table (set_rt_collision_count c' t) w)
    /\ forall i, route = Some i ->
         exists e, rt_entries t !! Z.to_nat i = Some e
                   /\ route_key source_agent_id frequency_id e.
Proof.
  intros Ht Hl (k & Hk & Hmask & Hlen).
  assert (Hpow : 0 < 2 ^ k) by (apply Z.pow_pos_nonneg; lia).
  unfold routing_get_entry, find_slot.
  rewrite (proj2 (Z.eqb_neq table NULL)) by assumption.
  set (start := Z.land (fnv1a_hash source_agent_id frequency_id) (rt_mask t)).
  assert (Hstart : 0 <= start < 2 ^ k).
  { unfold start. rewrite Hmask, land_mask by lia.
    apply Z.mod_pos_bound; lia. }
  destruct (find_slot_loop_total table source_agent_id frequency_id start k t
              Ht Hk Hmask Hlen Hstart (S (Z.to_nat (rt_mask t))) start
              (rt_collision_count t) w)
    as (i & found & c' & E & Hfound).
  - destruct t; exact Hl.
  - lia.
  - rewrite Hmask; lia.
  - rewrite Hmask.
    replace (start + 2 ^ k - Z.of_nat (S (Z.to_nat (2 ^ k - 1))))
      with start by lia.
    symmetry; apply Z.mod_small; exact Hstart.
  - erewrite bind_done.
    2:{ erewrite bind_done by (apply load_done; eassumption). exact E. }
    destruct found.
    + exists (Some i), c'. split; [reflexivity|].
      intros i' [= <-]. apply Hfound; reflexivity.
    + exists None, c'. split; [reflexivity | discriminate].
Qed.

(** ** Routing: the delivery loop *)

Lemma deliveries_snoc qs (l : list Z) i queue :
  l !! i = Some queue ->
  deliveries qs (take (S i) l)
  = deliveries qs (take i l) + (if accepts qs queue then 1 else 0).
Proof.
  intros Hl. unfold deliveries.
  rewrite (take_S_r _ _ _ Hl), filter_app, length_app.
  destruct (accepts qs queue) eqn:Ha.
  - rewrite filter_cons_True by exact Ha. simpl. lia.
  - rewrite filter_cons_False by (rewrite Ha; discriminate). simpl. lia.
Qed.

Lemma deliveries_bound qs (l : list Z) i :
  0 <= deliveries qs (take i l) <= Z.of_nat i.
Proof.
  unfold deliveries.
  pose proof (length_filter (fun queue => accepts qs queue = true) (take i l)).
  pose proof (length_take_le l i). rewrite length_take in *. lia.
Qed.

Section Broadcast.
Variables (table entry signal agents : Z).
Variables (e0 : RoutingEntry) (s0 : Signal) (r : AgentRegistry).
Variable w0 : World.
Hypothesis table_not_null : table <> NULL.
Hypothesis signal_not_null : signal <> NULL.
Hypothesis route_ok : route_wf e0.
Hypothesis registry_ok : registry_at agents r w0.
Hypothesis ready :
  destinations_ready (queues w0) (resolved_queues agents r e0).

Local Abbreviation dests := (resolved_queues agents r e0).
Local Abbreviation inv := (broadcast_inv table entry signal e0 s0 dests w0).

Lemma dests_length : length dests = Z.to_nat (re_dest_count e0).
Proof.
  destruct route_ok as (_ & Hids & Hqs & _).
  unfold resolved_queues. rewrite length_zip_with. lia.
Qed.

Lemma agent_get_queue_run dest w :
  registries w = registries w0 -> agents <> NULL -> 0 <= dest ->
  agent_get_queue agents dest w = Done (registry_queue r dest) w.
Proof.
  intros Hreg Hagents Hdest.
  destruct registry_ok as [?|[Hl Hwf]]; [contradiction|].
  unfold agent_get_queue, agent_registry_get, registry_queue.
  rewrite (proj2 (Z.eqb_neq agents NULL)) by assumption.
  assert (Hload : load_registry agents w = Done r w)
    by (apply load_done; [assumption | rewrite Hreg; exact Hl]).
  destruct (Z.leb_spec (reg_capacity r) dest) as [Hout|Hin].
  - erewrite bind_done.
    2:{ rewrite (bind_done _ _ _ _ _ Hload).
        rewrite (proj2 (Z.leb_le _ _)) by exact Hout. reflexivity. }
    reflexivity.
  - destruct (lookup_lt_is_Some_2 (reg_agents r) (Z.to_nat dest))
      as [slot Hslot]; [unfold registry_wf in Hwf; lia|].
    erewrite bind_done.
    2:{ rewrite (bind_done _ _ _ _ _ Hload).
        rewrite (proj2 (Z.leb_gt _ _)) by exact Hin.
        rewrite Hslot. reflexivity. }
    rewrite Hslot. destruct slot; reflexivity.
Qed.

Lemma resolve_destination_run i t e cached dest w :
  rtables w !! table = Some t ->
  rt_entries t !! Z.to_nat entry = Some e ->
  re_dest_agent_ids e !! i = Some dest -> 0 <= dest ->
  registries w = registries w0 ->
  exists t1 e1,
    resolve_destination table entry agents i e cached w
    = Done (resolve_queue agents r cached dest) (with_rtable table t1 w)
    /\ rt_entries t1 !! Z.to_nat entry = Some e1
    /\ re_dest_count e1 = re_dest_count e
    /\ re_dest_agent_ids e1 = re_dest_agent_ids e
    /\ length (re_dest_queues e1) = length (re_dest_queues e)
    /\ forall j : nat, (S i <= j)%nat ->
         re_dest_queues e1 !! j = re_dest_queues e !! j.
Proof.
  intros Ht He Hdest Hnonneg Hreg. unfold resolve_destination, resolve_queue.
  destruct ((cached =? NULL) && negb (agents =? NULL)) eqn:Hlazy.
  - apply andb_true_iff in Hlazy as [_ Hagents].
    apply negb_true_iff, Z.eqb_neq in Hagents.
    rewrite Hdest.
    erewrite bind_done by (apply agent_get_queue_run; assumption).
    erewrite bind_done.
    2:{ unfold store_entry.
        erewrite bind_done by (apply load_done; eassumption).
        reflexivity. }
    eexists _, _. split; [reflexivity|]. simpl.
    split; [apply list_lookup_insert_eq; eapply lookup_lt_Some; exact He|].
    simpl. split; [reflexivity|]. split; [reflexivity|].
    split; [apply length_insert|].
    intros j Hj. apply list_lookup_insert_ne. lia.
  - exists t, e. rewrite with_rtable_same by exact Ht.
    split; [reflexivity|]. auto.
Qed.

Lemma broadcast_step_inv i d w :
  inv i d w -> (i < length dests)%nat ->
  exists d' w',
    broadcast_step table entry signal agents i d w = Done d' w'
    /\ inv (S i) d' w'.
Proof.
  intros ((t & e & Ht & He & Hcount & Hids & Hlen & Hcache)
          & Hreg & Hsig & Hqs & Hd) Hi.
  pose proof dests_length as Hdl.
  destruct route_ok as (Hdc & Hidlen & Hqlen & Hnonneg).
  destruct (lookup_lt_is_Some_2 (re_dest_queues e0) i) as [cached Hcached];
    [lia|].
  destruct (lookup_lt_is_Some_2 (re_dest_agent_ids e0) i) as [dest Hdest];
    [lia|].
  assert (Hdi : dests !! i = Some (resolve_queue agents r cached dest)).
  { unfold resolved_queues. rewrite lookup_zip_with, Hcached, Hdest.
    reflexivity. }
  assert (Hdest0 : 0 <= dest).
  { rewrite Forall_lookup in Hnonneg. exact (Hnonneg i dest Hdest). }
  pose proof (deliveries_snoc (queues w0) dests i _ Hdi) as Hsnoc.
  pose proof (deliveries_bound (queues w0) dests i) as Hbound.
  rewrite <- Hd in Hsnoc, Hbound.
  set (queue := resolve_queue agents r cached dest) in *.
  destruct (resolve_destination_run i t e cached dest w Ht He)
    as (t1 & e1 & Eres & He1 & Hcount1 & Hids1 & Hlen1 & Hcache1);
    [rewrite Hids; exact Hdest | exact Hdest0 | exact Hreg |].
  fold queue in Eres.
  assert (Hentry1 :
            exists t e,
              rtables (with_rtable table t1 w) !! table = Some t
              /\ rt_entries t !! Z.to_nat entry = Some e
              /\ re_dest_count e = re_dest_count e0
              /\ re_dest_agent_ids e = re_dest_agent_ids e0
              /\ length (re_dest_queues e) = length (re_dest_queues e0)
              /\ forall j : nat, (S i <= j)%nat ->
                   re_dest_queues e !! j = re_dest_queues e0 !! j).
  { exists t1, e1. split; [apply lookup_insert_eq|].
    split; [exact He1|]. split; [congruence|]. split; [congruence|].
    split; [congruence|]. intros j Hj. rewrite Hcache1 by lia.
    apply Hcache; lia. }
  unfold broadcast_step.
  erewrite bind_done.
  2:{ unfold load_entry.
      erewrite bind_done by (apply load_done; eassumption).
      rewrite He. reflexivity. }
  cbv beta. rewrite (Hcache i) by lia. rewrite Hcached.
  rewrite (bind_done _ _ _ _ _ Eres).
  destruct (Z.eqb_spec queue NULL) as [Hnull|Hqueue].
  { exists d, (with_rtable table t1 w). split; [reflexivity|].
    split; [exact Hentry1|]. split; [exact Hreg|]. split; [exact Hsig|].
    split; [intros j qp Hj; apply (Hqs j); lia|].
    rewrite Hsnoc. unfold accepts. rewrite Hnull. simpl. lia. }
  destruct ready as [Hdistinct Hlive].
  destruct (Hlive i queue Hdi Hqueue) as (q & Hq & Hwf).
  assert (Hq1 : queues (with_rtable table t1 w) !! queue = Some q).
  { simpl. rewrite (Hqs i queue) by auto. exact Hq. }
  assert (Hother : forall (j : nat) qp, (S i <= j)%nat ->
            dests !! j = Some qp -> qp <> NULL -> qp <> queue).
  { intros j qp Hj Hqp Hnn ->. specialize (Hdistinct i j queue Hdi Hqp Hnn).
    lia. }
  destruct (Z_lt_le_dec (q_count q) (q_capacity q)) as [Hroom|Hfull].
  - erewrite bind_done.
    2:{ apply signal_queue_enqueue_ok with (q := q); auto.
        - exact Hsig.
        - apply enqueue_index_lt; exact Hwf. }
    cbv beta. change (SIGNAL_OK =? SIGNAL_OK) with true. cbv iota.
    eexists _, _. split; [reflexivity|].
    split; [exact Hentry1|]. split; [exact Hreg|].
    split.
    { simpl. rewrite lookup_insert_eq. f_equal.
      unfold set_sig_ref_count; simpl.
      rewrite u16_add_assoc, s32_small by lia. reflexivity. }
    split.
    { intros j qp Hj Hqp Hnn. simpl.
      rewrite lookup_insert_ne by (apply not_eq_sym; exact (Hother j qp Hj Hqp Hnn)).
      apply (Hqs j); auto; lia. }
    rewrite Hsnoc, s32_small by lia. unfold accepts.
    rewrite (proj2 (Z.eqb_neq queue NULL)), Hq by assumption.
    rewrite (proj2 (Z.ltb_lt _ _)) by exact Hroom. reflexivity.
  - erewrite bind_done
      by (apply signal_queue_enqueue_full with (q := q); auto).
    cbv beta. change (SIGNAL_ERR_QUEUE_FULL =? SIGNAL_OK) with false.
    cbv iota.
    eexists _, _. split; [reflexivity|].
    split; [exact Hentry1|]. split; [exact Hreg|]. split; [exact Hsig|].
    split.
    { intros j qp Hj Hqp Hnn. simpl.
      rewrite lookup_insert_ne by (apply not_eq_sym; exact (Hother j qp Hj Hqp Hnn)).
      apply (Hqs j); auto; lia. }
    rewrite Hsnoc. unfold accepts.
    rewrite (proj2 (Z.eqb_neq queue NULL)), Hq by assumption.
    rewrite (proj2 (Z.ltb_ge _ _)) by exact Hfull. lia.
Qed.

Lemma broadcast_loop_inv (m : nat) : forall i d w,
  inv i d w -> (i + m = length dests)%nat ->
  exists d' w',
    broadcast_loop m table entry signal agents i d w = Done d' w'
    /\ inv (length dests) d' w'.
Proof.
  induction m as [|m IH]; intros i d w Hinv Him.
  - exists d, w. replace (length dests) with i by lia.
    split; [reflexivity | exact Hinv].
  - destruct (broadcast_step_inv i d w Hinv) as (d1 & w1 & E1 & Hinv1);
      [lia|].
    destruct (IH (S i) d1 w1 Hinv1) as (d' & w' & E' & Hinv'); [lia|].
    exists d', w'. split; [|exact Hinv'].
    simpl. rewrite (bind_done _ _ _ _ _ E1). exact E'.
Qed.
End Broadcast.

(** ** Routing: the broadcast *)

Lemma set_sig_ref_count_same s : set_sig_ref_count (sig_ref_count s) s = s.
Proof. destruct s; reflexivity. Qed.




(** ** Powers of two *)

Lemma pow2_land_pred k : 0 <= k -> Z.land (2 ^ k) (2 ^ k - 1) = 0.
Proof.
  intros Hk. rewrite land_mask by lia. apply Z.mod_same.
  pose proof (Z.pow_pos_nonneg 2 k); lia.
Qed.

Lemma land_pred_pow2 x :
  0 < x -> Z.land x (x - 1) = 0 -> x = 2 ^ Z.log2 x.
Proof.
  intros Hx Hl.
  pose proof (Z.log2_spec x Hx) as [Hlo Hhi].
  pose proof (Z.log2_nonneg x) as Hn.
  destruct (Z.eq_dec x (2 ^ Z.log2 x)) as [|Hne]; [assumption|exfalso].
  assert (Hlog : Z.log2 (x - 1) = Z.log2 x).
  { apply Z.log2_unique; [assumption|]. lia. }
  assert (Hb1 : Z.testbit (x - 1) (Z.log2 x) = true).
  { rewrite <- Hlog. apply Z.bit_log2. lia. }
  assert (Hb2 : Z.testbit x (Z.log2 x) = true) by (apply Z.bit_log2; lia).
  assert (Hb : Z.testbit (Z.land x (x - 1)) (Z.log2 x) = true).
  { rewrite Z.land_spec, Hb1, Hb2. reflexivity. }
  rewrite Hl, Z.bits_0 in Hb. discriminate.
Qed.

Lemma is_power_of_two_iff (x : Z) :
  0 <= x < 2 ^ 32 ->
  is_power_of_two x = true <-> exists k, 0 <= k < 32 /\ x = 2 ^ k.
Proof.
  intros Hx. unfold is_power_of_two. split.
  - intros Hp. apply andb_true_iff in Hp as [Hnz Hl].
    apply negb_true_iff, Z.eqb_neq in Hnz. apply Z.eqb_eq in Hl.
    rewrite u32_small in Hl by lia.
    exists (Z.log2 x). split.
    + split; [apply Z.log2_nonneg|].
      apply Z.log2_lt_pow2; lia.
    + apply land_pred_pow2; [lia | assumption].
  - intros (k & Hk & ->).
    assert (0 < 2 ^ k) by (apply Z.pow_pos_nonneg; lia).
    apply andb_true_iff. split.
    + apply negb_true_iff, Z.eqb_neq. lia.
    + apply Z.eqb_eq. rewrite u32_small by lia. apply pow2_land_pred. lia.
Qed.

(** X1: [is_power_of_two] accepts exactly the 32 powers of two that fit
    [uint32_t]; 0 is rejected. *)
Theorem is_power_of_two_spec (x : Z) :
  0 <= x < 2 ^ 32 ->
  is_power_of_two x = true <-> exists k, 0 <= k < 32 /\ x = 2 ^ k.
Proof.
  apply is_power_of_two_iff.
Qed.

Lemma is_power_of_two_spec_witness :
  is_power_of_two 64 = true <-> exists k, 0 <= k < 32 /\ 64 = 2 ^ k.
Proof.
  apply (is_power_of_two_spec 64). lia.
Defined.

(** One step [x |= x >> s] of the smearing in [next_power_of_two]: when
    the [m + 1] bits below and including the top bit [n] are set and
    [s <= m + 1], the [m + s + 1] bits are set afterwards. *)
Lemma smear_step y s m n :
  0 <= s -> 0 <= m -> s <= m + 1 ->
  (forall i, n - m <= i <= n -> 0 <= i -> Z.testbit y i = true) ->
  (forall i, n < i -> Z.testbit y i = false) ->
  (forall i, n - (m + s) <= i <= n -> 0 <= i ->
     Z.testbit (Z.lor y (Z.shiftr y s)) i = true)
  /\ (forall i, n < i -> Z.testbit (Z.lor y (Z.shiftr y s)) i = false).
Proof.
  intros Hs Hm Hsm Hset Hclear. split.
  - intros i Hi Hi0. rewrite Z.lor_spec, Z.shiftr_spec by lia.
    destruct (Z_le_dec (n - m) i).
    + rewrite Hset by lia. reflexivity.
    + rewrite (Hset (i + s)) by lia. apply orb_true_r.
  - intros i Hi.
    destruct (Z_lt_dec i 0).
    + rewrite Z.testbit_neg_r by lia. reflexivity.
    + rewrite Z.lor_spec, Z.shiftr_spec by lia.
      rewrite !Hclear by lia. reflexivity.
Qed.

Lemma smear_all y :
  0 < y < 2 ^ 32 ->
  let y1 := Z.lor y (Z.shiftr y 1) in
  let y2 := Z.lor y1 (Z.shiftr y1 2) in
  let y3 := Z.lor y2 (Z.shiftr y2 4) in
  let y4 := Z.lor y3 (Z.shiftr y3 8) in
  let y5 := Z.lor y4 (Z.shiftr y4 16) in
  y5 = 2 ^ (Z.log2 y + 1) - 1.
Proof.
  intros Hy y1 y2 y3 y4 y5.
  set (n := Z.log2 y).
  assert (Hn : 0 <= n < 32).
  { split; [apply Z.log2_nonneg|]. apply Z.log2_lt_pow2; lia. }
  assert (H0 : (forall i, n - 0 <= i <= n -> 0 <= i -> Z.testbit y i = true)
               /\ (forall i, n < i -> Z.testbit y i = false)).
  { split.
    - intros i Hi _. replace i with n by lia. apply Z.bit_log2. lia.
    - intros i Hi. apply Z.bits_above_log2; [lia | assumption]. }
  destruct H0 as [S0 C0].
  destruct (smear_step y 1 0 n ltac:(lia) ltac:(lia) ltac:(lia) S0 C0)
    as [S1 C1]. fold y1 in S1, C1.
  destruct (smear_step y1 2 1 n ltac:(lia) ltac:(lia) ltac:(lia) S1 C1)
    as [S2 C2]. fold y2 in S2, C2.
  destruct (smear_step y2 4 3 n ltac:(lia) ltac:(lia) ltac:(lia) S2 C2)
    as [S3 C3]. fold y3 in S3, C3.
  destruct (smear_step y3 8 7 n ltac:(lia) ltac:(lia) ltac:(lia) S3 C3)
    as [S4 C4]. fold y4 in S4, C4.
  destruct (smear_step y4 16 15 n ltac:(lia) ltac:(lia) ltac:(lia) S4 C4)
    as [S5 C5]. fold y5 in S5, C5.
  replace (2 ^ (n + 1) - 1) with (Z.ones (n + 1))
    by (rewrite Z.ones_equiv; lia).
  apply Z.bits_inj'. intros i Hi.
  destruct (Z_le_dec i n).
  - rewrite S5 by lia. rewrite Z.ones_spec_low by lia. reflexivity.
  - rewrite C5 by lia. rewrite Z.ones_spec_high by lia. reflexivity.
Qed.

Lemma next_power_of_two_small x :
  2 <= x <= 2 ^ 31 -> next_power_of_two x = 2 ^ (Z.log2 (x - 1) + 1).
Proof.
  intros Hx. unfold next_power_of_two. cbv zeta.
  rewrite (u32_small (x - 1)) by lia.
  pose proof (smear_all (x - 1) ltac:(lia)) as E. cbv zeta in E. rewrite E.
  replace (2 ^ (Z.log2 (x - 1) + 1) - 1 + 1) with (2 ^ (Z.log2 (x - 1) + 1))
    by lia.
  apply u32_small.
  assert (Z.log2 (x - 1) < 31) by (apply Z.log2_lt_pow2; lia).
  pose proof (Z.log2_nonneg (x - 1)).
  split; [apply Z.pow_nonneg; lia|].
  apply Z.pow_lt_mono_r; lia.
Qed.

Lemma next_power_of_two_large x :
  2 ^ 31 < x < 2 ^ 32 -> next_power_of_two x = 0.
Proof.
  intros Hx. unfold next_power_of_two. cbv zeta.
  rewrite (u32_small (x - 1)) by lia.
  pose proof (smear_all (x - 1) ltac:(lia)) as E. cbv zeta in E. rewrite E.
  assert (Hl : Z.log2 (x - 1) = 31) by (apply Z.log2_unique; lia).
  rewrite Hl. reflexivity.
Qed.

(** The capacity [signal_queue_create] and [routing_table_create] settle
    on. *)
Lemma rounded_capacity_pow2 capacity :
  1 <= capacity <= 2 ^ 31 ->
  exists k, 0 <= k <= 31
    /\ (if is_power_of_two capacity then capacity
        else next_power_of_two capacity) = 2 ^ k
    /\ capacity <= 2 ^ k < 2 * capacity.
Proof.
  intros Hc. destruct (is_power_of_two capacity) eqn:Ep.
  - apply is_power_of_two_iff in Ep as (k & Hk & ->); [|lia].
    exists k. split; [lia|]. split; [reflexivity|].
    assert (0 < 2 ^ k) by (apply Z.pow_pos_nonneg; lia). lia.
  - destruct (Z.eq_dec capacity 1) as [->|Hne]; [discriminate Ep|].
    exists (Z.log2 (capacity - 1) + 1).
    pose proof (Z.log2_nonneg (capacity - 1)).
    assert (Z.log2 (capacity - 1) < 31) by (apply Z.log2_lt_pow2; lia).
    pose proof (Z.log2_spec (capacity - 1) ltac:(lia)) as [Hlo Hhi].
    rewrite <- Z.add_1_r in Hhi.
    split; [lia|]. split; [apply next_power_of_two_small; lia|].
    rewrite Z.pow_add_r in Hhi |- * by lia. change (2 ^ 1) with 2 in *. lia.
Qed.

Lemma rounded_capacity_zero capacity :
  capacity = 0 \/ 2 ^ 31 < capacity < 2 ^ 32 ->
  (if is_power_of_two capacity then capacity
   else next_power_of_two capacity) = 0.
Proof.
  intros [->|Hc]; [reflexivity|].
  destruct (is_power_of_two capacity) eqn:Ep.
  - apply is_power_of_two_iff in Ep as (k & Hk & ->); [|lia].
    assert (2 ^ k <= 2 ^ 31) by (apply Z.pow_le_mono_r; lia). lia.
  - apply next_power_of_two_large. exact Hc.
Qed.

(** X2: for a request between 1 and [2 ^ 31], [next_power_of_two] is the
    least power of two that is not below the request; for 0 and for
    requests above [2 ^ 31] the [uint32_t] arithmetic wraps and the result
    is 0. *)
Theorem next_power_of_two_spec (x : Z) :
  (1 <= x <= 2 ^ 31 ->
     exists k, 0 <= k <= 31 /\ next_power_of_two x = 2 ^ k
               /\ x <= 2 ^ k < 2 * x)
  /\ (x = 0 \/ 2 ^ 31 < x < 2 ^ 32 -> next_power_of_two x = 0).
Proof.
  split.
  - intros Hx. destruct (Z.eq_dec x 1) as [->|Hne].
    + exists 0. split; [lia|]. split; [reflexivity|]. simpl. lia.
    + exists (Z.log2 (x - 1) + 1).
      pose proof (Z.log2_nonneg (x - 1)).
      assert (Z.log2 (x - 1) < 31) by (apply Z.log2_lt_pow2; lia).
      pose proof (Z.log2_spec (x - 1) ltac:(lia)) as [Hlo Hhi].
      rewrite <- Z.add_1_r in Hhi.
      split; [lia|]. split; [apply next_power_of_two_small; lia|].
      rewrite Z.pow_add_r in Hhi |- * by lia. change (2 ^ 1) with 2 in *. lia.
  - intros [->|Hx]; [reflexivity|]. apply next_power_of_two_large. exact Hx.
Qed.

Lemma next_power_of_two_spec_witness :
  (exists k, 0 <= k <= 31 /\ next_power_of_two 1000 = 2 ^ k
             /\ 1000 <= 2 ^ k < 2 * 1000)
  /\ next_power_of_two (2 ^ 31 + 1) = 0.
Proof.
  split.
  - apply (proj1 (next_power_of_two_spec 1000)). lia.
  - apply (proj2 (next_power_of_two_spec (2 ^ 31 + 1))). right. lia.
Defined.

(** ** The allocator *)

Lemma land_shiftl_ones x n k :
  0 <= k -> 0 <= n -> 0 <= x < 2 ^ (n + k) ->
  Z.land x (Z.shiftl (Z.ones n) k) = 2 ^ k * (x / 2 ^ k).
Proof.
  intros Hk Hn Hx.
  assert (E : Z.land x (Z.shiftl (Z.ones n) k)
              = Z.shiftl (Z.land (Z.shiftr x k) (Z.ones n)) k).
  { apply Z.bits_inj'; intros i Hi.
    rewrite Z.land_spec, (Z.shiftl_spec (Z.ones n) k i Hi),
      (Z.shiftl_spec (Z.land (Z.shiftr x k) (Z.ones n)) k i Hi).
    destruct (Z_lt_le_dec i k).
    - rewrite (Z.testbit_neg_r (Z.ones n)),
        (Z.testbit_neg_r (Z.land (Z.shiftr x k) (Z.ones n))) by lia.
      apply andb_false_r.
    - rewrite Z.land_spec, Z.shiftr_spec by lia.
      replace (i - k + k) with i by lia. reflexivity. }
  rewrite E, Z.land_ones, Z.shiftr_div_pow2, Z.shiftl_mul_pow2 by lia.
  assert (0 < 2 ^ k) by (apply Z.pow_pos_nonneg; lia).
  rewrite Z.mod_small; [lia|].
  split; [apply Z.div_pos; lia|]. apply Z.div_lt_upper_bound; [lia|].
  rewrite <- Z.pow_add_r by lia. rewrite Z.add_comm. lia.
Qed.

Lemma clear64_low3 x : 0 <= x < 2 ^ 64 -> clear_bits 64 x 7 = 8 * (x / 8).
Proof.
  intros Hx. unfold clear_bits.
  change (wrap 64 (Z.lnot 7)) with (Z.shiftl (Z.ones 61) 3).
  rewrite land_shiftl_ones by lia. reflexivity.
Qed.

Lemma clear64_low12 x :
  0 <= x < 2 ^ 64 -> clear_bits 64 x 4095 = 4096 * (x / 4096).
Proof.
  intros Hx. unfold clear_bits.
  change (wrap 64 (Z.lnot 4095)) with (Z.shiftl (Z.ones 52) 12).
  rewrite land_shiftl_ones by lia. reflexivity.
Qed.

(** The size of the block behind a request that does not wrap. *)
Lemma block_size_eq bytes :
  0 <= bytes <= 2 ^ 64 - 8 ->
  block_size bytes = Z.max 16 (8 * ((bytes + 7) / 8)).
Proof.
  intros Hb. unfold block_size, sizeof_FreeBlock, u64.
  rewrite (wrap_small 64 (bytes + 7)) by lia.
  rewrite clear64_low3 by lia.
  destruct (Z.ltb_spec (8 * ((bytes + 7) / 8)) 16); lia.
Qed.

Lemma block_size_bounds bytes :
  0 < bytes <= 2 ^ 64 - 8 ->
  bytes <= block_size bytes <= bytes + 15 /\ block_size bytes mod 8 = 0.
Proof.
  intros Hb. rewrite block_size_eq by lia.
  pose proof (Z.div_mod (bytes + 7) 8 ltac:(lia)).
  pose proof (Z.mod_pos_bound (bytes + 7) 8 ltac:(lia)).
  split.
  - lia.
  - destruct (Z.max_spec 16 (8 * ((bytes + 7) / 8))) as [[_ ->]|[_ ->]].
    + rewrite Z.mul_comm. apply Z_mod_mult.
    + reflexivity.
Qed.

Lemma block_size_wraps bytes :
  2 ^ 64 - 8 < bytes < 2 ^ 64 -> block_size bytes = 16.
Proof.
  intros Hb. unfold block_size, sizeof_FreeBlock, u64.
  assert (E : wrap 64 (bytes + 7) = bytes + 7 - 2 ^ 64).
  { unfold wrap.
    replace (bytes + 7) with (bytes + 7 - 2 ^ 64 + 1 * 2 ^ 64) at 1 by lia.
    rewrite Z_mod_plus_full. apply Z.mod_small. lia. }
  rewrite E, clear64_low3 by lia.
  rewrite Z.div_small by lia. reflexivity.
Qed.

Lemma heap_free_run ptr bytes w :
  ptr <> NULL -> bytes <> 0 ->
  exists w1,
    heap_free ptr bytes w = Done 0 w1
    /\ heap w1
       = mkHeap (hp_initialized (heap w)) (hp_base (heap w))
                (hp_current (heap w)) (hp_end (heap w))
                (hp_total_size (heap w))
                (u64 (hp_used (heap w) - block_size bytes))
                (hp_peak_used (heap w))
                (mkFreeBlock ptr (block_size bytes) :: hp_free_list (heap w))
    /\ os_mmap w1 = os_mmap w.
Proof.
  intros Hp Hb. unfold heap_free, clobber. munfold.
  rewrite (proj2 (Z.eqb_neq ptr NULL)), (proj2 (Z.eqb_neq bytes 0)) by assumption.
  simpl. eexists. split; [reflexivity|]. split; reflexivity.
Qed.

Lemma heap_allocate_first ptr size rest wanted w :
  hp_initialized (heap w) = true -> wanted <> 0 ->
  hp_free_list (heap w) = mkFreeBlock ptr size :: rest ->
  block_size wanted <= size ->
  heap_allocate wanted w
  = Done ptr
      (set_heap
         (bump_used (block_size wanted)
            (mkHeap (hp_initialized (heap w)) (hp_base (heap w))
                    (hp_current (heap w)) (hp_end (heap w))
                    (hp_total_size (heap w)) (hp_used (heap w))
                    (hp_peak_used (heap w)) rest)) w).
Proof.
  intros Hinit Hw Hl Hfit.
  unfold heap_allocate, heap_allocate_initialized. munfold. simpl.
  rewrite Hinit, (proj2 (Z.eqb_neq wanted 0)) by exact Hw.
  rewrite Hl. simpl.
  rewrite (proj2 (Z.leb_le _ _)) by exact Hfit. rewrite ?Hinit. reflexivity.
Qed.

Lemma u64_sub_add a b c : u64 (u64 (a - b) + c) = u64 (a - b + c).
Proof. unfold u64, wrap. apply Zplus_mod_idemp_l. Qed.



(** X4: a block takes the size of its last user.  Once a block freed with
    [big] bytes has served a smaller request and was freed with that size,
    the free list holds it with the small size, and the next request of
    [big] bytes is served from fresh memory. *)
Theorem heap_block_shrinks (ptr big small : Z) (w : World) :
  bump_fits w (block_size big) ->
  ptr <> NULL -> big <> 0 -> small <> 0 ->
  block_size small < block_size big ->
  exists w',
    (heap_free ptr big;; p ← heap_allocate small; heap_free p small;;
     heap_allocate big) w
    = Done (hp_current (heap w)) w'
    /\ hp_free_list (heap w') = [mkFreeBlock ptr (block_size small)]
    /\ hp_current (heap w') = hp_current (heap w) + block_size big.
Proof.
  intros (Hinit & Hfree & Hpos & Hroom) Hp Hb Hs Hlt.
  destruct (heap_free_run ptr big w Hp Hb) as (w1 & E1 & Hh1 & _).
  erewrite bind_done by exact E1.
  assert (E2 := heap_allocate_first ptr (block_size big) [] small w1).
  rewrite Hh1, Hfree in E2. simpl in E2.
  specialize (E2 Hinit Hs eq_refl ltac:(lia)).
  erewrite bind_done by exact E2.
  match type of E2 with _ = Done _ ?w => set (w2 := w) in * end.
  destruct (heap_free_run ptr small w2 Hp Hs) as (w3 & E3 & Hh3 & _).
  erewrite bind_done by exact E3.
  subst w2. simpl in Hh3. rewrite ?Hh1 in Hh3. simpl in Hh3.
  unfold heap_allocate, heap_allocate_initialized. munfold. simpl.
  rewrite Hh3. simpl. rewrite Hinit, (proj2 (Z.eqb_neq big 0)) by exact Hb.
  simpl. rewrite !Hh3. simpl.
  rewrite (proj2 (Z.leb_gt _ _)) by exact Hlt.
  rewrite (proj2 (Z.ltb_ge _ _)) by lia.
  eexists. split; [reflexivity|]. simpl. auto.
Qed.

Lemma heap_block_shrinks_witness :
  exists w',
    (heap_free 4096 64;; p ← heap_allocate 24; heap_free p 24;;
     heap_allocate 64) block_world
    = Done 4160 w'
    /\ hp_free_list (heap w') = [mkFreeBlock 4096 24]
    /\ hp_current (heap w') = 4160 + 64.
Proof.
  apply (heap_block_shrinks 4096 64 24 block_world).
  - repeat split; vm_compute; congruence.
  - discriminate.
  - discriminate.
  - discriminate.
  - vm_compute. reflexivity.
Defined.

(** X5: the rounding of a request wraps.  A request of more than
    [SIZE_MAX - 7] bytes is rounded to 0 and then raised to the minimum
    block: [heap_allocate] succeeds and hands out 16 bytes. *)
Theorem heap_allocate_huge_request (bytes : Z) (w : World) :
  2 ^ 64 - 8 < bytes < 2 ^ 64 ->
  bump_fits w 16 ->
  exists w',
    heap_allocate bytes w = Done (hp_current (heap w)) w'
    /\ hp_current (heap w') = hp_current (heap w) + 16.
Proof.
  intros Hb (Hinit & Hfree & Hpos & Hroom).
  destruct (heap_allocate_bump bytes w Hinit Hfree ltac:(lia))
    as (h & E & _ & _ & Hc & _).
  - rewrite block_size_wraps by exact Hb. exact Hroom.
  - eexists. split; [exact E|]. simpl. rewrite Hc, block_size_wraps by exact Hb.
    reflexivity.
Qed.

Lemma heap_allocate_huge_request_witness :
  exists w',
    heap_allocate (2 ^ 64 - 1) heap_world = Done 4096 w'
    /\ hp_current (heap w') = 4096 + 16.
Proof.
  apply (heap_allocate_huge_request (2 ^ 64 - 1) heap_world).
  - lia.
  - repeat split; vm_compute; congruence.
Defined.

Lemma heap_init_again size w :
  hp_initialized (heap w) = true -> heap_init size w = Done 1 w.
Proof.
  intros Hinit. unfold heap_init. munfold. rewrite Hinit. reflexivity.
Qed.

(** The first [heap_init], by the answer of [mmap]. *)
Lemma heap_init_run (size : Z) (w : World) :
  hp_initialized (heap w) = false -> 0 <= size <= 2 ^ 64 - 4096 ->
  (os_mmap w = None -> heap_init size w = Done 0 w)
  /\ (forall base, os_mmap w = Some base -> base <> NULL ->
      exists w',
        heap_init size w = Done 1 w'
        /\ hp_initialized (heap w') = true
        /\ hp_total_size (heap w') mod 4096 = 0
        /\ (if size =? 0 then hp_total_size (heap w') = DEFAULT_HEAP_SIZE
            else size <= hp_total_size (heap w') < size + 4096)
        /\ hp_current (heap w') = base
        /\ hp_end (heap w') = base + hp_total_size (heap w')
        /\ hp_used (heap w') = 0
        /\ hp_free_list (heap w') = []
        /\ forall size', heap_init size' w' = Done 1 w').
Proof.
  intros Hinit Hsize. split.
  - intros Hmap. unfold heap_init, sys_mmap. munfold.
    rewrite Hinit, Hmap. reflexivity.
  - intros base Hmap Hbase. unfold heap_init, sys_mmap. munfold.
    rewrite Hinit, Hmap. simpl.
    rewrite (proj2 (Z.eqb_neq base NULL)) by exact Hbase.
    eexists. split; [reflexivity|]. simpl.
    set (n := if size =? 0 then DEFAULT_HEAP_SIZE else size).
    assert (Hn : 0 < n <= 2 ^ 64 - 4096).
    { subst n. destruct (Z.eqb_spec size 0); [vm_compute; split; congruence | lia]. }
    unfold u64. rewrite (wrap_small 64 (n + 4096 - 1)) by lia.
    rewrite clear64_low12 by lia.
    pose proof (Z.div_mod (n + 4096 - 1) 4096 ltac:(lia)).
    pose proof (Z.mod_pos_bound (n + 4096 - 1) 4096 ltac:(lia)).
    split; [reflexivity|].
    split; [rewrite Z.mul_comm; apply Z_mod_mult|].
    split.
    { subst n. destruct (Z.eqb_spec size 0); [reflexivity | lia]. }
    repeat (split; [reflexivity|]).
    intros size'. reflexivity.
Qed.

(** X6: [heap_init] maps the requested size rounded up to a multiple of
    the page size, 16 MiB for a request of 0, and reports failure of
    [mmap] with 0; once the heap is set up every further [heap_init],
    whatever its size, returns 1 and changes nothing. *)
Theorem heap_init_spec (size : Z) (w : World) :
  hp_initialized (heap w) = false -> 0 <= size <= 2 ^ 64 - 4096 ->
  (os_mmap w = None -> heap_init size w = Done 0 w)
  /\ (forall base, os_mmap w = Some base -> base <> NULL ->
      exists w',
        heap_init size w = Done 1 w'
        /\ hp_initialized (heap w') = true
        /\ hp_total_size (heap w') mod 4096 = 0
        /\ (if size =? 0 then hp_total_size (heap w') = DEFAULT_HEAP_SIZE
            else size <= hp_total_size (heap w') < size + 4096)
        /\ hp_current (heap w') = base
        /\ hp_end (heap w') = base + hp_total_size (heap w')
        /\ hp_used (heap w') = 0
        /\ hp_free_list (heap w') = []
        /\ forall size', heap_init size' w' = Done 1 w').
Proof. exact (heap_init_run size w). Qed.

Lemma heap_init_spec_witness :
  exists w',
    heap_init 5000 boot_world = Done 1 w'
    /\ hp_initialized (heap w') = true
    /\ hp_total_size (heap w') mod 4096 = 0
    /\ 5000 <= hp_total_size (heap w') < 5000 + 4096
    /\ hp_current (heap w') = 4096
    /\ hp_end (heap w') = 4096 + hp_total_size (heap w')
    /\ hp_used (heap w') = 0
    /\ hp_free_list (heap w') = []
    /\ forall size', heap_init size' w' = Done 1 w'.
Proof.
  apply (proj2 (heap_init_spec 5000 boot_world eq_refl ltac:(lia)) 4096).
  - reflexivity.
  - discriminate.
Defined.

(** X7: the first [heap_allocate] on a heap that was not set up maps the
    default 16 MiB itself; a [heap_init] that comes later, with whatever
    size, reports success and leaves the heap at 16 MiB. *)
Theorem heap_allocate_sets_up_heap (bytes base : Z) (w : World) :
  hp_initialized (heap w) = false ->
  os_mmap w = Some base -> base <> NULL ->
  exists p w',
    heap_allocate bytes w = Done p w'
    /\ hp_initialized (heap w') = true
    /\ hp_total_size (heap w') = DEFAULT_HEAP_SIZE
    /\ forall size, heap_init size w' = Done 1 w'.
Proof.
  intros Hinit Hmap Hbase.
  destruct (proj2 (heap_init_run 0 w Hinit ltac:(lia)) base Hmap Hbase)
    as (w1 & E1 & Hi1 & _ & Ht1 & _).
  simpl in Ht1.
  assert (Hagain : forall h,
            hp_initialized h = true -> hp_total_size h = DEFAULT_HEAP_SIZE ->
            hp_initialized (heap (set_heap h w1)) = true
            /\ hp_total_size (heap (set_heap h w1)) = DEFAULT_HEAP_SIZE
            /\ forall size,
                 heap_init size (set_heap h w1) = Done 1 (set_heap h w1)).
  { intros h Hi Ht. simpl. split; [exact Hi|]. split; [exact Ht|].
    intros size. apply heap_init_again. exact Hi. }
  assert (Hsame : set_heap (heap w1) w1 = w1) by (destruct w1; reflexivity).
  unfold heap_allocate. munfold. cbv beta. rewrite Hinit, E1.
  cbv beta iota. change (1 =? 0) with false. cbv iota.
  unfold heap_allocate_initialized. munfold. cbv beta.
  destruct (bytes =? 0).
  { exists NULL, w1. split; [reflexivity|]. rewrite <- Hsame.
    apply Hagain; assumption. }
  cbv zeta.
  destruct (take_first_fit _ _) as [[b r]|].
  { eexists _, _. split; [reflexivity|]. apply Hagain; simpl; assumption. }
  destruct (_ <? _).
  { exists NULL, w1. split; [reflexivity|]. rewrite <- Hsame.
    apply Hagain; assumption. }
  eexists _, _. split; [reflexivity|]. apply Hagain; simpl; assumption.
Qed.

Lemma heap_allocate_sets_up_heap_witness :
  exists p w',
    heap_allocate 100 boot_world = Done p w'
    /\ hp_initialized (heap w') = true
    /\ hp_total_size (heap w') = DEFAULT_HEAP_SIZE
    /\ forall size, heap_init size w' = Done 1 w'.
Proof.
  apply (heap_allocate_sets_up_heap 100 4096 boot_world).
  - reflexivity.
  - reflexivity.
  - discriminate.
Defined.

(** X8: two requests served from the bump region get blocks that do not
    overlap, lie inside the mapped region, and are a multiple of 8 bytes
    apart. *)
Theorem heap_allocate_twice (b1 b2 : Z) (w : World) :
  0 < b1 <= 2 ^ 64 - 8 -> 0 < b2 <= 2 ^ 64 - 8 ->
  bump_fits w (block_size b1 + block_size b2) ->
  exists p1 w1 p2 w2,
    heap_allocate b1 w = Done p1 w1
    /\ heap_allocate b2 w1 = Done p2 w2
    /\ p1 = hp_current (heap w)
    /\ p1 + b1 <= p2
    /\ p2 + b2 <= hp_current (heap w2) <= hp_end (heap w)
    /\ (p2 - p1) mod 8 = 0.
Proof.
  intros Hb1 Hb2 (Hinit & Hfree & Hpos & Hroom).
  pose proof (block_size_bounds b1 Hb1) as [Hs1 Hm1].
  pose proof (block_size_bounds b2 Hb2) as [Hs2 Hm2].
  destruct (heap_allocate_bump b1 w Hinit Hfree ltac:(lia) ltac:(lia))
    as (h1 & E1 & Hi1 & Hf1 & Hc1 & He1).
  destruct (heap_allocate_bump b2 (set_heap h1 w) Hi1 Hf1 ltac:(lia))
    as (h2 & E2 & Hi2 & Hf2 & Hc2 & He2).
  { simpl. lia. }
  simpl in *.
  exists (hp_current (heap w)), (set_heap h1 w), (hp_current h1).
  eexists. split; [exact E1|]. split; [exact E2|]. simpl.
  split; [reflexivity|]. split; [lia|]. split; [lia|].
  rewrite Hc1. replace (hp_current (heap w) + block_size b1 - hp_current (heap w))
    with (block_size b1) by lia. exact Hm1.
Qed.

Lemma heap_allocate_twice_witness :
  exists p1 w1 p2 w2,
    heap_allocate 20 heap_world = Done p1 w1
    /\ heap_allocate 3 w1 = Done p2 w2
    /\ p1 = hp_current (heap heap_world)
    /\ p1 + 20 <= p2
    /\ p2 + 3 <= hp_current (heap w2) <= hp_end (heap heap_world)
    /\ (p2 - p1) mod 8 = 0.
Proof.
  apply (heap_allocate_twice 20 3 heap_world).
  - lia.
  - lia.
  - repeat split; vm_compute; congruence.
Defined.

(** ** The mailbox is a bounded FIFO *)

Lemma mod_pow2_u32 x k :
  0 <= k <= 32 -> u32 x mod 2 ^ k = x mod 2 ^ k.
Proof.
  intros Hk. unfold u32, wrap.
  apply Z.mod_mod_divide.
  exists (2 ^ (32 - k)). rewrite <- Z.pow_add_r by lia. f_equal. lia.
Qed.

Lemma mod_inj_small a b n :
  0 < n -> a mod n = b mod n -> - n < a - b < n -> a = b.
Proof.
  intros Hn Hm Hd.
  pose proof (Z.div_mod a n ltac:(lia)).
  pose proof (Z.div_mod b n ltac:(lia)).
  assert (a - b = n * (a / n - b / n)) by lia.
  assert (a / n - b / n = 0) by nia. lia.
Qed.

Section Fifo.
Variables (q : SignalQueue) (k : Z).
Hypothesis Hwf : queue_wf q.
Hypothesis Hk : 0 <= k < 32.
Hypothesis Hcap : q_capacity q = 2 ^ k.

Lemma slot_of_mod i :
  slot_of q i = Z.to_nat ((q_head q + Z.of_nat i) mod 2 ^ k).
Proof.
  unfold slot_of. rewrite (wf_mask q Hwf), Hcap, land_mask by lia.
  rewrite mod_pow2_u32 by lia. reflexivity.
Qed.

Lemma slot_of_lt i : (slot_of q i < length (q_buffer q))%nat.
Proof.
  rewrite slot_of_mod, (wf_buffer q Hwf), Hcap.
  assert (0 < 2 ^ k) by (apply Z.pow_pos_nonneg; lia).
  pose proof (Z.mod_pos_bound (q_head q + Z.of_nat i) (2 ^ k) ltac:(lia)).
  lia.
Qed.

Lemma slot_of_inj i j :
  Z.of_nat i < 2 ^ k -> Z.of_nat j < 2 ^ k ->
  slot_of q i = slot_of q j -> i = j.
Proof.
  intros Hi Hj E. rewrite !slot_of_mod in E.
  assert (0 < 2 ^ k) by (apply Z.pow_pos_nonneg; lia).
  pose proof (Z.mod_pos_bound (q_head q + Z.of_nat i) (2 ^ k) ltac:(lia)).
  pose proof (Z.mod_pos_bound (q_head q + Z.of_nat j) (2 ^ k) ltac:(lia)).
  apply Z2Nat.inj in E; [|lia|lia].
  apply mod_inj_small in E; lia.
Qed.

Lemma enqueue_index_slot : enqueue_index q = slot_of q (Z.to_nat (q_count q)).
Proof.
  unfold enqueue_index, slot_of. rewrite (wf_tail q Hwf).
  pose proof (wf_count q Hwf). rewrite Z2Nat.id by lia. reflexivity.
Qed.

Lemma dequeue_index_slot : dequeue_index q = slot_of q 0.
Proof.
  unfold dequeue_index, slot_of. simpl. rewrite Z.add_0_r.
  rewrite u32_small by (apply (wf_head q Hwf)). reflexivity.
Qed.

Lemma queue_contents_pushed signal :
  q_count q < q_capacity q ->
  queue_contents (queue_pushed (queue_write (enqueue_index q) signal q))
  = queue_contents q ++ [signal].
Proof.
  intros Hroom. pose proof (wf_count q Hwf) as Hc.
  pose proof (wf_capacity q Hwf) as Hr.
  unfold queue_contents. simpl.
  rewrite u32_small by lia.
  replace (Z.to_nat (q_count q + 1)) with (S (Z.to_nat (q_count q))) by lia.
  rewrite seq_S, map_app. simpl. f_equal.
  - apply map_ext_in. intros i Hi. apply in_seq in Hi.
    change (slot_of (queue_pushed (queue_write (enqueue_index q) signal q)) i)
      with (slot_of q i).
    rewrite list_lookup_insert_ne; [reflexivity|].
    rewrite enqueue_index_slot. intros E. apply slot_of_inj in E; lia.
  - change (slot_of (queue_pushed (queue_write (enqueue_index q) signal q))
                    (Z.to_nat (q_count q)))
      with (slot_of q (Z.to_nat (q_count q))).
    rewrite enqueue_index_slot.
    rewrite list_lookup_insert_eq by apply slot_of_lt. reflexivity.
Qed.

Lemma queue_contents_popped :
  q_count q <> 0 ->
  queue_contents q
  = default NULL (q_buffer q !! dequeue_index q)
    :: queue_contents (queue_popped (queue_write (dequeue_index q) NULL q)).
Proof.
  intros Hne. pose proof (wf_count q Hwf) as Hc.
  pose proof (wf_capacity q Hwf) as Hr.
  unfold queue_contents at 1.
  replace (Z.to_nat (q_count q)) with (S (Z.to_nat (q_count q - 1))) by lia.
  rewrite <- cons_seq. simpl map. rewrite dequeue_index_slot. f_equal.
  unfold queue_contents. simpl q_count. rewrite u32_small by lia.
  rewrite <- seq_shift, map_map.
  apply map_ext_in. intros i Hi. apply in_seq in Hi.
  assert (Es : slot_of (queue_popped (queue_write (slot_of q 0) NULL q)) i
               = slot_of q (S i)).
  { unfold slot_of. simpl q_head. simpl q_mask.
    rewrite u32_add_assoc. do 3 f_equal. lia. }
  rewrite Es. simpl q_buffer.
  rewrite list_lookup_insert_ne; [reflexivity|].
  intros E. apply slot_of_inj in E; lia.
Qed.
End Fifo.

Lemma pow2_capacity_drop q : pow2_capacity q -> pow2_capacity (queue_drop q).
Proof. intros H; exact H. Qed.

Lemma queue_contents_drop q : queue_contents (queue_drop q) = queue_contents q.
Proof. reflexivity. Qed.

Lemma enqueue_fifo_step (queue signal : Z) (q : SignalQueue)
    (s : Signal) (w : World) :
  queue <> NULL -> signal <> NULL ->
  queues w !! queue = Some q -> queue_wf q -> pow2_capacity q ->
  signals w !! signal = Some s ->
  exists status w' q',
    signal_queue_enqueue queue signal w = Done status w'
    /\ queues w' !! queue = Some q'
    /\ queue_wf q' /\ pow2_capacity q'
    /\ q_capacity q' = q_capacity q
    /\ (forall p, is_Some (signals w !! p) -> is_Some (signals w' !! p))
    /\ (if q_count q <? q_capacity q
        then status = SIGNAL_OK
             /\ queue_contents q' = queue_contents q ++ [signal]
        else status = SIGNAL_ERR_QUEUE_FULL
             /\ queue_contents q' = queue_contents q).
Proof.
  intros Hq Hs Hlq Hwf (k & Hk & Hcap) Hls.
  destruct (Z.ltb_spec (q_count q) (q_capacity q)) as [Hroom|Hfull].
  - eexists _, _, _. split.
    { apply (signal_queue_enqueue_ok queue signal q s); auto.
      apply enqueue_index_lt; exact Hwf. }
    simpl. rewrite lookup_insert_eq. split; [reflexivity|].
    split; [apply queue_wf_pushed; assumption|].
    split; [exists k; split; [exact Hk | exact Hcap]|].
    split; [reflexivity|].
    split.
    { intros p Hp. destruct (Z.eq_dec p signal) as [->|Hne].
      - rewrite lookup_insert_eq. eauto.
      - rewrite lookup_insert_ne by congruence. exact Hp. }
    split; [reflexivity|].
    apply (queue_contents_pushed q k); assumption.
  - eexists _, _, _. split.
    { apply (signal_queue_enqueue_full queue signal q); auto. }
    simpl. rewrite lookup_insert_eq. split; [reflexivity|].
    split; [apply queue_wf_drop; assumption|].
    split; [exists k; split; [exact Hk | exact Hcap]|].
    split; [reflexivity|].
    split; [intros p Hp; exact Hp|].
    split; reflexivity.
Qed.

Lemma dequeue_fifo_step (queue : Z) (q : SignalQueue) (w : World) :
  queue <> NULL ->
  queues w !! queue = Some q -> queue_wf q -> pow2_capacity q ->
  exists sig w' q',
    signal_queue_dequeue queue w = Done sig w'
    /\ queues w' !! queue = Some q'
    /\ queue_wf q' /\ pow2_capacity q'
    /\ signals w' = signals w
    /\ match queue_contents q with
       | [] => sig = NULL /\ w' = w
       | first :: rest => sig = first /\ queue_contents q' = rest
       end.
Proof.
  intros Hq Hlq Hwf (k & Hk & Hcap).
  destruct (Z.eq_dec (q_count q) 0) as [Hz|Hnz].
  - exists NULL, w, q. split.
    { apply (signal_queue_dequeue_empty queue q); assumption. }
    split; [exact Hlq|]. split; [exact Hwf|].
    split; [exists k; auto|]. split; [reflexivity|].
    unfold queue_contents. rewrite Hz. simpl. auto.
  - destruct (lookup_lt_is_Some_2 (q_buffer q) (dequeue_index q)
                (dequeue_index_lt q Hwf)) as [sig Hsig].
    eexists sig, _, _. split.
    { apply (signal_queue_dequeue_ok queue q sig); assumption. }
    simpl. rewrite lookup_insert_eq. split; [reflexivity|].
    split; [apply queue_wf_popped; assumption|].
    split; [exists k; split; [exact Hk | exact Hcap]|].
    split; [reflexivity|].
    rewrite (queue_contents_popped q k Hwf Hk Hcap Hnz), Hsig. simpl. auto.
Qed.

(** X9: on the references waiting in a mailbox, oldest first, a
    [signal_queue_enqueue] that finds room appends the signal at the end;
    one that finds the mailbox full leaves the sequence as it was. *)
Theorem signal_queue_enqueue_fifo (queue signal : Z) (q : SignalQueue)
    (s : Signal) (w : World) :
  queue <> NULL -> signal <> NULL ->
  queues w !! queue = Some q -> queue_wf q -> pow2_capacity q ->
  signals w !! signal = Some s ->
  exists status w' q',
    signal_queue_enqueue queue signal w = Done status w'
    /\ queues w' !! queue = Some q'
    /\ queue_wf q' /\ pow2_capacity q'
    /\ (if q_count q <? q_capacity q
        then status = SIGNAL_OK
             /\ queue_contents q' = queue_contents q ++ [signal]
        else status = SIGNAL_ERR_QUEUE_FULL
             /\ queue_contents q' = queue_contents q).
Proof.
  intros Hq Hs Hlq Hwf Hp2 Hls.
  destruct (enqueue_fifo_step queue signal q s w Hq Hs Hlq Hwf Hp2 Hls)
    as (status & w' & q' & E & Hq' & Hwf' & Hp2' & _ & _ & Hc).
  exists status, w', q'. auto.
Qed.

(** X10: [signal_queue_dequeue] returns the oldest reference and leaves
    the others in their order; on an empty mailbox it returns [NULL] and
    changes nothing.  The reference counts are not touched. *)
Theorem signal_queue_dequeue_fifo (queue : Z) (q : SignalQueue) (w : World) :
  queue <> NULL ->
  queues w !! queue = Some q -> queue_wf q -> pow2_capacity q ->
  exists sig w' q',
    signal_queue_dequeue queue w = Done sig w'
    /\ queues w' !! queue = Some q'
    /\ queue_wf q' /\ pow2_capacity q'
    /\ signals w' = signals w
    /\ match queue_contents q with
       | [] => sig = NULL /\ w' = w
       | first :: rest => sig = first /\ queue_contents q' = rest
       end.
Proof.
  apply dequeue_fifo_step.
Qed.

Lemma signal_queue_enqueue_fifo_witness :
  exists status w' q',
    signal_queue_enqueue 4216 4096 broadcast_world = Done status w'
    /\ queues w' !! 4216 = Some q'
    /\ queue_wf q' /\ pow2_capacity q'
    /\ status = SIGNAL_OK
    /\ queue_contents q' = [] ++ [4096].
Proof.
  apply (signal_queue_enqueue_fifo 4216 4096
           (mkQueue 4272 [0; 0] 2 1 0 0 0 0 0 0 0 1 0)
           (mkSignal 7 1 3 1 4128 4 8 0) broadcast_world).
  - discriminate.
  - discriminate.
  - vm_compute; reflexivity.
  - wf_by_computation.
  - exists 1. split; [lia | reflexivity].
  - vm_compute; reflexivity.
Defined.

(** The mailbox at 4216 of [broadcast_world] once the signal at 4096 was
    enqueued twice. *)
Lemma signal_queue_dequeue_fifo_witness :
  let w := world_of (enqueue_all 4216 [4096; 4096] broadcast_world) in
  exists sig w' q',
    signal_queue_dequeue 4216 w = Done sig w'
    /\ queues w' !! 4216 = Some q'
    /\ queue_wf q' /\ pow2_capacity q'
    /\ signals w' = signals w
    /\ sig = 4096 /\ queue_contents q' = [4096].
Proof.
  apply (signal_queue_dequeue_fifo 4216
           (mkQueue 4272 [4096; 4096] 2 1 0 2 2 2 0 0 0 1 0)
           (world_of (enqueue_all 4216 [4096; 4096] broadcast_world))).
  - discriminate.
  - vm_compute; reflexivity.
  - wf_by_computation.
  - exists 1. split; [lia | reflexivity].
Defined.

Lemma queue_contents_length q :
  length (queue_contents q) = Z.to_nat (q_count q).
Proof. unfold queue_contents. rewrite length_map, length_seq. reflexivity. Qed.

Lemma enqueue_all_contents queue l : forall q w,
  queue <> NULL -> queues w !! queue = Some q ->
  queue_wf q -> pow2_capacity q ->
  q_count q + Z.of_nat (length l) <= q_capacity q ->
  Forall (fun signal => signal <> NULL /\ is_Some (signals w !! signal)) l ->
  exists w' q',
    enqueue_all queue l w = Done tt w'
    /\ queues w' !! queue = Some q'
    /\ queue_wf q' /\ pow2_capacity q'
    /\ queue_contents q' = queue_contents q ++ l.
Proof.
  induction l as [|signal l IH]; intros q w Hq Hlq Hwf Hp2 Hroom Hl.
  - exists w, q. rewrite app_nil_r. auto.
  - apply Forall_cons in Hl as [[Hs [s Hls]] Hl].
    simpl length in Hroom.
    destruct (enqueue_fifo_step queue signal q s w Hq Hs Hlq Hwf Hp2 Hls)
      as (status & w1 & q1 & E1 & Hlq1 & Hwf1 & Hp21 & Hcap1 & Hlive & Hc).
    rewrite (proj2 (Z.ltb_lt _ _)) in Hc by lia. destruct Hc as [-> Hc].
    destruct (IH q1 w1 Hq Hlq1 Hwf1 Hp21) as (w' & q' & E & Hlq' & Hwf' & Hp2' & Hc').
    + pose proof (queue_contents_length q1) as Hlen.
      rewrite Hc, length_app, queue_contents_length in Hlen. simpl in Hlen.
      pose proof (wf_count q Hwf). pose proof (wf_count q1 Hwf1). lia.
    + eapply Forall_impl; [exact Hl|]. intros p [Hp Hp']. auto.
    + exists w', q'. simpl. erewrite bind_done by exact E1.
      split; [exact E|]. split; [exact Hlq'|]. split; [exact Hwf'|].
      split; [exact Hp2'|]. rewrite Hc', Hc, <- app_assoc. reflexivity.
Qed.

Lemma dequeue_many_contents queue n : forall q w,
  queue <> NULL -> queues w !! queue = Some q ->
  queue_wf q -> pow2_capacity q ->
  (n <= length (queue_contents q))%nat ->
  exists w' q',
    dequeue_many n queue w = Done (take n (queue_contents q)) w'
    /\ queues w' !! queue = Some q'
    /\ queue_wf q' /\ pow2_capacity q'
    /\ queue_contents q' = drop n (queue_contents q).
Proof.
  induction n as [|n IH]; intros q w Hq Hlq Hwf Hp2 Hn.
  - exists w, q. auto.
  - destruct (dequeue_fifo_step queue q w Hq Hlq Hwf Hp2)
      as (sig & w1 & q1 & E1 & Hlq1 & Hwf1 & Hp21 & _ & Hc).
    destruct (queue_contents q) as [|first rest] eqn:Ec; [simpl in Hn; lia|].
    destruct Hc as [-> Hc]. simpl in Hn.
    destruct (IH q1 w1 Hq Hlq1 Hwf1 Hp21 ltac:(rewrite Hc; lia))
      as (w' & q' & E & Hlq' & Hwf' & Hp2' & Hc').
    exists w', q'. simpl. erewrite bind_done by exact E1.
    erewrite bind_done by exact E. rewrite Hc. split; [reflexivity|].
    split; [exact Hlq'|]. split; [exact Hwf'|]. split; [exact Hp2'|].
    rewrite Hc', Hc. reflexivity.
Qed.

(** X11: first in, first out.  When the signals of a list that fits are
    enqueued into an empty mailbox, that many [signal_queue_dequeue] give
    them back in the order in which they were enqueued. *)
Theorem mailbox_fifo_order (queue : Z) (l : list Z) (q : SignalQueue)
    (w : World) :
  queue <> NULL -> queues w !! queue = Some q ->
  queue_wf q -> pow2_capacity q ->
  q_count q = 0 -> Z.of_nat (length l) <= q_capacity q ->
  Forall (fun signal => signal <> NULL /\ is_Some (signals w !! signal)) l ->
  exists w',
    (enqueue_all queue l;; dequeue_many (length l) queue) w = Done l w'.
Proof.
  intros Hq Hlq Hwf Hp2 Hempty Hfit Hl.
  destruct (enqueue_all_contents queue l q w Hq Hlq Hwf Hp2 ltac:(lia) Hl)
    as (w1 & q1 & E1 & Hlq1 & Hwf1 & Hp21 & Hc1).
  assert (Hnil : queue_contents q = []).
  { apply length_zero_iff_nil. rewrite queue_contents_length, Hempty.
    reflexivity. }
  rewrite Hnil in Hc1. simpl in Hc1.
  destruct (dequeue_many_contents queue (length l) q1 w1 Hq Hlq1 Hwf1 Hp21
              ltac:(rewrite Hc1; lia))
    as (w2 & q2 & E2 & _).
  exists w2. erewrite bind_done by exact E1.
  rewrite E2, Hc1, firstn_all. reflexivity.
Qed.

Lemma mailbox_fifo_order_witness :
  exists w',
    (enqueue_all 4216 [4096; 4288];; dequeue_many 2 4216) two_signals_world
    = Done [4096; 4288] w'.
Proof.
  apply (mailbox_fifo_order 4216 [4096; 4288]
           (mkQueue 4272 [0; 0] 2 1 0 0 0 0 0 0 0 1 0) two_signals_world).
  - discriminate.
  - vm_compute; reflexivity.
  - wf_by_computation.
  - exists 1. split; [lia | reflexivity].
  - reflexivity.
  - simpl; lia.
  - repeat constructor; try discriminate; vm_compute; eauto.
Defined.

Lemma queue_contents_head q :
  queue_wf q -> q_count q <> 0 ->
  head (queue_contents q) = Some (default NULL (q_buffer q !! dequeue_index q)).
Proof.
  intros Hwf Hnz. pose proof (wf_count q Hwf).
  unfold queue_contents.
  replace (Z.to_nat (q_count q)) with (S (Z.to_nat (q_count q - 1))) by lia.
  rewrite <- cons_seq. simpl. do 3 f_equal.
  unfold slot_of, dequeue_index. simpl. rewrite Z.add_0_r.
  rewrite u32_small by (apply (wf_head q Hwf)). reflexivity.
Qed.

(** X12: [signal_queue_peek] returns the reference the next
    [signal_queue_dequeue] will return, [NULL] on an empty mailbox and on a
    null mailbox, and changes nothing. *)
Theorem signal_queue_peek_spec (queue : Z) (q : SignalQueue) (w : World) :
  queue <> NULL -> queues w !! queue = Some q -> queue_wf q ->
  let oldest := default NULL (head (queue_contents q)) in
  signal_queue_peek queue w = Done oldest w
  /\ (exists w', signal_queue_dequeue queue w = Done oldest w')
  /\ signal_queue_peek NULL w = Done NULL w.
Proof.
  intros Hq Hlq Hwf oldest. subst oldest.
  split; [|split; [|reflexivity]].
  - unfold signal_queue_peek.
    rewrite (proj2 (Z.eqb_neq queue NULL)) by exact Hq.
    erewrite bind_done by (apply load_done; eassumption).
    destruct (Z.eqb_spec (q_count q) 0) as [Hz|Hnz].
    + unfold queue_contents. rewrite Hz. reflexivity.
    + rewrite queue_contents_head by assumption. simpl.
      fold (dequeue_index q).
      destruct (lookup_lt_is_Some_2 (q_buffer q) (dequeue_index q)
                  (dequeue_index_lt q Hwf)) as [sig Hsig].
      rewrite Hsig. reflexivity.
  - destruct (Z.eq_dec (q_count q) 0) as [Hz|Hnz].
    + exists w. unfold queue_contents. rewrite Hz. simpl.
      apply (signal_queue_dequeue_empty queue q); assumption.
    + rewrite queue_contents_head by assumption. simpl.
      destruct (lookup_lt_is_Some_2 (q_buffer q) (dequeue_index q)
                  (dequeue_index_lt q Hwf)) as [sig Hsig].
      rewrite Hsig. simpl. eexists.
      apply (signal_queue_dequeue_ok queue q sig); assumption.
Qed.

Lemma signal_queue_peek_spec_witness :
  let w := world_of (enqueue_all 4216 [4096; 4288] two_signals_world) in
  signal_queue_peek 4216 w = Done 4096 w
  /\ (exists w', signal_queue_dequeue 4216 w = Done 4096 w')
  /\ signal_queue_peek NULL w = Done NULL w.
Proof.
  apply (signal_queue_peek_spec 4216
           (mkQueue 4272 [4096; 4288] 2 1 0 2 2 2 0 0 0 1 0)
           (world_of (enqueue_all 4216 [4096; 4288] two_signals_world))).
  - discriminate.
  - vm_compute; reflexivity.
  - wf_by_computation.
Defined.

(** X13: the status functions agree with the operations.  What
    [signal_queue_is_full] answers is whether the next enqueue is rejected
    with [SIGNAL_ERR_QUEUE_FULL], and what [signal_queue_is_empty] answers
    is whether the next dequeue finds nothing and changes nothing.  A null
    mailbox is reported both full and empty. *)
Theorem signal_queue_status_spec (queue signal : Z) (q : SignalQueue)
    (s : Signal) (w : World) :
  queue <> NULL -> signal <> NULL ->
  queues w !! queue = Some q -> queue_wf q ->
  signals w !! signal = Some s ->
  exists full empty w1 taken w2 q2,
    signal_queue_is_full queue w = Done full w
    /\ signal_queue_enqueue queue signal w
       = Done (if full then SIGNAL_ERR_QUEUE_FULL else SIGNAL_OK) w1
    /\ signal_queue_is_empty queue w = Done empty w
    /\ signal_queue_dequeue queue w = Done taken w2
    /\ queues w2 !! queue = Some q2
    /\ (if empty then taken = NULL /\ w2 = w
        else q_count q2 = q_count q - 1)
    /\ signal_queue_is_full NULL w = Done true w
    /\ signal_queue_is_empty NULL w = Done true w.
Proof.
  intros Hq Hs Hlq Hwf Hls.
  pose proof (wf_count q Hwf) as Hc. pose proof (wf_capacity q Hwf) as Hr.
  exists (q_capacity q <=? q_count q), (q_count q =? 0).
  assert (Efull : signal_queue_is_full queue w
                  = Done (q_capacity q <=? q_count q) w).
  { unfold signal_queue_is_full.
    rewrite (proj2 (Z.eqb_neq queue NULL)) by exact Hq. simpl.
    erewrite bind_done by (apply load_done; eassumption). reflexivity. }
  assert (Eempty : signal_queue_is_empty queue w = Done (q_count q =? 0) w).
  { unfold signal_queue_is_empty.
    rewrite (proj2 (Z.eqb_neq queue NULL)) by exact Hq.
    erewrite bind_done by (apply load_done; eassumption). reflexivity. }
  assert (Henq : exists w1, signal_queue_enqueue queue signal w
                   = Done (if q_capacity q <=? q_count q
                           then SIGNAL_ERR_QUEUE_FULL else SIGNAL_OK) w1).
  { destruct (Z.leb_spec (q_capacity q) (q_count q)).
    - eexists. apply (signal_queue_enqueue_full queue signal q); auto.
    - eexists. apply (signal_queue_enqueue_ok queue signal q s); auto.
      apply enqueue_index_lt; exact Hwf. }
  destruct Henq as (w1 & Henq). exists w1.
  destruct (Z.eqb_spec (q_count q) 0) as [Hz|Hnz].
  - exists NULL, w, q. repeat split; auto.
    apply (signal_queue_dequeue_empty queue q); assumption.
  - destruct (lookup_lt_is_Some_2 (q_buffer q) (dequeue_index q)
                (dequeue_index_lt q Hwf)) as [sig Hsig].
    eexists sig, _, _. split; [exact Efull|]. split; [exact Henq|].
    split; [exact Eempty|].
    split; [apply (signal_queue_dequeue_ok queue q sig); assumption|].
    simpl. rewrite lookup_insert_eq. split; [reflexivity|].
    split; [|split; reflexivity]. simpl. apply u32_small. lia.
Qed.

Lemma signal_queue_status_spec_witness :
  let w := world_of (enqueue_all 4216 [4096; 4288] two_signals_world) in
  exists full empty w1 taken w2 q2,
    signal_queue_is_full 4216 w = Done full w
    /\ signal_queue_enqueue 4216 4096 w
       = Done (if full then SIGNAL_ERR_QUEUE_FULL else SIGNAL_OK) w1
    /\ signal_queue_is_empty 4216 w = Done empty w
    /\ signal_queue_dequeue 4216 w = Done taken w2
    /\ queues w2 !! 4216 = Some q2
    /\ (if empty then taken = NULL /\ w2 = w
        else q_count q2 = 2 - 1)
    /\ signal_queue_is_full NULL w = Done true w
    /\ signal_queue_is_empty NULL w = Done true w.
Proof.
  apply (signal_queue_status_spec 4216 4096
           (mkQueue 4272 [4096; 4288] 2 1 0 2 2 2 0 0 0 1 0)
           (mkSignal 7 1 3 2 4128 4 8 0)
           (world_of (enqueue_all 4216 [4096; 4288] two_signals_world))).
  - discriminate.
  - discriminate.
  - vm_compute; reflexivity.
  - wf_by_computation.
  - vm_compute; reflexivity.
Defined.

(** ** Creating a mailbox *)

Lemma heap_allocate_zero w :
  exists h, heap_allocate 0 w = Done NULL (set_heap h w).
Proof.
  destruct (heap_allocate_total 0 w) as (p & w' & E).
  destruct (heap_allocate_inv 0 w p w' E) as [[h ->] Hp].
  destruct (Z.eq_dec p NULL) as [->|Hne]; [eauto|].
  exfalso. apply (Hp Hne). reflexivity.
Qed.

Lemma signal_queue_create_result capacity w queue w' :
  signal_queue_create capacity w = Done queue w' -> queue <> NULL ->
  let cap := if is_power_of_two capacity then capacity
             else next_power_of_two capacity in
  exists buffer,
    queues w' !! queue
    = Some (mkQueue buffer (replicate (Z.to_nat cap) NULL) cap
                    (u32 (cap - 1)) 0 0 0 0 0 0 0 QUEUE_FLAG_ACTIVE 0).
Proof.
  intros E Hq cap. revert E. unfold signal_queue_create. fold cap.
  destruct (heap_allocate_total sizeof_SignalQueue w) as (p1 & w1 & E1).
  rewrite (bind_done _ _ _ _ _ E1).
  destruct (Z.eqb_spec p1 NULL) as [->|Hp1].
  { intros [= <- <-]. exfalso; apply Hq; reflexivity. }
  destruct (heap_allocate_total (u64 (cap * sizeof_ptr)) w1) as (p2 & w2 & E2).
  rewrite (bind_done _ _ _ _ _ E2).
  destruct (Z.eqb_spec p2 NULL) as [->|Hp2].
  { unfold heap_free. munfold. simpl.
    destruct (_ || _); intros [= <- <-]; exfalso; apply Hq; reflexivity. }
  unfold store_queue. munfold. simpl. intros [= <- <-].
  simpl. rewrite lookup_insert_eq. eauto.
Qed.

(** X14: [signal_queue_create] rounds a capacity between 1 and [2 ^ 31] up
    to the next power of two.  The mailbox it returns is empty, has that
    capacity and the matching mask; and it does return one, at the bump
    pointer, when the bump region has room for the structure and the
    ring. *)
Theorem signal_queue_create_rounds (capacity : Z) (w : World) :
  1 <= capacity <= 2 ^ 31 ->
  exists k,
    0 <= k <= 31 /\ capacity <= 2 ^ k < 2 * capacity
    /\ (forall queue w',
          signal_queue_create capacity w = Done queue w' -> queue <> NULL ->
          exists q,
            queues w' !! queue = Some q
            /\ queue_wf q /\ pow2_capacity q
            /\ q_capacity q = 2 ^ k /\ q_mask q = 2 ^ k - 1
            /\ queue_contents q = [])
    /\ (bump_fits w (sizeof_SignalQueue + 16 * capacity) ->
        exists w',
          signal_queue_create capacity w = Done (hp_current (heap w)) w'
          /\ hp_current (heap w) <> NULL).
Proof.
  intros Hc.
  destruct (rounded_capacity_pow2 capacity Hc) as (k & Hk & Ecap & Hb).
  assert (Hpos : 0 < 2 ^ k) by (apply Z.pow_pos_nonneg; lia).
  assert (Hlt : 2 ^ k < 2 ^ 32).
  { apply Z.pow_lt_mono_r; lia. }
  exists k. split; [exact Hk|]. split; [exact Hb|]. split.
  - intros queue w' E Hq.
    destruct (signal_queue_create_inv capacity w queue w' ltac:(lia) E Hq)
      as (q & Hlq & Hwf & Hcount).
    destruct (signal_queue_create_result capacity w queue w' E Hq)
      as (buffer & Hlq').
    rewrite Ecap in Hlq'. rewrite Hlq in Hlq'. injection Hlq' as Eq.
    exists q. split; [exact Hlq|]. split; [exact Hwf|].
    assert (Hcap : q_capacity q = 2 ^ k) by (rewrite Eq; reflexivity).
    split; [exists k; split; [lia | exact Hcap]|].
    split; [exact Hcap|].
    split; [rewrite (wf_mask q Hwf), Hcap; reflexivity|].
    unfold queue_contents. rewrite Hcount. reflexivity.
  - intros (Hinit & Hfree & Hcur & Hroom).
    unfold signal_queue_create. rewrite Ecap.
    destruct (heap_allocate_bump sizeof_SignalQueue w Hinit Hfree
                ltac:(discriminate))
      as (h1 & E1 & Hi1 & Hf1 & Hc1 & He1).
    { change (block_size sizeof_SignalQueue) with sizeof_SignalQueue. lia. }
    erewrite bind_done by exact E1.
    rewrite (proj2 (Z.eqb_neq _ NULL)) by (unfold NULL; lia).
    assert (Hsz : u64 (2 ^ k * sizeof_ptr) = 8 * 2 ^ k).
    { unfold u64, sizeof_ptr. rewrite wrap_small; lia. }
    rewrite Hsz.
    assert (Hbs : block_size (8 * 2 ^ k) <= 16 * capacity).
    { rewrite block_size_eq by lia.
      replace (8 * 2 ^ k + 7) with (7 + 2 ^ k * 8) by lia.
      rewrite Z.div_add by lia. change (7 / 8) with 0. lia. }
    destruct (heap_allocate_bump (8 * 2 ^ k) (set_heap h1 w) Hi1 Hf1
                ltac:(lia))
      as (h2 & E2 & _).
    { simpl. rewrite Hc1, He1.
      change (block_size sizeof_SignalQueue) with sizeof_SignalQueue. lia. }
    erewrite bind_done by exact E2. simpl.
    rewrite (proj2 (Z.eqb_neq _ NULL))
      by (rewrite Hc1; change (block_size sizeof_SignalQueue) with 56;
          unfold NULL; lia).
    unfold store_queue. munfold. eexists. split; [reflexivity|].
    unfold NULL; lia.
Qed.

Lemma signal_queue_create_rounds_witness :
  exists k,
    0 <= k <= 31 /\ 1000 <= 2 ^ k < 2 * 1000
    /\ (forall queue w',
          signal_queue_create 1000 heap_world = Done queue w' ->
          queue <> NULL ->
          exists q,
            queues w' !! queue = Some q
            /\ queue_wf q /\ pow2_capacity q
            /\ q_capacity q = 2 ^ k /\ q_mask q = 2 ^ k - 1
            /\ queue_contents q = [])
    /\ (bump_fits heap_world (sizeof_SignalQueue + 16 * 1000) ->
        exists w',
          signal_queue_create 1000 heap_world
          = Done (hp_current (heap heap_world)) w'
          /\ hp_current (heap heap_world) <> NULL).
Proof.
  apply (signal_queue_create_rounds 1000 heap_world). lia.
Defined.

(** X15: a mailbox of capacity 0, or of a capacity above [2 ^ 31], cannot
    be created.  The capacity is rounded to 0, the ring is requested with
    0 bytes, which [heap_allocate] refuses, and [signal_queue_create]
    returns [NULL] on every heap; no mailbox appears. *)
Theorem signal_queue_create_degenerate (capacity : Z) (w : World) :
  capacity = 0 \/ 2 ^ 31 < capacity < 2 ^ 32 ->
  exists w',
    signal_queue_create capacity w = Done NULL w'
    /\ forall p q, queues w' !! p = Some q -> queues w !! p = Some q.
Proof.
  intros Hc. unfold signal_queue_create.
  rewrite (rounded_capacity_zero capacity Hc).
  destruct (heap_allocate_total sizeof_SignalQueue w) as (p1 & w1 & E1).
  destruct (heap_allocate_inv _ _ _ _ E1) as [[h1 ->] _].
  erewrite bind_done by exact E1.
  destruct (Z.eqb_spec p1 NULL) as [->|Hp1].
  { eexists. split; [reflexivity|]. auto. }
  change (u64 (0 * sizeof_ptr)) with 0.
  destruct (heap_allocate_zero (set_heap h1 w)) as (h2 & E2).
  erewrite bind_done by exact E2. simpl.
  destruct (heap_free_run p1 sizeof_SignalQueue (set_heap h2 (set_heap h1 w))
              Hp1 ltac:(discriminate))
    as (w3 & E3 & _).
  erewrite bind_done by exact E3.
  eexists. split; [reflexivity|].
  revert E3. unfold heap_free, clobber. munfold.
  rewrite (proj2 (Z.eqb_neq p1 NULL)) by exact Hp1. simpl.
  intros [= <-]. simpl. intros p q Hl.
  apply lookup_delete_Some in Hl as [_ Hl]. exact Hl.
Qed.

Lemma signal_queue_create_degenerate_witness :
  exists w',
    signal_queue_create 0 heap_world = Done NULL w'
    /\ forall p q, queues w' !! p = Some q -> queues heap_world !! p = Some q.
Proof.
  apply (signal_queue_create_degenerate 0 heap_world). left. reflexivity.
Defined.

(** ** Releasing references *)

Lemma same_at_refl p w : same_at p w w.
Proof. repeat split. Qed.

Lemma same_at_trans p w1 w2 w3 :
  same_at p w1 w2 -> same_at p w2 w3 -> same_at p w1 w3.
Proof.
  intros (A1 & A2 & A3 & A4 & A5 & A6 & A7) (B1 & B2 & B3 & B4 & B5 & B6 & B7).
  repeat split; congruence.
Qed.

Lemma set_signals_same w : set_signals (signals w) w = w.
Proof. destruct w; reflexivity. Qed.

Lemma signal_ref_run sig s w :
  sig <> NULL -> signals w !! sig = Some s ->
  signal_ref sig w
  = Done tt (set_signals
               (<[sig := set_sig_ref_count (u16 (sig_ref_count s + 1)) s]>
                  (signals w)) w).
Proof.
  intros Hsig Hl. unfold signal_ref.
  rewrite (proj2 (Z.eqb_neq sig NULL)) by assumption.
  erewrite bind_done by (apply load_done; eassumption). reflexivity.
Qed.

(** A holder that is not the last one: the count goes down, nothing
    else happens. *)
Lemma signal_free_shared sig s w :
  sig <> NULL -> signals w !! sig = Some s ->
  2 <= sig_ref_count s < 2 ^ 16 ->
  signal_free sig w
  = Done tt (set_signals
               (<[sig := set_sig_ref_count (sig_ref_count s - 1) s]>
                  (signals w)) w).
Proof.
  intros Hsig Hl Hrc. unfold signal_free.
  rewrite (proj2 (Z.eqb_neq sig NULL)) by assumption.
  erewrite bind_done by (apply load_done; eassumption).
  cbv zeta. rewrite (proj2 (Z.ltb_lt 0 (sig_ref_count s))) by lia.
  unfold u16. rewrite wrap_small by lia.
  erewrite bind_done by reflexivity.
  cbn [sig_ref_count set_sig_ref_count].
  rewrite (proj2 (Z.ltb_lt 0 (sig_ref_count s - 1))) by lia. reflexivity.
Qed.

(** The last holder of a heap-allocated signal: the header is gone, and
    so is whatever lived at the address of an owned payload; everything
    else is as it was. *)
Ltac filtered :=
  simpl; repeat (etransitivity; [apply map_filter_subseteq|]); reflexivity.

Lemma signal_free_last sig s w :
  sig <> NULL -> signals w !! sig = Some s ->
  sig_ref_count s = 1 ->
  has_flag (sig_flags s) SIGNAL_FLAG_HEAP_ALLOCATED = true ->
  exists w',
    signal_free sig w = Done tt w'
    /\ signals w' !! sig = None
    /\ (forall p, p <> sig -> p <> sig_payload_ptr s -> same_at p w w')
    /\ agent_mem w' ⊆ agent_mem w
    /\ hp_initialized (heap w') = hp_initialized (heap w)
    /\ hp_current (heap w') = hp_current (heap w)
    /\ hp_end (heap w') = hp_end (heap w)
    /\ hp_free_list (heap w')
       = mkFreeBlock sig sizeof_Signal
         :: (if has_flag (sig_flags s) SIGNAL_FLAG_OWNS_PAYLOAD
                && negb (sig_payload_ptr s =? NULL)
                && negb (sig_payload_capacity s =? 0)
             then [mkFreeBlock (sig_payload_ptr s)
                               (block_size (sig_payload_capacity s))]
             else [])
         ++ hp_free_list (heap w).
Proof.
  intros Hsig Hl Hrc Hheap. unfold signal_free.
  rewrite (proj2 (Z.eqb_neq sig NULL)) by assumption.
  erewrite bind_done by (apply load_done; eassumption).
  cbv zeta. rewrite Hrc. change (0 <? 1) with true. cbv iota.
  change (u16 (1 - 1)) with 0.
  erewrite bind_done by reflexivity.
  cbn [sig_ref_count sig_flags sig_payload_ptr sig_payload_capacity
       set_sig_ref_count].
  change (0 <? 0) with false. cbv iota.
  rewrite Hheap.
  unfold heap_free, clobber, store_signal.
  rewrite (proj2 (Z.eqb_neq sig NULL)) by assumption.
  munfold. simpl.
  destruct (has_flag (sig_flags s) SIGNAL_FLAG_OWNS_PAYLOAD
            && negb (sig_payload_ptr s =? NULL)) eqn:Hown; simpl.
  - apply andb_true_iff in Hown as [_ Hp]. apply negb_true_iff in Hp.
    rewrite Hp. simpl.
    destruct (sig_payload_capacity s =? 0); simpl;
      (eexists; split; [reflexivity|]); simpl;
      (split; [apply lookup_delete_eq|]);
      (split; [|repeat split; first [reflexivity | filtered]]);
      intros p Hp1 Hp2; repeat split; simpl;
      rewrite ?lookup_delete_ne, ?lookup_insert_ne by congruence;
      rewrite ?lookup_delete_ne, ?lookup_insert_ne by congruence;
      reflexivity.
  - (eexists; split; [reflexivity|]); simpl;
      (split; [apply lookup_delete_eq|]);
      (split; [|repeat split; first [reflexivity | filtered]]);
      intros p Hp1 Hp2; repeat split; simpl;
      rewrite ?lookup_delete_ne, ?lookup_insert_ne by congruence;
      rewrite ?lookup_delete_ne, ?lookup_insert_ne by congruence;
      reflexivity.
Qed.

(** Both cases at once. *)
Lemma signal_free_effect sig s w :
  sig <> NULL -> signals w !! sig = Some s ->
  1 <= sig_ref_count s < 2 ^ 16 ->
  has_flag (sig_flags s) SIGNAL_FLAG_HEAP_ALLOCATED = true ->
  exists w',
    signal_free sig w = Done tt w'
    /\ signals w' !! sig = after_release s
    /\ (forall p, p <> sig -> p <> sig_payload_ptr s -> same_at p w w')
    /\ agent_mem w' ⊆ agent_mem w.
Proof.
  intros Hsig Hl Hrc Hheap. unfold after_release.
  destruct (Z.ltb_spec 1 (sig_ref_count s)) as [Hmany|Hone].
  - eexists. split; [apply signal_free_shared; [exact Hsig | exact Hl | lia]|].
    simpl. split; [apply lookup_insert_eq|]. split; [|reflexivity].
    intros p Hp _. repeat split; simpl.
    rewrite lookup_insert_ne by congruence. reflexivity.
  - destruct (signal_free_last sig s w Hsig Hl ltac:(lia) Hheap)
      as (w' & E & Hn & Hframe & Hmem & _).
    exists w'. auto.
Qed.

Lemma take_references_run n sig : forall s w,
  sig <> NULL -> signals w !! sig = Some s ->
  0 <= sig_ref_count s -> sig_ref_count s + Z.of_nat n < 2 ^ 16 ->
  take_references n sig w
  = Done tt (set_signals
               (<[sig := set_sig_ref_count (sig_ref_count s + Z.of_nat n) s]>
                  (signals w)) w).
Proof.
  induction n as [|n IH]; intros s w Hsig Hl Hrc Hmax.
  - simpl. rewrite Z.add_0_r.
    replace (set_sig_ref_count (sig_ref_count s) s) with s by (destruct s; reflexivity).
    rewrite insert_id by exact Hl. rewrite set_signals_same. reflexivity.
  - simpl take_references.
    erewrite bind_done by (apply signal_ref_run; eassumption).
    rewrite (IH (set_sig_ref_count (u16 (sig_ref_count s + 1)) s)).
    + simpl. unfold u16. rewrite wrap_small by lia.
      unfold set_signals, set_sig_ref_count. simpl. rewrite insert_insert_eq.
      replace (sig_ref_count s + 1 + Z.of_nat n)
        with (sig_ref_count s + Z.of_nat (S n)) by lia.
      reflexivity.
    + exact Hsig.
    + simpl. apply lookup_insert_eq.
    + simpl. unfold u16. rewrite wrap_small by lia. lia.
    + simpl. unfold u16. rewrite wrap_small by lia. lia.
Qed.

Lemma release_references_run n sig : forall s w,
  sig <> NULL -> signals w !! sig = Some s ->
  Z.of_nat n < sig_ref_count s < 2 ^ 16 ->
  release_references n sig w
  = Done tt (set_signals
               (<[sig := set_sig_ref_count (sig_ref_count s - Z.of_nat n) s]>
                  (signals w)) w).
Proof.
  induction n as [|n IH]; intros s w Hsig Hl Hrc.
  - simpl. rewrite Z.sub_0_r.
    replace (set_sig_ref_count (sig_ref_count s) s) with s by (destruct s; reflexivity).
    rewrite insert_id by exact Hl. rewrite set_signals_same. reflexivity.
  - simpl release_references.
    erewrite bind_done by (apply signal_free_shared; [eassumption..|lia]).
    rewrite (IH (set_sig_ref_count (sig_ref_count s - 1) s)).
    + simpl. unfold set_signals, set_sig_ref_count. simpl.
      rewrite insert_insert_eq.
      replace (sig_ref_count s - 1 - Z.of_nat n)
        with (sig_ref_count s - Z.of_nat (S n)) by lia.
      reflexivity.
    + exact Hsig.
    + simpl. apply lookup_insert_eq.
    + simpl. lia.
Qed.

(** X16: references balance.  When [n] holders take a reference on a
    live signal and [n] holders give one up, and the 16-bit count does not
    overflow on the way, the world is exactly what it was: the signal is
    neither freed nor changed. *)
Theorem signal_references_balance (n : nat) (sig : Z) (s : Signal)
    (w : World) :
  sig <> NULL -> signals w !! sig = Some s ->
  1 <= sig_ref_count s -> sig_ref_count s + Z.of_nat n < 2 ^ 16 ->
  (take_references n sig;; release_references n sig) w = Done tt w.
Proof.
  intros Hsig Hl Hrc Hmax.
  erewrite bind_done by (apply take_references_run; [eassumption..|lia|lia]).
  rewrite (release_references_run n sig
             (set_sig_ref_count (sig_ref_count s + Z.of_nat n) s)).
  - simpl. unfold set_signals. simpl. rewrite insert_insert_eq.
    replace (sig_ref_count s + Z.of_nat n - Z.of_nat n) with (sig_ref_count s)
      by lia.
    replace (set_sig_ref_count (sig_ref_count s)
               (set_sig_ref_count (sig_ref_count s + Z.of_nat n) s))
      with s by (destruct s; reflexivity).
    rewrite insert_id by exact Hl. destruct w; reflexivity.
  - exact Hsig.
  - simpl. apply lookup_insert_eq.
  - simpl. lia.
Qed.

Lemma signal_references_balance_witness :
  (take_references 100 4096;; release_references 100 4096) signal_world
  = Done tt signal_world.
Proof.
  apply (signal_references_balance 100 4096 (mkSignal 7 1 3 1 4128 4 8 0)
           signal_world).
  - discriminate.
  - vm_compute; reflexivity.
  - simpl; lia.
  - simpl; lia.
Defined.

(** ** The life of a signal *)

(** [signal_create] in terms of its two allocations. *)
Lemma signal_create_steps f a bytes n w sig h1 p h2 :
  0 < n <= MAX_PAYLOAD_SIZE -> n <= Z.of_nat (length bytes) ->
  heap_allocate sizeof_Signal w = Done sig (set_heap h1 w) -> sig <> NULL ->
  (forall w1, heap w1 = h1 -> os_mmap w1 = os_mmap w ->
     heap_allocate (payload_capacity_for n) w1 = Done p (set_heap h2 w1)) ->
  p <> NULL ->
  exists w',
    signal_create f a (Some bytes) n w = Done sig w'
    /\ signals w'
       = <[sig := mkSignal (u16 f) (u16 a)
                    (Z.lor SIGNAL_FLAG_HEAP_ALLOCATED SIGNAL_FLAG_OWNS_PAYLOAD)
                    1 p n (payload_capacity_for n) (tsc w)]> (signals w)
    /\ payloads w'
       = <[p := take (Z.to_nat n) bytes
                ++ replicate (Z.to_nat (payload_capacity_for n - n)) 0]>
           (payloads w)
    /\ heap w' = h2
    /\ queues w' = queues w /\ tables w' = tables w
    /\ rtables w' = rtables w /\ registries w' = registries w
    /\ scheds w' = scheds w /\ agent_mem w' = agent_mem w
    /\ os_mmap w' = os_mmap w.
Proof.
  intros Hn Hlen E1 Hsig E2 Hp.
  unfold signal_create, signal_alloc.
  rewrite (proj2 (Z.ltb_ge _ _)) by lia.
  erewrite bind_done by (erewrite bind_done by exact E1;
                         rewrite (proj2 (Z.eqb_neq _ _) Hsig); reflexivity).
  rewrite (proj2 (Z.eqb_neq _ _) Hsig).
  erewrite bind_done
    by (apply load_done; [assumption | simpl; apply lookup_insert_eq]).
  erewrite bind_done by reflexivity.
  rewrite (proj2 (Z.ltb_lt _ _)) by lia.
  fold (payload_capacity_for n).
  erewrite bind_done by (apply E2; reflexivity).
  erewrite bind_done by reflexivity.
  rewrite (proj2 (Z.eqb_neq _ _) Hp).
  unfold memcpy_payload. rewrite (proj2 (Z.ltb_ge _ _)) by lia.
  erewrite bind_done by reflexivity.
  erewrite bind_done by reflexivity.
  eexists. split; [reflexivity|]. simpl.
  rewrite !insert_insert_eq. repeat split; reflexivity.
Qed.

Lemma heap_allocate_bump_eq bytes w :
  hp_initialized (heap w) = true -> hp_free_list (heap w) = [] ->
  bytes <> 0 ->
  hp_current (heap w) + block_size bytes <= hp_end (heap w) ->
  heap_allocate bytes w
  = Done (hp_current (heap w))
      (set_heap
         (bump_used (block_size bytes)
            (mkHeap true (hp_base (heap w))
                    (hp_current (heap w) + block_size bytes) (hp_end (heap w))
                    (hp_total_size (heap w)) (hp_used (heap w))
                    (hp_peak_used (heap w)) [])) w).
Proof.
  intros Hinit Hfree Hb Hroom.
  unfold heap_allocate, heap_allocate_initialized. munfold. simpl.
  rewrite Hinit, (proj2 (Z.eqb_neq bytes 0)) by exact Hb.
  rewrite Hfree. simpl.
  rewrite (proj2 (Z.ltb_ge _ _)) by lia. rewrite ?Hinit, ?Hfree. reflexivity.
Qed.

Lemma payload_capacity_for_pos n :
  0 < n <= MAX_PAYLOAD_SIZE -> payload_capacity_for n <> 0.
Proof. intros Hn. pose proof (payload_capacity_for_bounds n Hn). lia. Qed.

(** [signal_create] on a heap that serves both requests from its bump
    region. *)
Lemma signal_create_bump f a bytes n w :
  0 < n <= MAX_PAYLOAD_SIZE -> n <= Z.of_nat (length bytes) ->
  bump_room w n ->
  let sig := hp_current (heap w) in
  let p := sig + sizeof_Signal in
  exists w',
    signal_create f a (Some bytes) n w = Done sig w'
    /\ signals w'
       = <[sig := mkSignal (u16 f) (u16 a)
                    (Z.lor SIGNAL_FLAG_HEAP_ALLOCATED SIGNAL_FLAG_OWNS_PAYLOAD)
                    1 p n (payload_capacity_for n) (tsc w)]> (signals w)
    /\ payloads w'
       = <[p := take (Z.to_nat n) bytes
                ++ replicate (Z.to_nat (payload_capacity_for n - n)) 0]>
           (payloads w)
    /\ hp_initialized (heap w') = true
    /\ hp_free_list (heap w') = []
    /\ hp_current (heap w')
       = p + block_size (payload_capacity_for n)
    /\ hp_end (heap w') = hp_end (heap w)
    /\ queues w' = queues w /\ tables w' = tables w
    /\ rtables w' = rtables w /\ registries w' = registries w
    /\ scheds w' = scheds w /\ agent_mem w' = agent_mem w
    /\ os_mmap w' = os_mmap w.
Proof.
  intros Hn Hlen (Hinit & Hfree & Hcur & Hroom) sig p.
  pose proof (block_size_ge (payload_capacity_for n)) as Hbs.
  pose proof (heap_allocate_bump_eq sizeof_Signal w Hinit Hfree
                ltac:(discriminate)) as E1.
  rewrite block_size_Signal in E1. specialize (E1 ltac:(unfold sizeof_FreeBlock in *; lia)).
  match type of E1 with _ = Done _ (set_heap ?h _) => set (h1 := h) in * end.
  set (h2 := bump_used (block_size (payload_capacity_for n))
               (mkHeap true (hp_base h1)
                       (hp_current h1 + block_size (payload_capacity_for n))
                       (hp_end h1) (hp_total_size h1) (hp_used h1)
                       (hp_peak_used h1) [])).
  destruct (signal_create_steps f a bytes n w sig h1 p h2 Hn Hlen E1)
    as (w' & E & Hs & Hpl & Hh & Hrest).
  - subst sig. unfold NULL. lia.
  - intros w1 Hw1 _.
    rewrite (heap_allocate_bump_eq (payload_capacity_for n) w1);
      rewrite ?Hw1; simpl; auto.
    apply payload_capacity_for_pos. exact Hn.
  - subst p sig. unfold NULL, sizeof_Signal. lia.
  - exists w'. split; [exact E|]. split; [exact Hs|]. split; [exact Hpl|].
    rewrite Hh. simpl. repeat split; try reflexivity; apply Hrest.
Qed.

(** X17: a signal gives back what it took.  The [signal_free] of the
    creator, when nobody else holds the signal, puts the header block and
    the payload block on the free list; the next [signal_create] with a
    payload of the same size gets the same two blocks, so the bump pointer
    does not move. *)
Theorem signal_create_free_reuse (f a f' a' : Z) (bytes bytes' : list Z)
    (n : Z) (w : World) :
  0 < n <= MAX_PAYLOAD_SIZE ->
  n <= Z.of_nat (length bytes) -> n <= Z.of_nat (length bytes') ->
  bump_room w n ->
  let sig := hp_current (heap w) in
  exists w1 w2 w3,
    signal_create f a (Some bytes) n w = Done sig w1
    /\ signal_free sig w1 = Done tt w2
    /\ signals w2 !! sig = None
    /\ hp_free_list (heap w2)
       = [mkFreeBlock sig sizeof_Signal;
          mkFreeBlock (sig + sizeof_Signal)
                      (block_size (payload_capacity_for n))]
    /\ signal_create f' a' (Some bytes') n w2 = Done sig w3
    /\ hp_free_list (heap w3) = []
    /\ hp_current (heap w3) = hp_current (heap w1).
Proof.
  intros Hn Hlen Hlen' Hroom sig.
  pose proof Hroom as (_ & _ & Hcur & _).
  assert (Hsig : sig <> NULL) by (subst sig; unfold NULL; lia).
  assert (Hp : sig + sizeof_Signal <> NULL)
    by (subst sig; unfold NULL, sizeof_Signal; lia).
  destruct (signal_create_bump f a bytes n w Hn Hlen Hroom)
    as (w1 & E1 & Hs1 & _ & Hi1 & Hf1 & Hc1 & He1 & _).
  fold sig in E1, Hs1, Hc1.
  set (s := mkSignal (u16 f) (u16 a)
              (Z.lor SIGNAL_FLAG_HEAP_ALLOCATED SIGNAL_FLAG_OWNS_PAYLOAD)
              1 (sig + sizeof_Signal) n (payload_capacity_for n) (tsc w))
    in *.
  assert (Hl1 : signals w1 !! sig = Some s)
    by (rewrite Hs1; apply lookup_insert_eq).
  destruct (signal_free_last sig s w1 Hsig Hl1 eq_refl eq_refl)
    as (w2 & E2 & Hgone & _ & _ & Hi2 & Hc2 & He2 & Hf2).
  simpl in Hf2. rewrite (proj2 (Z.eqb_neq _ _) Hp) in Hf2.
  rewrite (proj2 (Z.eqb_neq _ _) (payload_capacity_for_pos n Hn)) in Hf2.
  simpl in Hf2. rewrite Hf1 in Hf2.
  set (bs := block_size (payload_capacity_for n)) in *.
  set (h1 := bump_used (block_size sizeof_Signal)
               (mkHeap (hp_initialized (heap w2)) (hp_base (heap w2))
                       (hp_current (heap w2)) (hp_end (heap w2))
                       (hp_total_size (heap w2)) (hp_used (heap w2))
                       (hp_peak_used (heap w2))
                       [mkFreeBlock (sig + sizeof_Signal) bs])).
  set (h2 := bump_used bs
               (mkHeap (hp_initialized h1) (hp_base h1) (hp_current h1)
                       (hp_end h1) (hp_total_size h1) (hp_used h1)
                       (hp_peak_used h1) [])).
  destruct (signal_create_steps f' a' bytes' n w2 sig h1 (sig + sizeof_Signal)
              h2 Hn Hlen')
    as (w3 & E3 & _ & _ & Hh3 & _).
  - apply (heap_allocate_first sig sizeof_Signal
             [mkFreeBlock (sig + sizeof_Signal) bs]).
    + rewrite Hi2. exact Hi1.
    + discriminate.
    + exact Hf2.
    + rewrite block_size_Signal. lia.
  - exact Hsig.
  - intros w' Hw' _.
    rewrite (heap_allocate_first (sig + sizeof_Signal) bs []
               (payload_capacity_for n) w').
    + rewrite Hw'. reflexivity.
    + rewrite Hw'. simpl. rewrite Hi2. exact Hi1.
    + apply payload_capacity_for_pos. exact Hn.
    + rewrite Hw'. reflexivity.
    + subst bs. lia.
  - exact Hp.
  - exists w1, w2, w3. split; [exact E1|]. split; [exact E2|].
    split; [exact Hgone|]. split; [exact Hf2|]. split; [exact E3|].
    rewrite Hh3. simpl. split; [reflexivity|]. exact Hc2.
Qed.

Lemma signal_create_free_reuse_witness :
  exists w1 w2 w3,
    signal_create 7 1 (Some [1; 2; 3; 4]) 4 heap_world = Done 4096 w1
    /\ signal_free 4096 w1 = Done tt w2
    /\ signals w2 !! 4096 = None
    /\ hp_free_list (heap w2)
       = [mkFreeBlock 4096 sizeof_Signal;
          mkFreeBlock (4096 + sizeof_Signal)
                      (block_size (payload_capacity_for 4))]
    /\ signal_create 9 2 (Some [5; 6; 7; 8]) 4 w2 = Done 4096 w3
    /\ hp_free_list (heap w3) = []
    /\ hp_current (heap w3) = hp_current (heap w1).
Proof.
  apply (signal_create_free_reuse 7 1 9 2 [1; 2; 3; 4] [5; 6; 7; 8] 4
           heap_world).
  - unfold MAX_PAYLOAD_SIZE; lia.
  - simpl; lia.
  - simpl; lia.
  - repeat split; vm_compute; congruence.
Defined.

(** ** Destroying a mailbox *)

Lemma signal_queue_is_empty_run queue q w :
  queue <> NULL -> queues w !! queue = Some q ->
  signal_queue_is_empty queue w = Done (q_count q =? 0) w.
Proof.
  intros Hq Hl. unfold signal_queue_is_empty.
  rewrite (proj2 (Z.eqb_neq queue NULL)) by exact Hq.
  erewrite bind_done by (apply load_done; eassumption). reflexivity.
Qed.

Lemma dequeue_head queue q w :
  queue <> NULL -> queues w !! queue = Some q ->
  queue_wf q -> pow2_capacity q -> q_count q <> 0 ->
  let q1 := queue_popped (queue_write (dequeue_index q) NULL q) in
  exists sig,
    queue_contents q = sig :: queue_contents q1
    /\ signal_queue_dequeue queue w
       = Done sig (set_queues (<[queue := q1]> (queues w)) w)
    /\ queue_wf q1 /\ pow2_capacity q1.
Proof.
  intros Hq Hlq Hwf (k & Hk & Hcap) Hnz q1.
  destruct (lookup_lt_is_Some_2 (q_buffer q) (dequeue_index q)
              (dequeue_index_lt q Hwf)) as [sig Hsig].
  exists sig. split.
  { rewrite (queue_contents_popped q k Hwf Hk Hcap Hnz), Hsig. reflexivity. }
  split; [apply (signal_queue_dequeue_ok queue q sig); assumption|].
  split; [apply queue_wf_popped; assumption|].
  exists k. split; [exact Hk | exact Hcap].
Qed.

Lemma destroy_loop_run queue l : forall q w fuel,
  queue <> NULL -> queues w !! queue = Some q ->
  queue_wf q -> pow2_capacity q ->
  queue_contents q = l -> (length l <= fuel)%nat ->
  queued_signals_ok w queue q ->
  exists w' q',
    destroy_loop fuel queue w = Done tt w'
    /\ queues w' !! queue = Some q'
    /\ q_count q' = 0
    /\ q_buffer_ptr q' = q_buffer_ptr q /\ q_capacity q' = q_capacity q
    /\ (forall sig s, sig ∈ l -> signals w !! sig = Some s ->
          signals w' !! sig = after_release s)
    /\ (forall p, p ∉ l -> p <> queue ->
          (forall sig s, sig ∈ l -> signals w !! sig = Some s ->
             p <> sig_payload_ptr s) ->
          signals w' !! p = signals w !! p).
Proof.
  induction l as [|sig rest IH]; intros q w fuel Hq Hlq Hwf Hp2 Hc Hfuel Hok.
  - assert (Hz : q_count q = 0).
    { pose proof (queue_contents_length q) as Hlen. rewrite Hc in Hlen.
      pose proof (wf_count q Hwf). simpl in Hlen. lia. }
    exists w, q.
    assert (E : destroy_loop fuel queue w = Done tt w).
    { destruct fuel; simpl;
        erewrite bind_done by (apply signal_queue_is_empty_run; eassumption);
        rewrite Hz; reflexivity. }
    split; [exact E|]. split; [exact Hlq|]. split; [exact Hz|].
    split; [reflexivity|]. split; [reflexivity|].
    split; [intros ? ? Hin; apply elem_of_nil in Hin; contradiction|].
    reflexivity.
  - assert (Hnz : q_count q <> 0).
    { pose proof (queue_contents_length q) as Hlen. rewrite Hc in Hlen.
      simpl in Hlen. lia. }
    destruct fuel as [|fuel]; [simpl in Hfuel; lia|]. simpl in Hfuel.
    destruct (dequeue_head queue q w Hq Hlq Hwf Hp2 Hnz)
      as (sig0 & Hcons & Edeq & Hwf1 & Hp21).
    set (q1 := queue_popped (queue_write (dequeue_index q) NULL q)) in *.
    rewrite Hc in Hcons. injection Hcons as <- Hrest.
    set (w1 := set_queues (<[queue := q1]> (queues w)) w) in *.
    destruct Hok as [Hnd Hall]. rewrite Hc in Hnd, Hall.
    apply NoDup_cons in Hnd as [Hnotin Hnd].
    destruct (Hall sig ltac:(left)) as
      (Hsn & Hsq & Hsb & s & Hls & Hrc & Hflag & Hpq & Hpb & Hpl).
    destruct (signal_free_effect sig s w1 Hsn Hls Hrc Hflag)
      as (w2 & Efree & Hafter & Hframe & _).
    assert (Hlq2 : queues w2 !! queue = Some q1).
    { destruct (Hframe queue ltac:(congruence) ltac:(congruence))
        as (_ & _ & Hqq & _).
      rewrite Hqq. apply lookup_insert_eq. }
    assert (Hsame : forall p, p <> sig -> p <> sig_payload_ptr s ->
                      signals w2 !! p = signals w !! p).
    { intros p H1 H2. destruct (Hframe p H1 H2) as (Hss & _). exact Hss. }
    assert (Hok2 : queued_signals_ok w2 queue q1).
    { split; [rewrite <- Hrest; exact Hnd|].
      rewrite <- Hrest. intros sig' Hin.
      destruct (Hall sig' ltac:(right; exact Hin)) as
        (Hn' & Hq' & Hb' & s' & Hls' & Hrc' & Hflag' & Hpq' & Hpb' & Hpl').
      split; [exact Hn'|]. split; [exact Hq'|]. split; [exact Hb'|].
      exists s'. split.
      { rewrite Hsame; [exact Hls'| |].
        - intros ->. contradiction.
        - intros ->. apply Hpl. right. exact Hin. }
      split; [exact Hrc'|]. split; [exact Hflag'|]. split; [exact Hpq'|].
      split; [exact Hpb'|].
      intros Hin'. apply Hpl'. right. exact Hin'. }
    destruct (IH q1 w2 fuel Hq Hlq2 Hwf1 Hp21 (eq_sym Hrest) ltac:(lia) Hok2)
      as (w' & q' & Eloop & Hlq' & Hz' & Hbuf' & Hcap' & Hrel & Hfr).
    exists w', q'. split.
    { simpl destroy_loop.
      erewrite bind_done by (apply signal_queue_is_empty_run; eassumption).
      rewrite (proj2 (Z.eqb_neq _ _) Hnz).
      erewrite bind_done by exact Edeq.
      erewrite bind_done by exact Efree. exact Eloop. }
    split; [exact Hlq'|]. split; [exact Hz'|]. split; [exact Hbuf'|].
    split; [exact Hcap'|]. split.
    + intros sig' s' Hin Hls'.
      apply elem_of_cons in Hin as [->|Hin].
      * assert (s' = s) by congruence. subst s'.
        rewrite Hfr; [exact Hafter | exact Hnotin | exact Hsq |].
        intros sig'' s'' Hin'' Hls''.
        destruct (Hall sig'' ltac:(right; exact Hin'')) as
          (_ & _ & _ & s3 & Hls3 & _ & _ & _ & _ & Hpl3).
        rewrite Hsame in Hls''.
        -- assert (s'' = s3) by congruence. subst s''.
           intros ->. apply Hpl3. left.
        -- intros ->. contradiction.
        -- intros ->. apply Hpl. right. exact Hin''.
      * apply Hrel; [exact Hin|].
        rewrite Hsame; [exact Hls'| |].
        -- intros ->. contradiction.
        -- intros ->. apply Hpl. right. exact Hin.
    + intros p Hnin Hpq' Hpay.
      apply not_elem_of_cons in Hnin as [Hne Hnin].
      rewrite Hfr; [|exact Hnin|exact Hpq'|].
      * apply Hsame; [exact Hne|]. apply (Hpay sig s); [left | exact Hls].
      * intros sig'' s'' Hin'' Hls''.
        rewrite Hsame in Hls''.
        -- apply (Hpay sig'' s''); [right; exact Hin'' | exact Hls''].
        -- intros ->. contradiction.
        -- intros ->. apply Hpl. right. exact Hin''.
Qed.

Lemma heap_free_frame ptr bytes w :
  ptr <> NULL -> bytes <> 0 ->
  exists w',
    heap_free ptr bytes w = Done 0 w'
    /\ (forall p, p <> ptr -> same_at p w w')
    /\ queues w' !! ptr = None
    /\ scheds w' !! ptr = None
    /\ agent_mem w' ⊆ agent_mem w
    /\ hp_free_list (heap w')
       = mkFreeBlock ptr (block_size bytes) :: hp_free_list (heap w).
Proof.
  intros Hp Hb. unfold heap_free, clobber. munfold.
  rewrite (proj2 (Z.eqb_neq ptr NULL)), (proj2 (Z.eqb_neq bytes 0)) by assumption.
  simpl. eexists. split; [reflexivity|]. simpl.
  split.
  { intros p Hne. repeat split; simpl; apply lookup_delete_ne; congruence. }
  split; [apply lookup_delete_eq|]. split; [apply lookup_delete_eq|].
  split; [apply map_filter_subseteq | reflexivity].
Qed.

(** X18: [signal_queue_destroy] gives up the reference of every signal
    that still waits, once each, and returns the ring and the structure to
    the heap.  A signal that someone else holds stays, with one reference
    less; a signal the mailbox was the last holder of is freed.  The loop
    ends after as many rounds as signals were waiting. *)
Theorem signal_queue_destroy_spec (fuel : nat) (queue : Z) (q : SignalQueue)
    (w : World) :
  queue <> NULL -> queues w !! queue = Some q ->
  queue_wf q -> pow2_capacity q ->
  queued_signals_ok w queue q -> q_buffer_ptr q <> NULL ->
  (Z.to_nat (q_count q) <= fuel)%nat ->
  exists w',
    signal_queue_destroy fuel queue w = Done tt w'
    /\ queues w' !! queue = None
    /\ (forall sig s, sig ∈ queue_contents q -> signals w !! sig = Some s ->
          signals w' !! sig = after_release s)
    /\ exists rest,
         hp_free_list (heap w')
         = mkFreeBlock queue sizeof_SignalQueue
           :: mkFreeBlock (q_buffer_ptr q) (block_size (8 * q_capacity q))
           :: rest.
Proof.
  intros Hq Hlq Hwf Hp2 Hok Hbuf Hfuel.
  destruct (destroy_loop_run queue (queue_contents q) q w fuel Hq Hlq Hwf Hp2
              eq_refl ltac:(rewrite queue_contents_length; exact Hfuel) Hok)
    as (w1 & q1 & Eloop & Hlq1 & _ & Hbuf1 & Hcap1 & Hrel & _).
  pose proof (wf_capacity q Hwf) as Hcap.
  assert (Hbytes : u64 (q_capacity q1 * sizeof_ptr) = 8 * q_capacity q).
  { rewrite Hcap1. unfold u64, sizeof_ptr. rewrite wrap_small; lia. }
  destruct (heap_free_frame (q_buffer_ptr q) (8 * q_capacity q) w1 Hbuf
              ltac:(lia))
    as (w2 & E2 & Hfr2 & _ & _ & _ & Hfl2).
  destruct (heap_free_frame queue sizeof_SignalQueue w2 Hq ltac:(discriminate))
    as (w3 & E3 & Hfr3 & Hgone & _ & _ & Hfl3).
  exists w3. split.
  { unfold signal_queue_destroy.
    rewrite (proj2 (Z.eqb_neq queue NULL)) by exact Hq.
    erewrite bind_done by exact Eloop.
    erewrite bind_done by (apply load_done; eassumption).
    rewrite Hbuf1, (proj2 (Z.eqb_neq _ NULL)) by exact Hbuf. simpl negb.
    cbv iota. rewrite Hbytes.
    erewrite bind_done by (erewrite bind_done by exact E2; reflexivity).
    erewrite bind_done by exact E3. reflexivity. }
  split; [exact Hgone|]. split.
  - intros sig s Hin Hls.
    destruct Hok as [_ Hall].
    destruct (Hall sig Hin) as (_ & Hsq & Hsb & _).
    destruct (Hfr3 sig Hsq) as (-> & _).
    destruct (Hfr2 sig Hsb) as (-> & _).
    apply Hrel; assumption.
  - exists (hp_free_list (heap w1)). rewrite Hfl3, Hfl2. reflexivity.
Qed.

Lemma signal_queue_destroy_spec_witness :
  let w := world_of (enqueue_all 4216 [4096; 4288] two_signals_world) in
  exists w',
    signal_queue_destroy 2 4216 w = Done tt w'
    /\ queues w' !! 4216 = None
    /\ (forall sig s, sig ∈ [4096; 4288] -> signals w !! sig = Some s ->
          signals w' !! sig = after_release s)
    /\ exists rest,
         hp_free_list (heap w')
         = mkFreeBlock 4216 sizeof_SignalQueue
           :: mkFreeBlock 4272 (block_size (8 * 2)) :: rest.
Proof.
  apply (signal_queue_destroy_spec 2 4216
           (mkQueue 4272 [4096; 4288] 2 1 0 2 2 2 0 0 0 1 0)
           (world_of (enqueue_all 4216 [4096; 4288] two_signals_world))).
  - discriminate.
  - vm_compute; reflexivity.
  - wf_by_computation.
  - exists 1. split; [lia | reflexivity].
  - split.
    + change (NoDup [4096; 4288]).
      repeat constructor; rewrite ?elem_of_cons, ?elem_of_nil; lia.
    + intros sig Hin. change (sig ∈ [4096; 4288]) in Hin.
      apply elem_of_cons in Hin as [->|Hin];
        [|apply elem_of_cons in Hin as [->|Hin];
          [|apply elem_of_nil in Hin; contradiction]].
      * split; [discriminate|]. split; [discriminate|].
        split; [discriminate|].
        exists (mkSignal 7 1 3 2 4128 4 8 0).
        split; [vm_compute; reflexivity|].
        split; [simpl; lia|]. split; [reflexivity|].
        split; [discriminate|]. split; [discriminate|].
        change (4128 ∉ [4096; 4288]).
        rewrite !elem_of_cons, elem_of_nil. lia.
      * split; [discriminate|]. split; [discriminate|].
        split; [discriminate|].
        exists (mkSignal 9 1 2 2 0 0 0 1).
        split; [vm_compute; reflexivity|].
        split; [simpl; lia|]. split; [reflexivity|].
        split; [discriminate|]. split; [discriminate|].
        change (0 ∉ [4096; 4288]).
        rewrite !elem_of_cons, elem_of_nil. lia.
  - discriminate.
  - simpl. lia.
Defined.

(** ** The agent registry *)

Lemma agent_registry_get_run registry r id w :
  registry <> NULL -> registries w !! registry = Some r -> registry_wf r ->
  0 <= id ->
  agent_registry_get registry id w
  = Done (if reg_capacity r <=? id then None
          else default None (reg_agents r !! Z.to_nat id)) w.
Proof.
  intros Hr Hl Hwf Hid. unfold agent_registry_get.
  rewrite (proj2 (Z.eqb_neq registry NULL)) by exact Hr.
  erewrite bind_done by (apply load_done; eassumption).
  destruct (Z.leb_spec (reg_capacity r) id); [reflexivity|].
  destruct (lookup_lt_is_Some_2 (reg_agents r) (Z.to_nat id)) as [slot Hslot].
  { unfold registry_wf in Hwf. lia. }
  rewrite Hslot. reflexivity.
Qed.

(** X19: registering an agent and looking it up.  An agent whose id is
    below the capacity is stored in the slot of its id: the registry then
    answers that id with the agent and its mailbox, answers every other id
    as before, and [count] is one more than the largest id registered.  An
    id at or above the capacity is refused with [SIGNAL_ERR_ALLOC_FAILED]
    and a null agent with [SIGNAL_ERR_NULL_POINTER], both without a
    change. *)
Theorem agent_registry_add_get (registry : Z) (a : Agent)
    (r : AgentRegistry) (w : World) :
  registry <> NULL -> registries w !! registry = Some r -> registry_wf r ->
  0 <= ag_agent_id a -> reg_capacity r < 2 ^ 32 ->
  (reg_capacity r <= ag_agent_id a ->
     agent_registry_add registry (Some a) w = Done SIGNAL_ERR_ALLOC_FAILED w)
  /\ agent_registry_add registry None w = Done SIGNAL_ERR_NULL_POINTER w
  /\ (ag_agent_id a < reg_capacity r ->
      exists w' r',
        agent_registry_add registry (Some a) w = Done SIGNAL_OK w'
        /\ registries w' !! registry = Some r'
        /\ registry_wf r'
        /\ reg_capacity r' = reg_capacity r
        /\ reg_count r' = Z.max (reg_count r) (ag_agent_id a + 1)
        /\ agent_registry_get registry (ag_agent_id a) w' = Done (Some a) w'
        /\ agent_get_queue registry (ag_agent_id a) w'
           = Done (ag_input_queue a) w'
        /\ forall id, 0 <= id -> id <> ag_agent_id a ->
             value_of (agent_registry_get registry id w')
             = value_of (agent_registry_get registry id w)).
Proof.
  intros Hr Hl Hwf Hid Hcap.
  split; [|split; [reflexivity|]].
  - intros Hbig. unfold agent_registry_add.
    rewrite (proj2 (Z.eqb_neq registry NULL)) by exact Hr.
    erewrite bind_done by (apply load_done; eassumption).
    rewrite (proj2 (Z.leb_le _ _)) by exact Hbig. reflexivity.
  - intros Hsmall.
    destruct (lookup_lt_is_Some_2 (reg_agents r) (Z.to_nat (ag_agent_id a)))
      as [slot Hslot].
    { unfold registry_wf in Hwf. lia. }
    set (r' := mkRegistry
                 (<[Z.to_nat (ag_agent_id a) := Some a]> (reg_agents r))
                 (if reg_count r <=? ag_agent_id a
                  then u32 (ag_agent_id a + 1) else reg_count r)
                 (reg_capacity r)).
    set (w' := set_registries (<[registry := r']> (registries w)) w).
    assert (Hl' : registries w' !! registry = Some r')
      by apply lookup_insert_eq.
    assert (Hwf' : registry_wf r').
    { unfold registry_wf, r'. simpl. rewrite length_insert. exact Hwf. }
    assert (Hget : agent_registry_get registry (ag_agent_id a) w'
                   = Done (Some a) w').
    { rewrite (agent_registry_get_run registry r') by assumption.
      simpl. rewrite (proj2 (Z.leb_gt _ _)) by exact Hsmall.
      rewrite list_lookup_insert_eq; [reflexivity|].
      apply lookup_lt_Some in Hslot. exact Hslot. }
    exists w', r'. split.
    { unfold agent_registry_add.
      rewrite (proj2 (Z.eqb_neq registry NULL)) by exact Hr.
      erewrite bind_done by (apply load_done; eassumption).
      rewrite (proj2 (Z.leb_gt _ _)) by exact Hsmall.
      cbv zeta. rewrite Hslot. reflexivity. }
    split; [exact Hl'|]. split; [exact Hwf'|]. split; [reflexivity|].
    split.
    { simpl. destruct (Z.leb_spec (reg_count r) (ag_agent_id a)).
      - rewrite u32_small by lia. lia.
      - lia. }
    split; [exact Hget|]. split.
    { unfold agent_get_queue. erewrite bind_done by exact Hget. reflexivity. }
    intros id Hid0 Hne.
    rewrite (agent_registry_get_run registry r') by assumption.
    rewrite (agent_registry_get_run registry r) by assumption.
    simpl. rewrite list_lookup_insert_ne; [reflexivity|]. lia.
Qed.

Lemma agent_registry_add_get_witness :
  let a := mkAgent 2 1 8000 4144 9100 0 0 in
  exists w' r',
    agent_registry_add 9500 (Some a) registry_world = Done SIGNAL_OK w'
    /\ registries w' !! 9500 = Some r'
    /\ registry_wf r'
    /\ reg_capacity r' = 4
    /\ reg_count r' = Z.max 0 (2 + 1)
    /\ agent_registry_get 9500 2 w' = Done (Some a) w'
    /\ agent_get_queue 9500 2 w' = Done 4144 w'
    /\ forall id, 0 <= id -> id <> 2 ->
         value_of (agent_registry_get 9500 id w')
         = value_of (agent_registry_get 9500 id registry_world).
Proof.
  apply (agent_registry_add_get 9500 (mkAgent 2 1 8000 4144 9100 0 0)
           empty_registry registry_world).
  - discriminate.
  - vm_compute; reflexivity.
  - unfold registry_wf; simpl; lia.
  - simpl; lia.
  - simpl; lia.
  - simpl; lia.
Defined.

(** ** Looking up a route *)

Section Probe.
Variables (table source_agent_id frequency_id start k : Z).
Variable t : RoutingTable.
Hypothesis table_not_null : table <> NULL.
Hypothesis k_range : 0 <= k < 32.
Hypothesis mask_eq : rt_mask t = 2 ^ k - 1.
Hypothesis entries_length : length (rt_entries t) = Z.to_nat (2 ^ k).
Hypothesis start_range : 0 <= start < 2 ^ k.

Local Abbreviation route_key := (route_key source_agent_id frequency_id).

(** An entry is reported as found only if its source is not 0. *)
Lemma find_slot_loop_sound (fuel : nat) : forall index c w,
  rtables w !! table = Some (set_rt_collision_count c t) ->
  (1 <= fuel)%nat -> Z.of_nat fuel <= 2 ^ k ->
  index = (start + 2 ^ k - Z.of_nat fuel) mod 2 ^ k ->
  exists i found c',
    find_slot_loop fuel table source_agent_id frequency_id start index w
    = Done (i, found) (with_rtable table (set_rt_collision_count c' t) w)
    /\ (found = true ->
        exists e, rt_entries t !! Z.to_nat i = Some e /\ route_key e
                  /\ re_source_agent_id e <> 0).
Proof.
  assert (Hpow : 0 < 2 ^ k) by (apply Z.pow_pos_nonneg; lia).
  assert (Hpow32 : 2 ^ k <= 2 ^ 31) by (apply Z.pow_le_mono_r; lia).
  induction fuel as [|fuel IH]; intros index c w Hl Hfuel1 Hfuel2 Hindex;
    [lia|].
  assert (Hrange : 0 <= index < 2 ^ k)
    by (rewrite Hindex; apply Z.mod_pos_bound; lia).
  destruct (lookup_lt_is_Some_2 (rt_entries t) (Z.to_nat index)) as [e He];
    [lia|].
  simpl find_slot_loop.
  erewrite bind_done by (apply load_done; eassumption).
  cbn [rt_entries set_rt_collision_count]. rewrite He.
  destruct (Z.eqb_spec (re_source_agent_id e) 0) as [Hzero|Hnz].
  { exists index, false, c. rewrite with_rtable_same by exact Hl.
    split; [reflexivity | discriminate]. }
  destruct ((re_source_agent_id e =? source_agent_id)
            && (re_frequency_id e =? frequency_id)) eqn:Hkey.
  { exists index, true, c. rewrite with_rtable_same by exact Hl.
    split; [reflexivity|]. intros _. exists e. split; [exact He|].
    apply andb_true_iff in Hkey as [H1 H2].
    split; [split; apply Z.eqb_eq; assumption | exact Hnz]. }
  erewrite bind_done by reflexivity.
  cbn [rt_mask rt_collision_count set_rt_collision_count].
  rewrite u32_small by lia. rewrite mask_eq, land_mask by lia.
  assert (Hnext : (index + 1) mod 2 ^ k
                  = (start + 2 ^ k - Z.of_nat fuel) mod 2 ^ k).
  { rewrite Hindex, Zplus_mod_idemp_l. f_equal. lia. }
  destruct (Z.eqb_spec ((index + 1) mod 2 ^ k) start) as [Hback|Hon].
  { eexists _, false, _. split; [reflexivity | discriminate]. }
  assert (Hmore : (1 <= fuel)%nat).
  { destruct fuel; [|lia]. exfalso. apply Hon. rewrite Hnext.
    replace (start + 2 ^ k - Z.of_nat 0) with (start + 1 * 2 ^ k) by lia.
    rewrite Z.mod_add by lia. apply Z.mod_small. exact start_range. }
  destruct (IH ((index + 1) mod 2 ^ k) (u32 (c + 1))
               (with_rtable table
                  (set_rt_collision_count (u32 (c + 1)) t) w))
    as (i & found & c' & E & Hfound);
    [apply lookup_insert_eq | exact Hmore | lia | exact Hnext |].
  exists i, found, c'. split; [|exact Hfound].
  unfold store_rtable, modify in *.
  etransitivity; [exact E|]. rewrite with_rtable_twice. reflexivity.
Qed.

(** A route that sits [n] probes ahead, behind occupied slots of other
    routes, is found after [n] collisions. *)
Lemma find_slot_loop_hit (n : nat) (e : RoutingEntry) :
  forall index c w (fuel : nat),
  rtables w !! table = Some (set_rt_collision_count c t) ->
  (n < fuel)%nat -> 0 <= index < 2 ^ k -> 0 <= c < 2 ^ 32 ->
  rt_entries t !! Z.to_nat ((index + Z.of_nat n) mod 2 ^ k) = Some e ->
  re_source_agent_id e <> 0 -> route_key e ->
  (forall (j : nat) e', (j < n)%nat ->
     rt_entries t !! Z.to_nat ((index + Z.of_nat j) mod 2 ^ k) = Some e' ->
     re_source_agent_id e' <> 0 /\ ~ route_key e') ->
  (forall j : nat, (1 <= j <= n)%nat ->
     (index + Z.of_nat j) mod 2 ^ k <> start) ->
  find_slot_loop fuel table source_agent_id frequency_id start index w
  = Done ((index + Z.of_nat n) mod 2 ^ k, true)
      (with_rtable table
         (set_rt_collision_count (u32 (c + Z.of_nat n)) t) w).
Proof.
  assert (Hpow : 0 < 2 ^ k) by (apply Z.pow_pos_nonneg; lia).
  assert (Hpow32 : 2 ^ k <= 2 ^ 31) by (apply Z.pow_le_mono_r; lia).
  induction n as [|n IH];
    intros index c w fuel Hl Hfuel Hindex Hc He Hnz Hkey Hbefore Hwrap;
    (destruct fuel as [|fuel]; [lia|]).
  - simpl Z.of_nat in *. rewrite Z.add_0_r in *.
    rewrite (Z.mod_small index) in * by exact Hindex.
    simpl find_slot_loop.
    erewrite bind_done by (apply load_done; eassumption).
    cbn [rt_entries set_rt_collision_count]. rewrite He.
    rewrite (proj2 (Z.eqb_neq _ _) Hnz).
    destruct Hkey as [K1 K2].
    rewrite (proj2 (Z.eqb_eq _ _) K1), (proj2 (Z.eqb_eq _ _) K2).
    simpl. rewrite Z.add_0_r, u32_small by exact Hc.
    rewrite with_rtable_same by exact Hl. reflexivity.
  - destruct (lookup_lt_is_Some_2 (rt_entries t) (Z.to_nat index))
      as [e0 He0]; [lia|].
    destruct (Hbefore 0%nat e0 ltac:(lia)) as [Hnz0 Hnk0].
    { simpl. rewrite Z.add_0_r, Z.mod_small by exact Hindex. exact He0. }
    simpl find_slot_loop.
    erewrite bind_done by (apply load_done; eassumption).
    cbn [rt_entries set_rt_collision_count]. rewrite He0.
    rewrite (proj2 (Z.eqb_neq _ _) Hnz0).
    assert (Hk0 : (re_source_agent_id e0 =? source_agent_id)
                  && (re_frequency_id e0 =? frequency_id) = false).
    { apply not_true_is_false. intros Hk. apply Hnk0.
      apply andb_true_iff in Hk as [H1 H2].
      split; apply Z.eqb_eq; assumption. }
    rewrite Hk0.
    erewrite bind_done by reflexivity.
    cbn [rt_mask rt_collision_count set_rt_collision_count].
    rewrite (u32_small (index + 1)) by lia.
    rewrite mask_eq, land_mask by lia.
    assert (Hne : (index + 1) mod 2 ^ k <> start).
    { apply (Hwrap 1%nat). lia. }
    rewrite (proj2 (Z.eqb_neq _ _) Hne).
    assert (Hshift : forall j : nat,
              ((index + 1) mod 2 ^ k + Z.of_nat j) mod 2 ^ k
              = (index + Z.of_nat (S j)) mod 2 ^ k).
    { intros j. rewrite Zplus_mod_idemp_l. f_equal. lia. }
    etransitivity;
      [apply (IH ((index + 1) mod 2 ^ k) (u32 (c + 1))
                (with_rtable table
                   (set_rt_collision_count (u32 (c + 1)) t) w) fuel)|].
    10: { rewrite Hshift, with_rtable_twice, u32_add_assoc.
          replace (c + (1 + Z.of_nat n)) with (c + Z.of_nat (S n)) by lia.
          reflexivity. }
    + apply lookup_insert_eq.
    + lia.
    + apply Z.mod_pos_bound. lia.
    + apply u32_range.
    + rewrite Hshift. exact He.
    + exact Hnz.
    + exact Hkey.
    + intros j e' Hj He'. rewrite Hshift in He'.
      apply (Hbefore (S j) e'); [lia | exact He'].
    + intros j Hj. rewrite Hshift. apply Hwrap. lia.
Qed.
End Probe.

Lemma find_slot_sound table source_agent_id frequency_id t w :
  table <> NULL -> rtables w !! table = Some t -> rtable_wf t ->
  exists i found c',
    find_slot table source_agent_id frequency_id w
    = Done (i, found) (with_rtable table (set_rt_collision_count c' t) w)
    /\ (found = true ->
        exists e, rt_entries t !! Z.to_nat i = Some e
                  /\ route_key source_agent_id frequency_id e
                  /\ re_source_agent_id e <> 0).
Proof.
  intros Ht Hl (k & Hk & Hmask & Hlen).
  assert (Hpow : 0 < 2 ^ k) by (apply Z.pow_pos_nonneg; lia).
  unfold find_slot.
  set (start := Z.land (fnv1a_hash source_agent_id frequency_id) (rt_mask t)).
  assert (Hstart : 0 <= start < 2 ^ k).
  { unfold start. rewrite Hmask, land_mask by lia.
    apply Z.mod_pos_bound; lia. }
  destruct (find_slot_loop_sound table source_agent_id frequency_id start k t
              Ht Hk Hmask Hlen Hstart (S (Z.to_nat (rt_mask t))) start
              (rt_collision_count t) w)
    as (i & found & c' & E & Hfound).
  - destruct t; exact Hl.
  - lia.
  - rewrite Hmask; lia.
  - rewrite Hmask.
    replace (start + 2 ^ k - Z.of_nat (S (Z.to_nat (2 ^ k - 1))))
      with start by lia.
    symmetry; apply Z.mod_small; exact Hstart.
  - exists i, found, c'. split; [|exact Hfound].
    erewrite bind_done by (apply load_done; eassumption). exact E.
Qed.

Lemma find_slot_miss table source_agent_id frequency_id t w :
  table <> NULL -> rtables w !! table = Some t -> rtable_wf t ->
  source_agent_id = 0
  \/ (forall i e, rt_entries t !! i = Some e ->
        ~ route_key source_agent_id frequency_id e) ->
  exists i c',
    find_slot table source_agent_id frequency_id w
    = Done (i, false) (with_rtable table (set_rt_collision_count c' t) w).
Proof.
  intros Ht Hl Hwf Hmiss.
  destruct (find_slot_sound table source_agent_id frequency_id t w Ht Hl Hwf)
    as (i & found & c' & E & Hfound).
  destruct found; [exfalso|eauto].
  destruct (Hfound eq_refl) as (e & He & [K1 K2] & Hnz).
  destruct Hmiss as [->|Habsent].
  - congruence.
  - apply (Habsent _ e He). split; assumption.
Qed.

Lemma routing_miss table source_agent_id frequency_id signal agents t s w :
  table <> NULL -> rtables w !! table = Some t -> rtable_wf t ->
  source_agent_id = 0
  \/ (forall i e, rt_entries t !! i = Some e ->
        ~ route_key source_agent_id frequency_id e) ->
  (exists w',
     routing_lookup table source_agent_id frequency_id true w
     = Done (None, Some 0) w')
  /\ (signal <> NULL -> signals w !! signal = Some s ->
      sig_source_agent_id s = source_agent_id ->
      sig_frequency_id s = frequency_id ->
      exists w',
        routing_broadcast table signal agents w = Done 0 w'
        /\ signals w' = signals w /\ queues w' = queues w).
Proof.
  intros Ht Hl Hwf Hmiss.
  destruct (find_slot_miss table source_agent_id frequency_id t w Ht Hl Hwf
              Hmiss) as (i & c' & E).
  split.
  - unfold routing_lookup.
    rewrite (proj2 (Z.eqb_neq table NULL)) by exact Ht. simpl.
    erewrite bind_done by exact E. eexists. reflexivity.
  - intros Hs Hls <- <-. unfold routing_broadcast, routing_get_entry.
    rewrite (proj2 (Z.eqb_neq table NULL)), (proj2 (Z.eqb_neq signal NULL))
      by assumption. simpl.
    erewrite bind_done by (apply load_done; eassumption).
    erewrite bind_done by (erewrite bind_done by exact E; reflexivity).
    eexists. split; [reflexivity|]. split; reflexivity.
Qed.

(** X20: a route is found where linear probing put it.  When the route
    for a key with a non-zero source sits [d] probes after the home slot
    of the key and the slots probed before hold other routes,
    [routing_lookup] returns its destinations and their number,
    [routing_get_entry] its slot, and [collision_count] has grown by
    [d]. *)
Theorem routing_lookup_finds (table source_agent_id frequency_id : Z)
    (t : RoutingTable) (e : RoutingEntry) (d : nat) (w : World) :
  table <> NULL -> rtables w !! table = Some t -> rtable_wf t ->
  0 <= rt_collision_count t < 2 ^ 32 ->
  Z.of_nat d <= rt_mask t ->
  rt_entries t !! probe_slot t source_agent_id frequency_id d = Some e ->
  route_key source_agent_id frequency_id e -> source_agent_id <> 0 ->
  (forall (j : nat) e', (j < d)%nat ->
     rt_entries t !! probe_slot t source_agent_id frequency_id j = Some e' ->
     re_source_agent_id e' <> 0
     /\ ~ route_key source_agent_id frequency_id e') ->
  let w' := with_rtable table
              (set_rt_collision_count
                 (u32 (rt_collision_count t + Z.of_nat d)) t) w in
  routing_lookup table source_agent_id frequency_id true w
  = Done (Some (re_dest_agent_ids e), Some (re_dest_count e)) w'
  /\ routing_get_entry table source_agent_id frequency_id w
     = Done (Some (Z.of_nat (probe_slot t source_agent_id frequency_id d))) w'.
Proof.
  intros Ht Hl (k & Hk & Hmask & Hlen) Hc Hd He Hkey Hsrc Hbefore w'.
  assert (Hpow : 0 < 2 ^ k) by (apply Z.pow_pos_nonneg; lia).
  set (start := Z.land (fnv1a_hash source_agent_id frequency_id) (rt_mask t)).
  assert (Hstart : 0 <= start < 2 ^ k).
  { unfold start. rewrite Hmask, land_mask by lia.
    apply Z.mod_pos_bound; lia. }
  assert (Hprobe : forall j : nat,
            probe_slot t source_agent_id frequency_id j
            = Z.to_nat ((start + Z.of_nat j) mod 2 ^ k)).
  { intros j. unfold probe_slot. fold start.
    rewrite Hmask, land_mask by lia. reflexivity. }
  assert (Efind : find_slot table source_agent_id frequency_id w
                  = Done ((start + Z.of_nat d) mod 2 ^ k, true) w').
  { unfold find_slot.
    erewrite bind_done by (apply load_done; eassumption). fold start.
    apply (find_slot_loop_hit table source_agent_id frequency_id start k t
             Ht Hk Hmask Hlen d e start (rt_collision_count t) w).
    - destruct t; exact Hl.
    - rewrite Hmask in *. lia.
    - exact Hstart.
    - exact Hc.
    - rewrite <- Hprobe. exact He.
    - destruct Hkey as [K _]. congruence.
    - exact Hkey.
    - intros j e' Hj He'. apply (Hbefore j e' Hj). rewrite Hprobe. exact He'.
    - intros j Hj E.
      assert (start + Z.of_nat j = start).
      { apply (mod_inj_small _ _ (2 ^ k)); [lia| |rewrite Hmask in *; lia].
        rewrite E. symmetry. apply Z.mod_small. exact Hstart. }
      lia. }
  assert (Hslot : Z.of_nat (probe_slot t source_agent_id frequency_id d)
                  = (start + Z.of_nat d) mod 2 ^ k).
  { rewrite Hprobe, Z2Nat.id; [reflexivity|].
    apply Z.mod_pos_bound. lia. }
  split.
  - unfold routing_lookup.
    rewrite (proj2 (Z.eqb_neq table NULL)) by exact Ht. simpl.
    erewrite bind_done by exact Efind. cbv beta iota.
    assert (Eload : load_entry table ((start + Z.of_nat d) mod 2 ^ k) w'
                    = Done e w').
    { unfold load_entry.
      erewrite bind_done
        by (apply load_done; [exact Ht | apply lookup_insert_eq]).
      cbn [rt_entries set_rt_collision_count].
      rewrite <- Hprobe, He. reflexivity. }
    erewrite bind_done by exact Eload. reflexivity.
  - unfold routing_get_entry.
    rewrite (proj2 (Z.eqb_neq table NULL)) by exact Ht.
    erewrite bind_done by exact Efind. rewrite Hslot. reflexivity.
Qed.

Lemma routing_lookup_finds_witness :
  let w' := with_rtable 9800
              (set_rt_collision_count (u32 (0 + Z.of_nat 0)) demo_rtable)
              broadcast_world in
  routing_lookup 9800 1 7 true broadcast_world
  = Done (Some [2; 3], Some 2) w'
  /\ routing_get_entry 9800 1 7 broadcast_world
     = Done (Some (Z.of_nat (probe_slot demo_rtable 1 7 0))) w'.
Proof.
  apply (routing_lookup_finds 9800 1 7 demo_rtable demo_route 0
           broadcast_world).
  - discriminate.
  - vm_compute; reflexivity.
  - exists 2. split; [lia|]. split; reflexivity.
  - simpl; lia.
  - simpl; lia.
  - vm_compute; reflexivity.
  - split; reflexivity.
  - discriminate.
  - intros j e' Hj. lia.
Defined.

(** X21: a key the table does not hold has no route.  [routing_lookup]
    returns [NULL] and stores 0 in [*out_count], and [routing_broadcast]
    of a signal with that key delivers to nobody and touches neither the
    signal nor any mailbox.  This holds for a table of any load, a full one
    included. *)
Theorem routing_lookup_misses (table source_agent_id frequency_id : Z)
    (signal agents : Z) (t : RoutingTable) (s : Signal) (w : World) :
  table <> NULL -> rtables w !! table = Some t -> rtable_wf t ->
  (forall i e, rt_entries t !! i = Some e ->
     ~ route_key source_agent_id frequency_id e) ->
  (exists w',
     routing_lookup table source_agent_id frequency_id true w
     = Done (None, Some 0) w')
  /\ (signal <> NULL -> signals w !! signal = Some s ->
      sig_source_agent_id s = source_agent_id ->
      sig_frequency_id s = frequency_id ->
      exists w',
        routing_broadcast table signal agents w = Done 0 w'
        /\ signals w' = signals w /\ queues w' = queues w).
Proof.
  intros Ht Hl Hwf Habsent. apply (routing_miss _ _ _ _ _ t); auto.
Qed.

Lemma routing_lookup_misses_witness :
  (exists w',
     routing_lookup 9800 1 9 true two_signals_world = Done (None, Some 0) w')
  /\ (exists w',
        routing_broadcast 9800 4288 9500 two_signals_world = Done 0 w'
        /\ signals w' = signals two_signals_world
        /\ queues w' = queues two_signals_world).
Proof.
  destruct (routing_lookup_misses 9800 1 9 4288 9500 demo_rtable
              (mkSignal 9 1 2 1 0 0 0 1) two_signals_world) as [Hlookup Hcast].
  - discriminate.
  - vm_compute; reflexivity.
  - exists 2. split; [lia|]. split; reflexivity.
  - intros i e He [K1 K2].
    destruct i as [|[|[|[|i]]]]; vm_compute in He; try discriminate;
      injection He as <-; vm_compute in K2; discriminate.
  - split; [exact Hlookup|]. apply Hcast.
    + discriminate.
    + vm_compute; reflexivity.
    + reflexivity.
    + reflexivity.
Defined.

(** X22: agent 0 cannot be the source of a route.  [find_slot] takes an
    entry whose [source_agent_id] is 0 for an empty slot, so for the source
    0 nothing is ever found, whatever the table holds: [routing_lookup]
    returns [NULL], and [routing_broadcast] of a signal from agent 0
    delivers to nobody. *)
Theorem routing_agent_zero_unroutable (table frequency_id signal agents : Z)
    (t : RoutingTable) (s : Signal) (w : World) :
  table <> NULL -> rtables w !! table = Some t -> rtable_wf t ->
  (exists w',
     routing_lookup table 0 frequency_id true w = Done (None, Some 0) w')
  /\ (signal <> NULL -> signals w !! signal = Some s ->
      sig_source_agent_id s = 0 ->
      exists w',
        routing_broadcast table signal agents w = Done 0 w'
        /\ signals w' = signals w /\ queues w' = queues w).
Proof.
  intros Ht Hl Hwf. split.
  - apply (routing_miss table 0 frequency_id signal agents t s w); auto.
  - intros Hs Hls Hsrc.
    apply (routing_miss table 0 (sig_frequency_id s) signal agents t s w);
      auto.
Qed.

Lemma routing_agent_zero_unroutable_witness :
  rt_entries zero_rtable !! probe_slot zero_rtable 0 7 0 = Some zero_route
  /\ (exists w',
        routing_lookup 9800 0 7 true zero_world = Done (None, Some 0) w')
  /\ (exists w',
        routing_broadcast 9800 4288 9500 zero_world = Done 0 w'
        /\ signals w' = signals zero_world
        /\ queues w' = queues zero_world).
Proof.
  destruct (routing_agent_zero_unroutable 9800 7 4288 9500 zero_rtable
              (mkSignal 7 0 2 1 0 0 0 1) zero_world) as [Hlookup Hcast].
  - discriminate.
  - vm_compute; reflexivity.
  - exists 2. split; [lia|]. split; reflexivity.
  - split; [vm_compute; reflexivity|]. split; [exact Hlookup|]. apply Hcast.
    + discriminate.
    + vm_compute; reflexivity.
    + reflexivity.
Defined.

(** ** Registering handlers *)

Section RegistrationProofs.
Context `{DispatchHeader} `{DispatchSizes} (call : Code).

Lemma has_flag_lor_other f a b :
  Z.land a b = 0 -> has_flag (Z.lor f b) a = has_flag f a.
Proof.
  intros Hab. unfold has_flag.
  rewrite Z.land_lor_distr_l, (Z.land_comm b a), Hab, Z.lor_0_r.
  reflexivity.
Qed.

Lemma has_flag_clear_other f a b :
  Z.land a b = 0 -> has_flag (Z.land f (Z.lnot b)) a = has_flag f a.
Proof.
  intros Hab. unfold has_flag.
  replace (Z.land (Z.land f (Z.lnot b)) a) with (Z.land f a);
    [reflexivity|].
  apply Z.bits_inj'. intros i Hi.
  rewrite !Z.land_spec, Z.lnot_spec by exact Hi.
  assert (Hbit : Z.testbit (Z.land a b) i = false)
    by (rewrite Hab; apply Z.bits_0).
  rewrite Z.land_spec in Hbit.
  destruct (Z.testbit f i), (Z.testbit a i), (Z.testbit b i);
    simpl in *; congruence.
Qed.

Lemma has_flag_clear_self f a : has_flag (Z.land f (Z.lnot a)) a = false.
Proof.
  unfold has_flag.
  rewrite <- Z.land_assoc, (Z.land_comm (Z.lnot a) a), Z.land_lnot_diag,
    Z.land_0_r.
  reflexivity.
Qed.

Lemma has_flag_self a : a <> 0 -> has_flag a a = true.
Proof.
  intros Ha. unfold has_flag. rewrite Z.land_diag.
  apply negb_true_iff, Z.eqb_neq. exact Ha.
Qed.

Lemma guard_flag_active guard flags :
  flags_sane ->
  has_flag (guard_flag guard flags) DISPATCH_FLAG_ACTIVE
  = has_flag flags DISPATCH_FLAG_ACTIVE.
Proof.
  intros [_ Hdis]. unfold guard_flag.
  destruct (negb (guard =? NULL)).
  - apply has_flag_lor_other. exact Hdis.
  - apply has_flag_clear_other. exact Hdis.
Qed.

Lemma table_sized_wf t : table_sized t -> table_wf t.
Proof. intros (Hlen & Hcount & _). unfold table_wf. lia. Qed.

(** What [dispatch_lookup] answers, by the shape of the table. *)
Lemma dispatch_lookup_run table t kind w :
  table <> NULL -> tables w !! table = Some t -> table_wf t ->
  (no_match t kind -> dispatch_lookup table kind w = Done NULL w)
  /\ (forall i e, first_match t kind i e ->
        dispatch_lookup table kind w = Done (de_handler e) w).
Proof.
  intros Ht Hl Hwf. unfold dispatch_lookup.
  rewrite (proj2 (Z.eqb_neq table NULL)) by exact Ht.
  erewrite bind_done by (apply load_done; eassumption).
  split.
  - intros Hno. rewrite dispatch_scan_none; [reflexivity | exact Hwf |].
    intros j e Hj. apply Hno. lia.
  - intros i e (Hi & He & Hm & Hbefore).
    rewrite (dispatch_scan_some _ _ _ i e); auto; [|lia|].
    + rewrite He. reflexivity.
    + intros j' e' Hj'. apply Hbefore. lia.
Qed.

(** Two tables of the same size whose entries match a kind alike answer
    the lookup of that kind alike, up to the handler stored. *)
Lemma match_transfer t t' kind :
  dt_entry_count t' = dt_entry_count t ->
  length (dt_entries t') = length (dt_entries t) ->
  (forall (j : nat) e e',
     dt_entries t !! j = Some e -> dt_entries t' !! j = Some e' ->
     entry_matches kind e' = entry_matches kind e) ->
  (no_match t kind -> no_match t' kind)
  /\ (forall i e, first_match t kind i e ->
        exists e', dt_entries t' !! i = Some e' /\ first_match t' kind i e').
Proof.
  intros Hcount Hlen Hsame.
  assert (Hold : forall (j : nat) e',
            dt_entries t' !! j = Some e' ->
            exists e, dt_entries t !! j = Some e).
  { intros j e' He'. apply lookup_lt_is_Some_2.
    apply lookup_lt_Some in He'. lia. }
  split.
  - intros Hno i e' Hi He'. rewrite Hcount in Hi.
    destruct (Hold i e' He') as (e & He).
    rewrite (Hsame i e e' He He'). apply (Hno i e Hi He).
  - intros i e (Hi & He & Hm & Hbefore).
    destruct (lookup_lt_is_Some_2 (dt_entries t') i) as [e' He'].
    { apply lookup_lt_Some in He. lia. }
    exists e'. split; [exact He'|].
    split; [rewrite Hcount; exact Hi|]. split; [exact He'|].
    split; [rewrite (Hsame i e e' He He'); exact Hm|].
    intros j e2' Hj He2'.
    destruct (Hold j e2' He2') as (e2 & He2).
    rewrite (Hsame j e2 e2' He2 He2'). apply (Hbefore j e2 Hj He2).
Qed.

Lemma unique_transfer t t' :
  dt_entry_count t' = dt_entry_count t ->
  length (dt_entries t') = length (dt_entries t) ->
  (forall kind (j : nat) e e',
     dt_entries t !! j = Some e -> dt_entries t' !! j = Some e' ->
     entry_matches kind e' = true -> entry_matches kind e = true) ->
  unique_active t -> unique_active t'.
Proof.
  intros Hcount Hlen Hsub Huniq kind i j e1' e2' Hi Hj He1' He2' Hm1 Hm2.
  rewrite Hcount in Hi, Hj.
  destruct (lookup_lt_is_Some_2 (dt_entries t) i) as [e1 He1].
  { apply lookup_lt_Some in He1'. lia. }
  destruct (lookup_lt_is_Some_2 (dt_entries t) j) as [e2 He2].
  { apply lookup_lt_Some in He2'. lia. }
  apply (Huniq kind i j e1 e2 Hi Hj He1 He2).
  - apply (Hsub kind i e1 e1' He1 He1' Hm1).
  - apply (Hsub kind j e2 e2' He2 He2' Hm2).
Qed.

Lemma entry_matches_kind kind e :
  entry_matches kind e = true -> de_frequency_id e = kind.
Proof.
  unfold entry_matches. intros Hm. apply andb_true_iff in Hm as [_ Hf].
  apply Z.eqb_eq. exact Hf.
Qed.

(** The lookup of a kind in [t'] answers as in [t]. *)
Lemma dispatch_lookup_same table table' t t' kind w w' :
  table <> NULL -> tables w !! table = Some t ->
  tables w' !! table = Some t' ->
  table_wf t -> table_wf t' ->
  (no_match t kind -> no_match t' kind) ->
  (forall i e, first_match t kind i e ->
     exists e', first_match t' kind i e' /\ de_handler e' = de_handler e) ->
  table' = table ->
  value_of (dispatch_lookup table' kind w')
  = value_of (dispatch_lookup table kind w).
Proof.
  intros Ht Hl Hl' Hwf Hwf' Hno Hfirst ->.
  destruct (dispatch_lookup_run table t kind w Ht Hl Hwf) as [A B].
  destruct (dispatch_lookup_run table t' kind w' Ht Hl' Hwf') as [A' B'].
  destruct (table_cases t kind Hwf) as [Hn|(i & e & Hf)].
  - rewrite (A Hn), (A' (Hno Hn)). reflexivity.
  - destruct (Hfirst i e Hf) as (e' & Hf' & Hh).
    rewrite (B i e Hf), (B' i e' Hf'), Hh. reflexivity.
Qed.

Lemma dispatch_register_scan table t kind handler guard w :
  table <> NULL -> handler <> NULL -> tables w !! table = Some t ->
  dispatch_register table kind handler guard w
  = match dispatch_scan (Z.to_nat (dt_entry_count t)) (dt_entries t)
                        kind 0 with
    | None => Fault
    | Some (Some i) =>
        match dt_entries t !! i with
        | None => Fault
        | Some e =>
            Done DISPATCH_OK
              (set_tables
                 (<[table := set_dt_entries
                      (<[i := mkEntry (de_frequency_id e)
                                      (guard_flag guard (de_flags e))
                                      handler guard]> (dt_entries t)) t]>
                    (tables w)) w)
        end
    | Some None =>
        if dt_capacity t <=? dt_entry_count t
        then Done DISPATCH_ERR_ALLOC_FAILED w
        else
          match dt_entries t !! Z.to_nat (dt_entry_count t) with
          | None => Fault
          | Some _ =>
              Done DISPATCH_OK
                (set_tables
                   (<[table := set_dt_entry_count
                        (u32 (dt_entry_count t + 1))
                        (set_dt_entries
                           (<[Z.to_nat (dt_entry_count t) :=
                                mkEntry kind
                                  (if negb (guard =? NULL)
                                   then Z.lor DISPATCH_FLAG_ACTIVE
                                              DISPATCH_FLAG_HAS_GUARD
                                   else DISPATCH_FLAG_ACTIVE)
                                  handler guard]> (dt_entries t)) t)]>
                      (tables w)) w)
          end
    end.
Proof.
  intros Ht Hh Hl. unfold dispatch_register.
  rewrite (proj2 (Z.eqb_neq table NULL)), (proj2 (Z.eqb_neq handler NULL))
    by assumption. change (false || false) with false. cbv iota.
  erewrite bind_done by (apply load_done; eassumption).
  destruct (dispatch_scan _ _ _ _) as [[i|]|]; [| |reflexivity].
  - destruct (dt_entries t !! i); reflexivity.
  - destruct (_ <=? _); [reflexivity|]. cbv zeta.
    destruct (dt_entries t !! _); reflexivity.
Qed.

Lemma dispatch_unregister_scan table t kind w :
  table <> NULL -> tables w !! table = Some t ->
  dispatch_unregister table kind w
  = match dispatch_scan (Z.to_nat (dt_entry_count t)) (dt_entries t)
                        kind 0 with
    | None => Fault
    | Some (Some i) =>
        match dt_entries t !! i with
        | None => Fault
        | Some e =>
            Done DISPATCH_OK
              (set_tables
                 (<[table := set_dt_entries
                      (<[i := mkEntry (de_frequency_id e)
                                (Z.land (de_flags e)
                                        (Z.lnot DISPATCH_FLAG_ACTIVE))
                                (de_handler e) (de_guard e)]>
                         (dt_entries t)) t]>
                    (tables w)) w)
        end
    | Some None => Done DISPATCH_ERR_NO_HANDLER w
    end.
Proof.
  intros Ht Hl. unfold dispatch_unregister.
  rewrite (proj2 (Z.eqb_neq table NULL)) by assumption.
  erewrite bind_done by (apply load_done; eassumption).
  destruct (dispatch_scan _ _ _ _) as [[i|]|]; [| |reflexivity].
  - destruct (dt_entries t !! i); reflexivity.
  - reflexivity.
Qed.

Lemma scan_first_match t kind i e :
  first_match t kind i e ->
  dispatch_scan (Z.to_nat (dt_entry_count t)) (dt_entries t) kind 0
  = Some (Some i).
Proof.
  intros (Hi & He & Hm & Hbefore).
  apply (dispatch_scan_some _ _ _ i e); auto; [lia|].
  intros j' e' Hj'. apply Hbefore. lia.
Qed.

Lemma scan_no_match t kind :
  table_wf t -> no_match t kind ->
  dispatch_scan (Z.to_nat (dt_entry_count t)) (dt_entries t) kind 0
  = Some None.
Proof.
  intros Hwf Hno. apply dispatch_scan_none; [exact Hwf|].
  intros j e Hj. apply Hno. lia.
Qed.

(** Replacing the handler and guard of the active entry of [kind]. *)
Lemma register_update_props t kind i e handler guard :
  flags_sane -> table_sized t -> unique_active t ->
  first_match t kind i e ->
  let e' := mkEntry (de_frequency_id e) (guard_flag guard (de_flags e))
                    handler guard in
  let t' := set_dt_entries (<[i := e']> (dt_entries t)) t in
  table_sized t' /\ unique_active t'
  /\ first_match t' kind i e'
  /\ (forall other, other <> kind ->
        (no_match t other -> no_match t' other)
        /\ (forall j e2, first_match t other j e2 ->
              exists e2', first_match t' other j e2'
                          /\ de_handler e2' = de_handler e2)).
Proof.
  intros Hsane Hsized Huniq Hfirst e' t'.
  pose proof Hfirst as (Hi & He & Hm & Hbefore).
  assert (Hlen : length (dt_entries t') = length (dt_entries t))
    by (simpl; apply length_insert).
  assert (Hstatus : forall k (j : nat) e1 e1',
            dt_entries t !! j = Some e1 -> dt_entries t' !! j = Some e1' ->
            entry_matches k e1' = entry_matches k e1).
  { intros k j e1 e1' H1 H1'. simpl in H1'.
    destruct (Nat.eq_dec j i) as [->|Hne].
    - rewrite list_lookup_insert_eq in H1'
        by (apply lookup_lt_Some in He; exact He).
      injection H1' as <-. assert (e1 = e) by congruence. subst e1.
      unfold entry_matches. simpl.
      rewrite guard_flag_active by exact Hsane. reflexivity.
    - rewrite list_lookup_insert_ne in H1' by congruence.
      assert (e1' = e1) by congruence. subst e1'. reflexivity. }
  assert (Hli : dt_entries t' !! i = Some e').
  { simpl. apply list_lookup_insert_eq. apply lookup_lt_Some in He. exact He. }
  split; [|split; [|split]].
  - destruct Hsized as (Hl & Hc & Hcap). split; [|split]; simpl; auto.
    rewrite length_insert. exact Hl.
  - apply (unique_transfer t t'); auto.
    intros k j e1 e1' H1 H1' Hm1.
    rewrite <- (Hstatus k j e1 e1' H1 H1'). exact Hm1.
  - destruct (match_transfer t t' kind eq_refl Hlen (Hstatus kind))
      as [_ Hf].
    destruct (Hf i e Hfirst) as (e'' & He'' & Hf'').
    assert (e'' = e') by congruence. subst e''. exact Hf''.
  - intros other Hother.
    destruct (match_transfer t t' other eq_refl Hlen (Hstatus other))
      as [Hn Hf].
    split; [exact Hn|].
    intros j e2 Hf2. destruct (Hf j e2 Hf2) as (e2' & He2' & Hf2').
    exists e2'. split; [exact Hf2'|].
    destruct Hf2 as (_ & He2 & Hm2 & _).
    destruct (Nat.eq_dec j i) as [->|Hne].
    + exfalso. assert (e2 = e) by congruence. subst e2.
      apply entry_matches_kind in Hm, Hm2. congruence.
    + simpl in He2'. rewrite list_lookup_insert_ne in He2' by congruence.
      congruence.
Qed.

(** Taking the next free entry for a kind that has no active entry. *)
Lemma register_append_props t kind handler guard :
  flags_sane -> table_sized t -> unique_active t ->
  no_match t kind -> dt_entry_count t < dt_capacity t ->
  let n := Z.to_nat (dt_entry_count t) in
  let new := mkEntry kind
               (if negb (guard =? NULL)
                then Z.lor DISPATCH_FLAG_ACTIVE DISPATCH_FLAG_HAS_GUARD
                else DISPATCH_FLAG_ACTIVE)
               handler guard in
  let t' := set_dt_entry_count (u32 (dt_entry_count t + 1))
              (set_dt_entries (<[n := new]> (dt_entries t)) t) in
  (exists slot, dt_entries t !! n = Some slot)
  /\ dt_entry_count t' = dt_entry_count t + 1
  /\ table_sized t' /\ unique_active t'
  /\ first_match t' kind n new
  /\ (forall other, other <> kind ->
        (no_match t other -> no_match t' other)
        /\ (forall j e2, first_match t other j e2 ->
              exists e2', first_match t' other j e2'
                          /\ de_handler e2' = de_handler e2)).
Proof.
  intros [Hact Hdis] (Hl & Hc & Hcap) Huniq Hno Hroom n new t'.
  assert (Hn : (n < length (dt_entries t))%nat) by (subst n; lia).
  assert (Hcount' : dt_entry_count t' = dt_entry_count t + 1).
  { simpl. apply u32_small. lia. }
  assert (Hnew : entry_matches kind new = true).
  { unfold entry_matches, new. simpl. rewrite Z.eqb_refl, andb_true_r.
    destruct (negb (guard =? NULL)).
    - rewrite has_flag_lor_other by exact Hdis. apply has_flag_self, Hact.
    - apply has_flag_self, Hact. }
  assert (Hln : dt_entries t' !! n = Some new)
    by (simpl; apply list_lookup_insert_eq; exact Hn).
  assert (Hlo : forall j : nat, j <> n ->
            dt_entries t' !! j = dt_entries t !! j).
  { intros j Hj. simpl. apply list_lookup_insert_ne. congruence. }
  assert (Hnn : Z.to_nat (dt_entry_count t') = S n).
  { rewrite Hcount'. subst n. lia. }
  split; [apply lookup_lt_is_Some_2; exact Hn|].
  split; [exact Hcount'|]. split; [|split; [|split]].
  - split; [|split].
    + simpl. rewrite length_insert. exact Hl.
    + rewrite Hcount'. simpl. lia.
    + exact Hcap.
  - intros k i j e1 e2 Hi Hj He1 He2 Hm1 Hm2.
    rewrite Hnn in Hi, Hj.
    destruct (Nat.eq_dec i n) as [->|Hin], (Nat.eq_dec j n) as [->|Hjn];
      [reflexivity | exfalso | exfalso |].
    + assert (e1 = new) by congruence. subst e1.
      apply entry_matches_kind in Hm1. simpl in Hm1. subst k.
      rewrite Hlo in He2 by exact Hjn.
      rewrite (Hno j e2) in Hm2; [discriminate | lia | exact He2].
    + assert (e2 = new) by congruence. subst e2.
      apply entry_matches_kind in Hm2. simpl in Hm2. subst k.
      rewrite Hlo in He1 by exact Hin.
      rewrite (Hno i e1) in Hm1; [discriminate | lia | exact He1].
    + rewrite Hlo in He1, He2 by assumption.
      apply (Huniq k i j e1 e2); auto; lia.
  - split; [lia|]. split; [exact Hln|]. split; [exact Hnew|].
    intros j e2 Hj He2. rewrite Hlo in He2 by lia.
    apply (Hno j e2); [lia | exact He2].
  - intros other Hother. split.
    + intros Hno' j e2 Hj He2. rewrite Hnn in Hj.
      destruct (Nat.eq_dec j n) as [->|Hjn].
      * assert (e2 = new) by congruence. subst e2.
        unfold entry_matches. simpl.
        rewrite (proj2 (Z.eqb_neq kind other)) by congruence.
        apply andb_false_r.
      * rewrite Hlo in He2 by exact Hjn. apply (Hno' j e2); [lia|exact He2].
    + intros j e2 (Hj & He2 & Hm2 & Hbefore).
      exists e2. split; [|reflexivity].
      split; [lia|]. split; [rewrite Hlo by lia; exact He2|].
      split; [exact Hm2|].
      intros j' e3 Hj' He3. rewrite Hlo in He3 by lia.
      apply (Hbefore j' e3 Hj' He3).
Qed.

(** Clearing the active flag of the entry of [kind]. *)
Lemma unregister_props t kind i e :
  table_sized t -> unique_active t -> first_match t kind i e ->
  let e' := mkEntry (de_frequency_id e)
              (Z.land (de_flags e) (Z.lnot DISPATCH_FLAG_ACTIVE))
              (de_handler e) (de_guard e) in
  let t' := set_dt_entries (<[i := e']> (dt_entries t)) t in
  table_sized t' /\ unique_active t' /\ no_match t' kind
  /\ (forall other, other <> kind ->
        (no_match t other -> no_match t' other)
        /\ (forall j e2, first_match t other j e2 ->
              exists e2', first_match t' other j e2'
                          /\ de_handler e2' = de_handler e2)).
Proof.
  intros Hsized Huniq Hfirst e' t'.
  pose proof Hfirst as (Hi & He & Hm & Hbefore).
  assert (Hlen : length (dt_entries t') = length (dt_entries t))
    by (simpl; apply length_insert).
  assert (Hli : dt_entries t' !! i = Some e').
  { simpl. apply list_lookup_insert_eq. apply lookup_lt_Some in He. exact He. }
  assert (Hoff : forall k, entry_matches k e' = false).
  { intros k. unfold entry_matches, e'. simpl.
    rewrite has_flag_clear_self. reflexivity. }
  assert (Hlo : forall j : nat, j <> i ->
            dt_entries t' !! j = dt_entries t !! j).
  { intros j Hj. simpl. apply list_lookup_insert_ne. congruence. }
  split; [|split; [|split]].
  - destruct Hsized as (Hl & Hc & Hcap). split; [|split]; simpl; auto.
    rewrite length_insert. exact Hl.
  - apply (unique_transfer t t'); auto.
    intros k j e1 e1' H1 H1' Hm1.
    destruct (Nat.eq_dec j i) as [->|Hne].
    + assert (e1' = e') by congruence. subst e1'.
      rewrite Hoff in Hm1. discriminate.
    + rewrite Hlo in H1' by exact Hne.
      assert (e1' = e1) by congruence. subst e1'. exact Hm1.
  - intros j e2 Hj He2. change (dt_entry_count t') with (dt_entry_count t) in Hj.
    destruct (Nat.eq_dec j i) as [->|Hne].
    + assert (e2 = e') by congruence. subst e2. apply Hoff.
    + rewrite Hlo in He2 by exact Hne.
      destruct (entry_matches kind e2) eqn:Hm2; [exfalso|reflexivity].
      apply Hne. apply (Huniq kind j i e2 e); auto.
  - intros other Hother. split.
    + intros Hno j e2 Hj He2.
      change (dt_entry_count t') with (dt_entry_count t) in Hj.
      destruct (Nat.eq_dec j i) as [->|Hne].
      * assert (e2 = e') by congruence. subst e2. apply Hoff.
      * rewrite Hlo in He2 by exact Hne. apply (Hno j e2 Hj He2).
    + intros j e2 (Hj & He2 & Hm2 & Hbefore2).
      assert (Hji : j <> i).
      { intros ->. assert (e2 = e) by congruence. subst e2.
        apply entry_matches_kind in Hm, Hm2. congruence. }
      exists e2. split; [|reflexivity].
      split; [exact Hj|]. split; [rewrite Hlo by exact Hji; exact He2|].
      split; [exact Hm2|].
      intros j' e3 Hj' He3.
      destruct (Nat.eq_dec j' i) as [->|Hne].
      * assert (e3 = e') by congruence. subst e3. apply Hoff.
      * rewrite Hlo in He3 by exact Hne. apply (Hbefore2 j' e3 Hj' He3).
Qed.

Lemma dispatch_unregister_run table kind t w i e :
  table <> NULL -> tables w !! table = Some t ->
  table_sized t -> unique_active t -> first_match t kind i e ->
  exists w' t',
    dispatch_unregister table kind w = Done DISPATCH_OK w'
    /\ tables w' !! table = Some t'
    /\ dt_entry_count t' = dt_entry_count t
    /\ dt_capacity t' = dt_capacity t
    /\ table_sized t' /\ unique_active t' /\ no_match t' kind
    /\ (forall other, other <> kind ->
          value_of (dispatch_lookup table other w')
          = value_of (dispatch_lookup table other w)).
Proof.
  intros Ht Hl Hsized Huniq Hfirst.
  pose proof (table_sized_wf t Hsized) as Hwf.
  rewrite (dispatch_unregister_scan table t kind w Ht Hl).
  rewrite (scan_first_match t kind i e Hfirst).
  pose proof Hfirst as (_ & He & _). rewrite He.
  destruct (unregister_props t kind i e Hsized Huniq Hfirst)
    as (Hsized' & Huniq' & Hno' & Hothers).
  eexists _, _. split; [reflexivity|].
  assert (Hl' : forall w0 t0,
            tables (set_tables (<[table := t0]> (tables w0)) w0) !! table
            = Some t0) by (intros; apply lookup_insert_eq).
  split; [apply Hl'|]. split; [reflexivity|]. split; [reflexivity|].
  split; [exact Hsized'|]. split; [exact Huniq'|]. split; [exact Hno'|].
  intros other Hother. destruct (Hothers other Hother) as [Hn Hf].
  apply (dispatch_lookup_same table table t _ other w _ Ht Hl (Hl' _ _)
           Hwf (table_sized_wf _ Hsized') Hn Hf eq_refl).
Qed.

(** X23: a handler that was registered is the handler that is looked
    up.  [dispatch_register] replaces the handler and the guard of the
    active entry of the kind, or, when the kind has none, takes the next
    free entry; afterwards [dispatch_lookup] answers the kind with the
    new handler and every other kind as before, [entry_count] has grown
    only for a new kind, and no kind has two active entries. *)
Theorem dispatch_register_lookup (table kind handler guard : Z)
    (t : DispatchTable) (w : World) :
  flags_sane -> table <> NULL -> handler <> NULL ->
  tables w !! table = Some t -> table_sized t -> unique_active t ->
  (exists i e, first_match t kind i e)
  \/ dt_entry_count t < dt_capacity t ->
  exists w' t',
    dispatch_register table kind handler guard w = Done DISPATCH_OK w'
    /\ tables w' !! table = Some t'
    /\ table_sized t' /\ unique_active t'
    /\ dispatch_lookup table kind w' = Done handler w'
    /\ (forall other, other <> kind ->
          value_of (dispatch_lookup table other w')
          = value_of (dispatch_lookup table other w))
    /\ ((exists i e, first_match t kind i e) ->
        dt_entry_count t' = dt_entry_count t)
    /\ (no_match t kind -> dt_entry_count t' = dt_entry_count t + 1).
Proof.
  intros Hsane Ht Hh Hl Hsized Huniq Hcase.
  pose proof (table_sized_wf t Hsized) as Hwf.
  rewrite (dispatch_register_scan table t kind handler guard w Ht Hh Hl).
  destruct (table_cases t kind Hwf) as [Hno|(i & e & Hfirst)].
  - destruct Hcase as [(i & e & Hfirst)|Hroom];
      [exfalso; apply (no_match_first_match t kind i e Hno Hfirst)|].
    rewrite (scan_no_match t kind Hwf Hno).
    rewrite (proj2 (Z.leb_gt _ _)) by exact Hroom.
    destruct (register_append_props t kind handler guard Hsane Hsized Huniq
                Hno Hroom)
      as ((slot & Hslot) & Hcount' & Hsized' & Huniq' & Hfirst' & Hothers).
    rewrite Hslot.
    eexists _, _. split; [reflexivity|].
    assert (Hl' : forall w0 t0,
              tables (set_tables (<[table := t0]> (tables w0)) w0) !! table
              = Some t0) by (intros; apply lookup_insert_eq).
    split; [apply Hl'|]. split; [exact Hsized'|]. split; [exact Huniq'|].
    split.
    { apply (proj2 (dispatch_lookup_run table _ kind _ Ht (Hl' _ _)
                      (table_sized_wf _ Hsized')) _ _ Hfirst'). }
    split.
    { intros other Hother. destruct (Hothers other Hother) as [Hn Hf].
      apply (dispatch_lookup_same table table t _ other w _ Ht Hl (Hl' _ _)
               Hwf (table_sized_wf _ Hsized') Hn Hf eq_refl). }
    split; [|intros _; exact Hcount'].
    intros (i & e & Hfirst).
    exfalso; apply (no_match_first_match t kind i e Hno Hfirst).
  - rewrite (scan_first_match t kind i e Hfirst).
    pose proof Hfirst as (_ & He & _).
    rewrite He.
    destruct (register_update_props t kind i e handler guard Hsane Hsized
                Huniq Hfirst)
      as (Hsized' & Huniq' & Hfirst' & Hothers).
    eexists _, _. split; [reflexivity|].
    assert (Hl' : forall w0 t0,
              tables (set_tables (<[table := t0]> (tables w0)) w0) !! table
              = Some t0) by (intros; apply lookup_insert_eq).
    split; [apply Hl'|]. split; [exact Hsized'|]. split; [exact Huniq'|].
    split.
    { apply (proj2 (dispatch_lookup_run table _ kind _ Ht (Hl' _ _)
                      (table_sized_wf _ Hsized')) _ _ Hfirst'). }
    split.
    { intros other Hother. destruct (Hothers other Hother) as [Hn Hf].
      apply (dispatch_lookup_same table table t _ other w _ Ht Hl (Hl' _ _)
               Hwf (table_sized_wf _ Hsized') Hn Hf eq_refl). }
    split; [intros _; reflexivity|].
    intros Hno.
    exfalso; apply (no_match_first_match t kind i e Hno Hfirst).
Qed.

(** X24: unregistering a kind.  With no active entry of the kind
    [dispatch_unregister] answers [DISPATCH_ERR_NO_HANDLER] and changes
    nothing.  Otherwise it answers [DISPATCH_OK]; afterwards the lookup of
    the kind finds no handler, every other kind is looked up as before,
    and [entry_count] is what it was: the entry stays in the array,
    switched off. *)
Theorem dispatch_unregister_spec (table kind : Z) (t : DispatchTable)
    (w : World) :
  table <> NULL -> tables w !! table = Some t ->
  table_sized t -> unique_active t ->
  (no_match t kind ->
     dispatch_unregister table kind w = Done DISPATCH_ERR_NO_HANDLER w)
  /\ ((exists i e, first_match t kind i e) ->
      exists w' t',
        dispatch_unregister table kind w = Done DISPATCH_OK w'
        /\ tables w' !! table = Some t'
        /\ dt_entry_count t' = dt_entry_count t
        /\ table_sized t' /\ unique_active t'
        /\ dispatch_lookup table kind w' = Done NULL w'
        /\ (forall other, other <> kind ->
              value_of (dispatch_lookup table other w')
              = value_of (dispatch_lookup table other w))).
Proof.
  intros Ht Hl Hsized Huniq. split.
  - intros Hno.
    rewrite (dispatch_unregister_scan table t kind w Ht Hl).
    rewrite (scan_no_match t kind (table_sized_wf t Hsized) Hno).
    reflexivity.
  - intros (i & e & Hfirst).
    destruct (dispatch_unregister_run table kind t w i e Ht Hl Hsized Huniq
                Hfirst)
      as (w' & t' & Hrun & Hl' & Hcount & _ & Hsized' & Huniq' & Hno'
          & Hothers).
    exists w', t'. repeat (split; [assumption|]). split; [|exact Hothers].
    apply (proj1 (dispatch_lookup_run table t' kind w' Ht Hl'
                    (table_sized_wf t' Hsized')) Hno').
Qed.

(** X25: the entry of an unregistered handler is never used again.  On a
    table whose entries are all taken, unregistering a kind and then
    registering a handler for it again fails with
    [DISPATCH_ERR_ALLOC_FAILED], and the kind is left without a
    handler. *)
Theorem dispatch_unregister_keeps_entry (table kind handler guard : Z)
    (t : DispatchTable) (w : World) :
  table <> NULL -> handler <> NULL -> tables w !! table = Some t ->
  table_sized t -> unique_active t ->
  dt_entry_count t = dt_capacity t ->
  (exists i e, first_match t kind i e) ->
  exists w',
    dispatch_unregister table kind w = Done DISPATCH_OK w'
    /\ dispatch_register table kind handler guard w'
       = Done DISPATCH_ERR_ALLOC_FAILED w'
    /\ dispatch_lookup table kind w' = Done NULL w'.
Proof.
  intros Ht Hh Hl Hsized Huniq Hfull (i & e & Hfirst).
  destruct (dispatch_unregister_run table kind t w i e Ht Hl Hsized Huniq
              Hfirst)
    as (w' & t' & Hrun & Hl' & Hcount & Hcap & Hsized' & Huniq' & Hno' & _).
  exists w'. split; [exact Hrun|]. split.
  - rewrite (dispatch_register_scan table t' kind handler guard w' Ht Hh Hl').
    rewrite (scan_no_match t' kind (table_sized_wf t' Hsized') Hno').
    rewrite (proj2 (Z.leb_le _ _)) by lia. reflexivity.
  - apply (proj1 (dispatch_lookup_run table t' kind w' Ht Hl'
                    (table_sized_wf t' Hsized')) Hno').
Qed.
End RegistrationProofs.

Lemma demo_flags_sane : @flags_sane demo_header.
Proof. split; [discriminate | reflexivity]. Qed.

Lemma empty_table_sized : table_sized empty_table.
Proof. split; [reflexivity|]. simpl. lia. Qed.

Lemma empty_table_unique : @unique_active demo_header empty_table.
Proof. intros kind i j e e' Hi. simpl in Hi. lia. Qed.

Lemma full_table_sized : table_sized full_table.
Proof. split; [reflexivity|]. simpl. lia. Qed.

Lemma full_table_unique : @unique_active demo_header full_table.
Proof.
  intros kind i j e e' Hi Hj He He' Hm Hm'.
  change (Z.to_nat (dt_entry_count full_table)) with 2%nat in Hi, Hj.
  destruct i as [|[|i]], j as [|[|j]]; try lia; try reflexivity;
    simpl in He, He'; injection He as <-; injection He' as <-;
    apply (@entry_matches_kind demo_header) in Hm, Hm'; simpl in Hm, Hm';
    congruence.
Qed.

Lemma full_table_first_match :
  @first_match demo_header full_table 7 0%nat (mkEntry 7 1 100 NULL).
Proof.
  split; [simpl; lia|]. split; [reflexivity|]. split; [reflexivity|].
  intros j e Hj. lia.
Qed.

Lemma empty_table_no_match kind : @no_match demo_header empty_table kind.
Proof. intros j e Hj. simpl in Hj. lia. Qed.

Lemma dispatch_register_lookup_witness :
  exists w',
    @dispatch_register demo_header demo_sizes 9200 7 100 NULL register_world
    = Done (@DISPATCH_OK demo_header) w'
    /\ @dispatch_lookup demo_header 9200 7 w' = Done 100 w'.
Proof.
  destruct (@dispatch_register_lookup demo_header demo_sizes 9200 7 100 NULL
              empty_table register_world)
    as (w' & t' & Hrun & _ & _ & _ & Hlook & _).
  - exact demo_flags_sane.
  - discriminate.
  - discriminate.
  - reflexivity.
  - exact empty_table_sized.
  - exact empty_table_unique.
  - right. simpl. lia.
  - exists w'. split; assumption.
Defined.

Lemma dispatch_unregister_spec_witness :
  exists w',
    @dispatch_unregister demo_header 9200 7 full_table_world
    = Done (@DISPATCH_OK demo_header) w'
    /\ @dispatch_lookup demo_header 9200 7 w' = Done NULL w'.
Proof.
  destruct (@dispatch_unregister_spec demo_header 9200 7 full_table
              full_table_world) as [_ Hhit].
  - discriminate.
  - reflexivity.
  - exact full_table_sized.
  - exact full_table_unique.
  - destruct Hhit as (w' & t' & Hrun & _ & _ & _ & _ & Hlook & _).
    + exists 0%nat, (mkEntry 7 1 100 NULL). exact full_table_first_match.
    + exists w'. split; assumption.
Defined.

Lemma dispatch_unregister_keeps_entry_witness :
  exists w',
    @dispatch_unregister demo_header 9200 7 full_table_world
    = Done (@DISPATCH_OK demo_header) w'
    /\ @dispatch_register demo_header demo_sizes 9200 7 100 NULL w'
       = Done (@DISPATCH_ERR_ALLOC_FAILED demo_sizes) w'.
Proof.
  destruct (@dispatch_unregister_keeps_entry demo_header demo_sizes 9200 7 100
              NULL full_table full_table_world)
    as (w' & Hrun & Hreg & _).
  - discriminate.
  - discriminate.
  - reflexivity.
  - exact full_table_sized.
  - exact full_table_unique.
  - reflexivity.
  - exists 0%nat, (mkEntry 7 1 100 NULL). exact full_table_first_match.
  - exists w'. split; assumption.
Defined.

(** ** What a scheduler cycle leaves alone *)

Lemma bind_inv {A B} (m : M A) (k : A -> M B) w b w' :
  (m ≫= k) w = Done b w' ->
  exists a w1, m w = Done a w1 /\ k a w1 = Done b w'.
Proof.
  unfold mbind, M_bind, bind. destruct (m w) as [a w1| |]; try discriminate.
  intros E. exists a, w1. split; [reflexivity | exact E].
Qed.

Lemma untouched_same w w' :
  tables w' = tables w -> agent_mem w' = agent_mem w -> heap w' = heap w ->
  handlers_untouched w w'.
Proof.
  intros Ht Ha Hh. unfold handlers_untouched. rewrite Ht, Ha, Hh.
  repeat split; auto.
Qed.

Lemma untouched_refl w : handlers_untouched w w.
Proof. apply untouched_same; reflexivity. Qed.

Lemma untouched_trans w1 w2 w3 :
  handlers_untouched w1 w2 -> handlers_untouched w2 w3 ->
  handlers_untouched w1 w3.
Proof.
  intros (T1 & A1 & F1 & L1) (T2 & A2 & F2 & L2).
  split; [etransitivity; eassumption|].
  split; [etransitivity; eassumption|].
  split; [intros b Hb; apply F2, F1, Hb|].
  intros k v Hk. destruct (L1 k v Hk) as [Hk2|(b & Hb & Hunder)].
  - apply (L2 k v Hk2).
  - right. exists b. split; [apply F2, Hb | exact Hunder].
Qed.

Lemma leaves_ret {A} (a : A) : leaves_handlers (mret a : M A).
Proof. intros w a' w' [= <- <-]. apply untouched_refl. Qed.

Lemma leaves_fault {A} : leaves_handlers (fault : M A).
Proof. intros w a w' E. discriminate. Qed.

Lemma leaves_bind {A B} (m : M A) (k : A -> M B) :
  leaves_handlers m -> (forall a, leaves_handlers (k a)) ->
  leaves_handlers (m ≫= k).
Proof.
  intros Hm Hk w b w' E.
  destruct (bind_inv m k w b w' E) as (a & w1 & E1 & E2).
  apply (untouched_trans w w1 w'); [apply (Hm w a w1 E1)|].
  apply (Hk a w1 b w' E2).
Qed.

Lemma leaves_load {A} (store : World -> gmap Z A) p :
  leaves_handlers (load store p).
Proof.
  intros w a w' E. apply load_inv in E as (_ & _ & ->). apply untouched_refl.
Qed.

Lemma leaves_modify (f : World -> World) :
  (forall w, handlers_untouched w (f w)) -> leaves_handlers (modify f).
Proof. intros Hf w a w' E. injection E as E. subst w'. apply Hf. Qed.

Lemma leaves_store_sched p s : leaves_handlers (store_sched p s).
Proof. apply leaves_modify. intros w. apply untouched_same; reflexivity. Qed.

Lemma leaves_store_queue p q : leaves_handlers (store_queue p q).
Proof. apply leaves_modify. intros w. apply untouched_same; reflexivity. Qed.

Lemma leaves_store_signal p s : leaves_handlers (store_signal p s).
Proof. apply leaves_modify. intros w. apply untouched_same; reflexivity. Qed.

Lemma leaves_get_timestamp : leaves_handlers get_timestamp.
Proof.
  intros w a w' E. injection E as _ E. subst w'.
  apply untouched_same; reflexivity.
Qed.

(** [heap_free] writes its block header over whatever lies at [ptr]: a
    table there is a table no longer, and the words of agent memory under
    the header are lost to the new block of the free list. *)
Lemma leaves_heap_free ptr bytes : leaves_handlers (heap_free ptr bytes).
Proof.
  intros w a w'. unfold heap_free, clobber. munfold.
  destruct (_ || _).
  { intros E. injection E as _ <-. apply untouched_refl. }
  simpl. intros E. injection E as _ <-. unfold handlers_untouched. simpl.
  split; [apply delete_subseteq|].
  split; [apply map_filter_subseteq|].
  split; [intros b Hb; right; exact Hb|].
  intros k v Hk. destruct (decide (under_header ptr (k, v))) as [Hu|Hu].
  - right. eexists. split; [left|]. exact Hu.
  - left. apply map_lookup_filter_Some. split; [exact Hk | exact Hu].
Qed.

Lemma leaves_signal_free sig : leaves_handlers (signal_free sig).
Proof.
  unfold signal_free. destruct (sig =? NULL); [apply leaves_ret|].
  apply leaves_bind; [apply leaves_load|]. intros s. cbv zeta.
  apply leaves_bind; [apply leaves_store_signal|]. intros _.
  destruct (0 <? _); [apply leaves_ret|].
  apply leaves_bind.
  - destruct (_ && _); [|apply leaves_ret].
    apply leaves_bind; [apply leaves_heap_free|].
    intros _. apply leaves_store_signal.
  - intros _. destruct (has_flag _ _); [|apply leaves_ret].
    apply leaves_bind; [apply leaves_heap_free|]. intros _. apply leaves_ret.
Qed.

Lemma leaves_signal_queue_dequeue queue :
  leaves_handlers (signal_queue_dequeue queue).
Proof.
  unfold signal_queue_dequeue. destruct (queue =? NULL); [apply leaves_ret|].
  apply leaves_bind; [apply leaves_load|]. intros q.
  destruct (q_count q =? 0); [apply leaves_ret|]. cbv zeta.
  destruct (q_buffer q !! _); [|apply leaves_fault].
  apply leaves_bind; [apply leaves_store_queue|]. intros _. apply leaves_ret.
Qed.

Lemma leaves_set_phase sched ph : leaves_handlers (set_phase sched ph).
Proof.
  unfold set_phase. apply leaves_bind; [apply leaves_load|].
  intros s. apply leaves_store_sched.
Qed.

Lemma leaves_cycle_step sched i p : leaves_handlers (cycle_step sched i p).
Proof.
  unfold cycle_step. apply leaves_bind; [apply leaves_load|]. intros s.
  apply leaves_bind; [apply leaves_load|]. intros r.
  destruct (reg_agents r !! i) as [[agent|]|];
    [|apply leaves_ret|apply leaves_fault].
  destruct (ag_input_queue agent =? NULL); [apply leaves_ret|].
  apply leaves_bind; [apply leaves_set_phase|]. intros _.
  apply leaves_bind; [apply leaves_signal_queue_dequeue|]. intros sig.
  destruct (sig =? NULL); [apply leaves_ret|].
  apply leaves_bind; [apply leaves_set_phase|]. intros _.
  apply leaves_bind; [apply leaves_signal_free|]. intros _.
  apply leaves_bind; [apply leaves_load|]. intros s'.
  apply leaves_bind; [apply leaves_store_sched|]. intros _. apply leaves_ret.
Qed.

Lemma leaves_cycle_loop n sched : forall i p,
  leaves_handlers (cycle_loop n sched i p).
Proof.
  induction n as [|n IH]; intros i p; simpl; [apply leaves_ret|].
  apply leaves_bind; [apply leaves_load|]. intros s.
  apply leaves_bind; [apply leaves_load|]. intros r.
  destruct (_ <? _); [|apply leaves_ret].
  apply leaves_bind; [apply leaves_cycle_step|]. intros p'. apply IH.
Qed.

Lemma leaves_scheduler_run_cycle sched :
  leaves_handlers (scheduler_run_cycle sched).
Proof.
  unfold scheduler_run_cycle. destruct (sched =? NULL); [apply leaves_ret|].
  apply leaves_bind; [apply leaves_load|]. intros s.
  destruct (sch_registry s =? NULL); [apply leaves_ret|].
  apply leaves_bind; [apply leaves_set_phase|]. intros _.
  apply leaves_bind; [apply leaves_load|]. intros r.
  apply leaves_bind; [apply leaves_cycle_loop|]. intros p.
  apply leaves_bind; [apply leaves_load|]. intros s'.
  apply leaves_bind; [apply leaves_store_sched|]. intros _. apply leaves_ret.
Qed.

Lemma leaves_run_loop fuel sched : leaves_handlers (run_loop fuel sched).
Proof.
  induction fuel as [|fuel IH]; simpl.
  - apply leaves_bind; [apply leaves_load|]. intros s.
    destruct (sch_running s =? 0); [apply leaves_ret|].
    intros w a w' E. discriminate.
  - apply leaves_bind; [apply leaves_load|]. intros s.
    destruct (sch_running s =? 0); [apply leaves_ret|].
    apply leaves_bind; [apply leaves_scheduler_run_cycle|]. intros p.
    destruct (p <? 0).
    + apply leaves_bind; [apply leaves_load|]. intros s'.
      apply leaves_bind; [apply leaves_store_sched|]. intros _. exact IH.
    + apply leaves_bind; [apply leaves_load|]. intros s'.
      destruct (_ <=? _); [apply leaves_ret | exact IH].
Qed.

Lemma leaves_run_cycles_loop n sched :
  leaves_handlers (run_cycles_loop n sched).
Proof.
  induction n as [|n IH]; simpl; [apply leaves_ret|].
  apply leaves_bind; [apply leaves_scheduler_run_cycle|]. intros p.
  apply leaves_bind; [|intros _; exact IH].
  destruct (p <? 0); [|apply leaves_ret].
  apply leaves_bind; [apply leaves_load|]. intros s'.
  apply leaves_store_sched.
Qed.

Lemma leaves_timed (body : M unit) sched :
  leaves_handlers body ->
  leaves_handlers
    (ts ← get_cpu_timestamp;
     s ← load_sched sched;
     store_sched sched (set_sch_start ts s);;
     body;;
     ts ← get_cpu_timestamp;
     s ← load_sched sched;
     store_sched sched (set_sch_end ts s);;
     mret (s32 (sch_total_signals_processed s))).
Proof.
  intros Hbody.
  apply leaves_bind; [apply leaves_get_timestamp|]. intros ts.
  apply leaves_bind; [apply leaves_load|]. intros s.
  apply leaves_bind; [apply leaves_store_sched|]. intros _.
  apply leaves_bind; [exact Hbody|]. intros _.
  apply leaves_bind; [apply leaves_get_timestamp|]. intros ts'.
  apply leaves_bind; [apply leaves_load|]. intros s'.
  apply leaves_bind; [apply leaves_store_sched|]. intros _. apply leaves_ret.
Qed.

(** X26: the scheduler runs no handler.  Whatever the network, a run of
    [scheduler_run_cycle], of [scheduler_run] or of [scheduler_run_cycles]
    writes no dispatch table: every table that is there afterwards is as
    it was, its lookup, hit and miss counters included.  And it writes no
    word of agent state but by releasing a signal: every word that is
    there afterwards is as it was, and a word that is gone lies under the
    header of a block on the free list. *)
Theorem scheduler_leaves_handlers (sched : Z) (w : World) :
  (forall r w', scheduler_run_cycle sched w = Done r w' ->
     handlers_untouched w w')
  /\ (forall fuel r w', scheduler_run fuel sched w = Done r w' ->
        handlers_untouched w w')
  /\ (forall max_cycles r w',
        scheduler_run_cycles sched max_cycles w = Done r w' ->
        handlers_untouched w w').
Proof.
  split; [|split].
  - intros r w'. apply leaves_scheduler_run_cycle.
  - intros fuel r w'. revert w r w'.
    fold (leaves_handlers (scheduler_run fuel sched)).
    unfold scheduler_run. destruct (sched =? NULL); [apply leaves_ret|].
    apply leaves_timed, leaves_run_loop.
  - intros n r w'. revert w r w'.
    fold (leaves_handlers (scheduler_run_cycles sched n)).
    unfold scheduler_run_cycles. destruct (sched =? NULL); [apply leaves_ret|].
    apply leaves_timed, leaves_run_cycles_loop.
Qed.

Lemma scheduler_leaves_handlers_witness :
  handlers_untouched cycle_world (world_of (scheduler_run_cycle 9600 cycle_world))
  /\ handlers_untouched cycle_world (world_of (scheduler_run 12 9600 cycle_world))
  /\ handlers_untouched cycle_world
       (world_of (scheduler_run_cycles 9600 3 cycle_world)).
Proof.
  destruct (scheduler_leaves_handlers 9600 cycle_world) as (Hc & Hr & Hn).
  split; [|split].
  - apply (Hc 1). vm_compute; reflexivity.
  - apply (Hr 12%nat 1). vm_compute; reflexivity.
  - apply (Hn 3 1). vm_compute; reflexivity.
Defined.

(** The cycle of [cycle_world] when a word of agent state lies in the
    block of the queued signal: the word at 8000 stays, the word at 4100 is
    lost to the header of the block freed at 4096. *)
Example scheduler_cycle_alias :
  let alias_world :=
    set_agent_mem (<[4100 := 5]> (agent_mem cycle_world)) cycle_world in
  let after := world_of (scheduler_run_cycle 9600 alias_world) in
  agent_mem alias_world !! 4100 = Some 5
  /\ agent_mem after !! 4100 = None
  /\ agent_mem after !! 8000 = Some 0
  /\ head (hp_free_list (heap after)) = Some (mkFreeBlock 4096 32).
Proof. vm_compute. repeat split; reflexivity. Qed.

(** ** A scheduler without a registry *)

Lemma bind_out_of_fuel {A B} (m : M A) (k : A -> M B) w :
  m w = OutOfFuel -> (m ≫= k) w = OutOfFuel.
Proof. intros E; unfold mbind, M_bind, bind; rewrite E; reflexivity. Qed.

Section Orphan.
Variable sched : Z.
Hypothesis sched_not_null : sched <> NULL.

Lemma scheduler_run_cycle_orphan s w :
  scheds w !! sched = Some s -> sch_registry s = NULL ->
  scheduler_run_cycle sched w = Done SIGNAL_ERR_NULL_POINTER w.
Proof.
  intros Hl Hreg. unfold scheduler_run_cycle.
  rewrite (proj2 (Z.eqb_neq sched NULL)) by assumption.
  erewrite bind_done by (apply load_done; eassumption).
  rewrite Hreg. reflexivity.
Qed.

Lemma run_loop_orphan s w :
  scheds w !! sched = Some s -> sch_registry s = NULL ->
  sch_running s <> 0 -> sch_empty_cycles s < sch_max_empty_cycles s ->
  forall fuel, run_loop fuel sched w = OutOfFuel.
Proof.
  intros Hl Hreg Hrun Hgo fuel.
  induction fuel as [|fuel IH]; simpl;
    (erewrite bind_done by (apply load_done; eassumption));
    rewrite (proj2 (Z.eqb_neq _ _) Hrun); [reflexivity|].
  erewrite bind_done by (apply (scheduler_run_cycle_orphan s); assumption).
  change (SIGNAL_ERR_NULL_POINTER <? 0) with false. cbv iota.
  erewrite bind_done by (apply load_done; eassumption).
  rewrite (proj2 (Z.leb_gt _ _)) by exact Hgo. exact IH.
Qed.

Lemma run_cycles_loop_orphan s w :
  scheds w !! sched = Some s -> sch_registry s = NULL ->
  forall n, run_cycles_loop n sched w = Done tt w.
Proof.
  intros Hl Hreg n. induction n as [|n IH]; simpl; [reflexivity|].
  erewrite bind_done by (apply (scheduler_run_cycle_orphan s); assumption).
  change (SIGNAL_ERR_NULL_POINTER <? 0) with false. cbv iota.
  erewrite bind_done by reflexivity. exact IH.
Qed.
End Orphan.

(** X27: a scheduler whose [registry] is null.  [scheduler_run_cycle]
    answers [SIGNAL_ERR_NULL_POINTER], which is 3, not a negative number,
    and changes nothing.  [scheduler_run] takes the 3 for a count of
    processed signals: while [running] is set and [empty_cycles] is below
    [max_empty_cycles] its loop never ends, whatever the bound on its
    iterations.  [scheduler_run_cycles] returns, and has counted neither a
    cycle nor a dispatch error. *)
Theorem scheduler_without_registry (sched : Z) (s : Scheduler) (w : World) :
  sched <> NULL -> scheds w !! sched = Some s -> sch_registry s = NULL ->
  scheduler_run_cycle sched w = Done SIGNAL_ERR_NULL_POINTER w
  /\ 0 < SIGNAL_ERR_NULL_POINTER
  /\ (sch_running s <> 0 -> sch_empty_cycles s < sch_max_empty_cycles s ->
      forall fuel, scheduler_run fuel sched w = OutOfFuel)
  /\ (forall max_cycles, exists w' s',
        scheduler_run_cycles sched max_cycles w
        = Done (s32 (sch_total_signals_processed s)) w'
        /\ scheds w' !! sched = Some s'
        /\ sch_cycle_count s' = sch_cycle_count s
        /\ sch_dispatch_errors s' = sch_dispatch_errors s).
Proof.
  intros Hsched Hl Hreg.
  split; [apply (scheduler_run_cycle_orphan sched Hsched s w Hl Hreg)|].
  split; [reflexivity|]. split.
  - intros Hrun Hgo fuel. unfold scheduler_run.
    rewrite (proj2 (Z.eqb_neq sched NULL)) by assumption.
    erewrite bind_done by reflexivity.
    erewrite bind_done by (apply load_done; [assumption | exact Hl]).
    erewrite bind_done by reflexivity.
    apply bind_out_of_fuel.
    apply (run_loop_orphan sched Hsched (set_sch_start (tsc w) s));
      [apply lookup_insert_eq | exact Hreg | exact Hrun | exact Hgo].
  - intros n. unfold scheduler_run_cycles.
    rewrite (proj2 (Z.eqb_neq sched NULL)) by assumption.
    erewrite bind_done by reflexivity.
    erewrite bind_done by (apply load_done; [assumption | exact Hl]).
    erewrite bind_done by reflexivity.
    erewrite bind_done
      by (apply (run_cycles_loop_orphan sched Hsched
                   (set_sch_start (tsc w) s));
          [apply lookup_insert_eq | exact Hreg]).
    erewrite bind_done by reflexivity.
    erewrite bind_done
      by (apply load_done; [assumption | apply lookup_insert_eq]).
    erewrite bind_done by reflexivity.
    eexists _, _. split; [reflexivity|].
    split; [apply lookup_insert_eq|]. split; reflexivity.
Qed.

Lemma scheduler_without_registry_witness :
  scheduler_run_cycle 9600 orphan_world = Done 3 orphan_world
  /\ scheduler_run 1000 9600 orphan_world = OutOfFuel.
Proof.
  destruct (scheduler_without_registry 9600 orphan_scheduler orphan_world)
    as (Hcycle & _ & Hrun & _).
  - discriminate.
  - reflexivity.
  - reflexivity.
  - split; [exact Hcycle|]. apply Hrun; [discriminate | reflexivity].
Defined.

(** ** A fixed number of cycles *)

Lemma s32_add_assoc a b c : s32 (s32 (a + b) + c) = s32 (a + (b + c)).
Proof.
  unfold s32. f_equal.
  replace ((a + b + 2 ^ 31) mod 2 ^ 32 - 2 ^ 31 + c + 2 ^ 31)
    with ((a + b + 2 ^ 31) mod 2 ^ 32 + c) by lia.
  rewrite Zplus_mod_idemp_l. f_equal. lia.
Qed.

Lemma s32_range x : - 2 ^ 31 <= s32 x < 2 ^ 31.
Proof.
  unfold s32. pose proof (Z.mod_pos_bound (x + 2 ^ 31) (2 ^ 32)). lia.
Qed.

Lemma run_cycles_loop_quiescent sched r (n : nat) : forall s w,
  sched <> NULL -> scheduled sched r s w ->
  0 <= sch_cycle_count s < 2 ^ 64 ->
  - 2 ^ 31 <= sch_empty_cycles s < 2 ^ 31 ->
  exists s',
    run_cycles_loop n sched w = Done tt (with_sched sched s' w)
    /\ sch_cycle_count s' = u64 (sch_cycle_count s + Z.of_nat n)
    /\ sch_empty_cycles s' = s32 (sch_empty_cycles s + Z.of_nat n)
    /\ sch_total_signals_processed s' = sch_total_signals_processed s
    /\ sch_running s' = sch_running s.
Proof.
  induction n as [|n IH]; intros s w Hsched Hq Hcc Hempty.
  - exists s. simpl. destruct Hq as (Hl & _).
    rewrite with_sched_same by exact Hl. split; [reflexivity|].
    rewrite !Z.add_0_r. unfold u64. rewrite wrap_small, s32_small by lia.
    repeat split; reflexivity.
  - destruct (scheduler_run_cycle_quiescent sched r Hsched s w Hq)
      as (ph & E).
    simpl run_cycles_loop. rewrite (bind_done _ _ _ _ _ E).
    change (0 <? 0) with false. cbv iota.
    erewrite bind_done by reflexivity.
    destruct (IH (end_of_cycle 0 (set_sch_phase ph s))
                 (with_sched sched (end_of_cycle 0 (set_sch_phase ph s)) w))
      as (s' & E' & Hcc' & Hempty' & Htot' & Hrun').
    + exact Hsched.
    + apply (scheduled_with_sched sched r s); [exact Hq | reflexivity].
    + simpl. apply wrap_range. lia.
    + simpl. apply s32_range.
    + exists s'. rewrite E', with_sched_twice. split; [reflexivity|].
      simpl in Hcc', Hempty', Htot', Hrun'.
      rewrite Hcc', Hempty', u64_add_assoc, s32_add_assoc.
      repeat split; try assumption; f_equal; lia.
Qed.

(** X28: [scheduler_run_cycles] on a network whose mailboxes are all
    empty runs all of its [max_cycles] cycles: it looks neither at
    [running] nor at [max_empty_cycles].  It returns the count of
    processed signals, which has not changed; [cycle_count] and
    [empty_cycles] have advanced by [max_cycles], in the arithmetic of
    their types, and every mailbox is as it was. *)
Theorem scheduler_run_cycles_quiescent (sched max_cycles : Z) (s : Scheduler)
    (r : AgentRegistry) (w : World) :
  sched <> NULL -> scheduled sched r s w -> 0 <= max_cycles ->
  0 <= sch_cycle_count s < 2 ^ 64 ->
  - 2 ^ 31 <= sch_empty_cycles s < 2 ^ 31 ->
  exists w' s',
    scheduler_run_cycles sched max_cycles w
    = Done (s32 (sch_total_signals_processed s)) w'
    /\ scheds w' !! sched = Some s'
    /\ sch_cycle_count s' = u64 (sch_cycle_count s + max_cycles)
    /\ sch_empty_cycles s' = s32 (sch_empty_cycles s + max_cycles)
    /\ sch_total_signals_processed s' = sch_total_signals_processed s
    /\ sch_running s' = sch_running s
    /\ queues w' = queues w.
Proof.
  intros Hsched Hq Hmax Hcc Hempty. pose proof Hq as (Hl & Hr & Hreg & Hqs).
  unfold scheduler_run_cycles.
  rewrite (proj2 (Z.eqb_neq sched NULL)) by assumption.
  erewrite bind_done by reflexivity.
  erewrite bind_done by (apply load_done; [assumption | exact Hl]).
  erewrite bind_done by reflexivity.
  destruct (run_cycles_loop_quiescent sched r (Z.to_nat max_cycles)
              (set_sch_start (tsc w) s)
              (with_sched sched (set_sch_start (tsc w) s)
                 (set_tsc (u64 (tsc w + 1)) w)))
    as (s' & E & Hcc' & Hempty' & Htot' & Hrun').
  - exact Hsched.
  - apply (scheduled_with_sched sched r s); [|reflexivity].
    repeat split; assumption.
  - exact Hcc.
  - exact Hempty.
  - unfold store_sched at 1. fold (with_sched sched (set_sch_start (tsc w) s)
                                     (set_tsc (u64 (tsc w + 1)) w)).
    rewrite (bind_done _ _ _ _ _ E), with_sched_twice.
    erewrite bind_done by reflexivity.
    erewrite bind_done
      by (apply load_done; [assumption | apply lookup_insert_eq]).
    erewrite bind_done by reflexivity.
    simpl in Hcc', Hempty', Htot', Hrun'. rewrite Htot'.
    eexists _, _. split; [reflexivity|].
    split; [apply lookup_insert_eq|]. simpl.
    rewrite Hcc', Hempty', Htot', Hrun', Z2Nat.id by exact Hmax.
    repeat split; reflexivity.
Qed.

Lemma idle_world_scheduled :
  scheduled 9600 demo_registry demo_scheduler idle_world.
Proof.
  split; [vm_compute; reflexivity|].
  split; [discriminate|].
  split; [vm_compute; reflexivity|].
  intros [|i] Hi; [|simpl in Hi; lia].
  eexists; split; [reflexivity|]. right.
  eexists; split; [vm_compute; reflexivity | reflexivity].
Qed.

Lemma scheduler_run_cycles_quiescent_witness :
  exists w' s',
    scheduler_run_cycles 9600 25 idle_world = Done 0 w'
    /\ scheds w' !! 9600 = Some s'
    /\ sch_cycle_count s' = 25
    /\ sch_empty_cycles s' = 25.
Proof.
  destruct (scheduler_run_cycles_quiescent 9600 25 demo_scheduler
              demo_registry idle_world)
    as (w' & s' & E & Hl & Hcc & Hempty & _).
  - discriminate.
  - exact idle_world_scheduled.
  - lia.
  - simpl; lia.
  - simpl; lia.
  - exists w', s'. repeat split; assumption.
Defined.

(** ** Batches *)

Section Batch.
Context `{DispatchHeader} (call : Code).

Lemma process_batch_loop_bound table queue (n : nat) : forall p w r w',
  process_batch_loop call n table queue p w = Done r w' ->
  0 <= p -> p + Z.of_nat n < 2 ^ 31 ->
  p <= r <= p + Z.of_nat n.
Proof.
  induction n as [|n IH]; intros p w r w' E Hp Hn; simpl in E.
  - injection E as <- _. lia.
  - apply bind_inv in E as (signal & w1 & _ & E).
    destruct (signal =? NULL).
    + injection E as <- _. lia.
    + apply bind_inv in E as (status & w2 & _ & E).
      apply bind_inv in E as (u & w3 & _ & E).
      apply IH in E; rewrite ?s32_small in * by lia; lia.
Qed.

(** X29: [dispatch_process_batch] never processes more signals than it
    was asked to, and compares its count with [(int)max_signals]: asked
    for [2 ^ 31] signals or more, it processes none and changes
    nothing. *)
Theorem dispatch_process_batch_bound (table queue max_signals : Z)
    (w : World) :
  0 <= max_signals < 2 ^ 32 ->
  (forall r w',
     dispatch_process_batch call table queue max_signals w = Done r w' ->
     0 <= r <= max_signals)
  /\ (2 ^ 31 <= max_signals ->
      dispatch_process_batch call table queue max_signals w = Done 0 w).
Proof.
  intros Hmax. unfold dispatch_process_batch. split.
  - intros r w' E. destruct (_ || _).
    + injection E as <- _. lia.
    + apply process_batch_loop_bound in E; [|lia|].
      * destruct (Z.lt_ge_cases max_signals (2 ^ 31)) as [Hlow|Hhigh].
        -- rewrite s32_small in E by lia. lia.
        -- pose proof (s32_range max_signals).
           assert (Hneg : s32 max_signals = max_signals - 2 ^ 32).
           { unfold s32.
             replace (max_signals + 2 ^ 31)
               with (max_signals - 2 ^ 31 + 1 * 2 ^ 32) by lia.
             rewrite Z.mod_add, Z.mod_small by lia. lia. }
           lia.
      * pose proof (s32_range max_signals). lia.
  - intros Hhigh.
    assert (Hneg : s32 max_signals = max_signals - 2 ^ 32).
    { unfold s32.
      replace (max_signals + 2 ^ 31)
        with (max_signals - 2 ^ 31 + 1 * 2 ^ 32) by lia.
      rewrite Z.mod_add, Z.mod_small by lia. lia. }
    rewrite Hneg. replace (Z.to_nat (max_signals - 2 ^ 32)) with 0%nat by lia.
    destruct (_ || _); reflexivity.
Qed.
End Batch.

Lemma dispatch_process_batch_bound_witness :
  @dispatch_process_batch demo_header demo_code 9100 4144 (2 ^ 31) cycle_world
  = Done 0 cycle_world.
Proof.
  destruct (@dispatch_process_batch_bound demo_header demo_code 9100 4144
              (2 ^ 31) cycle_world) as [_ Hnone].
  - lia.
  - apply Hnone. lia.
Defined.

(** ** Emitting a signal nobody listens to *)

Lemma routing_broadcast_miss table signal agents t s w :
  table <> NULL -> rtables w !! table = Some t -> rtable_wf t ->
  signal <> NULL -> signals w !! signal = Some s ->
  sig_source_agent_id s = 0
  \/ (forall i e, rt_entries t !! i = Some e ->
        ~ route_key (sig_source_agent_id s) (sig_frequency_id s) e) ->
  exists c',
    routing_broadcast table signal agents w
    = Done 0 (with_rtable table (set_rt_collision_count c' t) w).
Proof.
  intros Ht Hl Hwf Hs Hls Hmiss.
  destruct (find_slot_miss table (sig_source_agent_id s) (sig_frequency_id s)
              t w Ht Hl Hwf Hmiss) as (i & c' & E).
  exists c'. unfold routing_broadcast, routing_get_entry.
  rewrite (proj2 (Z.eqb_neq table NULL)), (proj2 (Z.eqb_neq signal NULL))
    by assumption. simpl.
  erewrite bind_done by (apply load_done; eassumption).
  erewrite bind_done by (erewrite bind_done by exact E; reflexivity).
  reflexivity.
Qed.

(** [emit_signal] once [signal_create] has returned a signal for which
    there is no route. *)
Lemma emit_signal_release table agents f a payload n t w sig s w1 :
  signal_create f a payload n w = Done sig w1 -> sig <> NULL ->
  signals w1 !! sig = Some s ->
  sig_ref_count s = 1 ->
  has_flag (sig_flags s) SIGNAL_FLAG_HEAP_ALLOCATED = true ->
  table <> NULL -> rtables w1 !! table = Some t -> rtable_wf t ->
  sig_source_agent_id s = 0
  \/ (forall i e, rt_entries t !! i = Some e ->
        ~ route_key (sig_source_agent_id s) (sig_frequency_id s) e) ->
  queues w1 = queues w ->
  exists w',
    emit_signal table agents f a payload n w = Done 0 w'
    /\ signals w' !! sig = None
    /\ hp_free_list (heap w')
       = mkFreeBlock sig sizeof_Signal
         :: (if has_flag (sig_flags s) SIGNAL_FLAG_OWNS_PAYLOAD
                && negb (sig_payload_ptr s =? NULL)
                && negb (sig_payload_capacity s =? 0)
             then [mkFreeBlock (sig_payload_ptr s)
                               (block_size (sig_payload_capacity s))]
             else [])
         ++ hp_free_list (heap w1)
    /\ (forall queue, queue <> sig -> queue <> sig_payload_ptr s ->
          queues w' !! queue = queues w !! queue).
Proof.
  intros E1 Hsig Hl1 Hrc Hheap Ht Hl Hwf Hmiss Hq1.
  destruct (routing_broadcast_miss table sig agents t s w1 Ht Hl Hwf Hsig Hl1
              Hmiss) as (c' & E2).
  set (w2 := with_rtable table (set_rt_collision_count c' t) w1) in *.
  destruct (signal_free_last sig s w2 Hsig Hl1 Hrc Hheap)
    as (w3 & E3 & Hgone & Hsame & _ & _ & _ & _ & Hf3).
  exists w3. unfold emit_signal.
  rewrite (bind_done _ _ _ _ _ E1).
  rewrite (proj2 (Z.eqb_neq sig NULL)) by exact Hsig.
  rewrite (bind_done _ _ _ _ _ E2). change (0 =? 0) with true. cbv iota.
  rewrite (bind_done _ _ _ _ _ E3).
  split; [reflexivity|]. split; [exact Hgone|]. split; [exact Hf3|].
  intros queue Hq1' Hq2'.
  destruct (Hsame queue Hq1' Hq2') as (_ & _ & Hqs & _).
  rewrite Hqs. change (queues w2) with (queues w1). rewrite Hq1.
  reflexivity.
Qed.

(** X30: [emit_signal] when there is nobody to deliver to, on every heap
    and for every payload.  When no route has the key made of the source
    and the kind, both cut to 16 bits, or when that source is agent 0,
    [emit_signal] answers [-SIGNAL_ERR_ALLOC_FAILED] where [signal_create]
    returns [NULL], which it does without a change for a payload above
    [MAX_PAYLOAD_SIZE]; and where [signal_create] returns a signal,
    [emit_signal] answers 0 and has released that signal: the signal is
    gone, its header block and, if it had one, its payload block head the
    free list, and no other mailbox has changed. *)
Theorem emit_signal_undelivered (table agents f a : Z)
    (payload : option (list Z)) (n : Z) (t : RoutingTable) (w : World) :
  table <> NULL -> rtables w !! table = Some t -> rtable_wf t ->
  u16 a = 0
  \/ (forall i e, rt_entries t !! i = Some e ->
        ~ route_key (u16 a) (u16 f) e) ->
  (forall bytes, payload = Some bytes -> n <= MAX_PAYLOAD_SIZE ->
     n <= Z.of_nat (length bytes)) ->
  exists sig w1,
    signal_create f a payload n w = Done sig w1
    /\ (MAX_PAYLOAD_SIZE < n -> sig = NULL /\ w1 = w)
    /\ (sig = NULL ->
        emit_signal table agents f a payload n w
        = Done (- SIGNAL_ERR_ALLOC_FAILED) w1)
    /\ (sig <> NULL ->
        exists s w',
          signals w1 !! sig = Some s
          /\ emit_signal table agents f a payload n w = Done 0 w'
          /\ signals w' !! sig = None
          /\ hp_free_list (heap w')
             = mkFreeBlock sig sizeof_Signal
               :: (if has_flag (sig_flags s) SIGNAL_FLAG_OWNS_PAYLOAD
                      && negb (sig_payload_ptr s =? NULL)
                      && negb (sig_payload_capacity s =? 0)
                   then [mkFreeBlock (sig_payload_ptr s)
                                     (block_size (sig_payload_capacity s))]
                   else [])
               ++ hp_free_list (heap w1)
          /\ (forall queue, queue <> sig -> queue <> sig_payload_ptr s ->
                queues w' !! queue = queues w !! queue)).
Proof.
  intros Ht Hl Hwf Hmiss Hlen.
  assert (Hfail : forall w1,
            signal_create f a payload n w = Done NULL w1 ->
            emit_signal table agents f a payload n w
            = Done (- SIGNAL_ERR_ALLOC_FAILED) w1).
  { intros w1 E. unfold emit_signal. rewrite (bind_done _ _ _ _ _ E).
    reflexivity. }
  destruct (Z_lt_le_dec MAX_PAYLOAD_SIZE n) as [Hbig|Hsmall].
  { assert (E : signal_create f a payload n w = Done NULL w).
    { unfold signal_create.
      rewrite (proj2 (Z.ltb_lt _ _)) by exact Hbig. reflexivity. }
    exists NULL, w. split; [exact E|]. split; [auto|].
    split; [intros _; apply Hfail, E | intros []; reflexivity]. }
  destruct (signal_create_run f a payload n w Hsmall)
    as (hdr & h1 & E1 & Hnone & Hlive).
  { intros bytes Hb. apply (Hlen bytes Hb Hsmall). }
  destruct (Z.eq_dec hdr NULL) as [Hhdr|Hhdr].
  { exists NULL, (set_heap h1 w). split; [exact (Hnone Hhdr)|].
    split; [intros; lia|].
    split; [intros _; apply Hfail, (Hnone Hhdr) | intros []; reflexivity]. }
  destruct (Hlive Hhdr) as [Hplain Hfull].
  assert (Hdone : forall s w1,
            signal_create f a payload n w = Done hdr w1 ->
            signals w1 !! hdr = Some s ->
            sig_ref_count s = 1 ->
            has_flag (sig_flags s) SIGNAL_FLAG_HEAP_ALLOCATED = true ->
            sig_source_agent_id s = u16 a -> sig_frequency_id s = u16 f ->
            rtables w1 = rtables w -> queues w1 = queues w ->
            exists sig w1,
              signal_create f a payload n w = Done sig w1
              /\ (MAX_PAYLOAD_SIZE < n -> sig = NULL /\ w1 = w)
              /\ (sig = NULL ->
                  emit_signal table agents f a payload n w
                  = Done (- SIGNAL_ERR_ALLOC_FAILED) w1)
              /\ (sig <> NULL ->
                  exists s w',
                    signals w1 !! sig = Some s
                    /\ emit_signal table agents f a payload n w = Done 0 w'
                    /\ signals w' !! sig = None
                    /\ hp_free_list (heap w')
                       = mkFreeBlock sig sizeof_Signal
                         :: (if has_flag (sig_flags s)
                                  SIGNAL_FLAG_OWNS_PAYLOAD
                                && negb (sig_payload_ptr s =? NULL)
                                && negb (sig_payload_capacity s =? 0)
                             then [mkFreeBlock (sig_payload_ptr s)
                                     (block_size (sig_payload_capacity s))]
                             else [])
                         ++ hp_free_list (heap w1)
                    /\ (forall queue,
                          queue <> sig -> queue <> sig_payload_ptr s ->
                          queues w' !! queue = queues w !! queue))).
  { intros s w1 E Hls Hrc Hheap Hsrc Hfreq Hrt Hqs.
    exists hdr, w1. split; [exact E|]. split; [intros; lia|].
    split; [intros Habs; contradiction|]. intros _.
    destruct (emit_signal_release table agents f a payload n t w hdr s w1 E
                Hhdr Hls Hrc Hheap Ht ltac:(rewrite Hrt; exact Hl) Hwf
                ltac:(rewrite Hsrc, Hfreq; exact Hmiss) Hqs)
      as (w' & Eemit & Hgone & Hfl & Hq).
    exists s, w'. auto. }
  destruct payload as [bytes|].
  - destruct (Z_lt_le_dec 0 n) as [Hpos|Hzero].
    + destruct (Hfull bytes eq_refl Hpos) as (buf & h2 & E2 & Hnobuf & Hbuf).
      destruct (Z.eq_dec buf NULL) as [Hb|Hb].
      * destruct (Hnobuf Hb) as (w' & E). exists NULL, w'.
        split; [exact E|]. split; [intros; lia|].
        split; [intros _; apply Hfail, E | intros []; reflexivity].
      * eapply Hdone; [exact (Hbuf Hb) | simpl; apply lookup_insert_eq | ..];
          reflexivity.
    + eapply Hdone;
        [exact (Hplain (or_intror Hzero)) | simpl; apply lookup_insert_eq | ..];
        reflexivity.
  - eapply Hdone;
      [exact (Hplain (or_introl eq_refl)) | simpl; apply lookup_insert_eq | ..];
      reflexivity.
Qed.

Lemma emit_signal_undelivered_witness :
  (exists w1,
     emit_signal 9800 9500 7 0 (Some [1; 2; 3]) (MAX_PAYLOAD_SIZE + 1)
                 zero_world = Done (- 4) w1)
  /\ (exists w', emit_signal 9800 9500 7 0 (Some [1; 2; 3]) 3 zero_world
                 = Done 0 w')
  /\ (let recycled :=
        world_of (emit_signal 9800 9500 7 0 (Some [1; 2; 3]) 3 zero_world) in
      hp_free_list (heap recycled) <> []
      /\ exists w', emit_signal 9800 9500 7 0 None 0 recycled = Done 0 w').
Proof.
  assert (Hmiss : forall f : Z,
            u16 0 = 0
            \/ (forall (i : nat) e, rt_entries zero_rtable !! i = Some e ->
                  ~ route_key (u16 0) (u16 f) e))
    by (intros f; left; reflexivity).
  assert (Hwf : rtable_wf zero_rtable)
    by (exists 2; split; [lia|]; split; reflexivity).
  split; [|split].
  - destruct (emit_signal_undelivered 9800 9500 7 0 (Some [1; 2; 3])
                (MAX_PAYLOAD_SIZE + 1) zero_rtable zero_world)
      as (sig & w1 & _ & Hbig & Hnull & _);
      [discriminate | vm_compute; reflexivity | exact Hwf | exact (Hmiss 7)
      | intros bytes _ Habs; lia |].
    exists w1. apply Hnull, Hbig. lia.
  - destruct (emit_signal_undelivered 9800 9500 7 0 (Some [1; 2; 3]) 3
                zero_rtable zero_world)
      as (sig & w1 & E & _ & _ & Hlive);
      [discriminate | vm_compute; reflexivity | exact Hwf | exact (Hmiss 7)
      | intros bytes [= <-] _; simpl; lia |].
    destruct Hlive as (s & w' & _ & Eemit & _).
    + intros ->. vm_compute in E. discriminate.
    + exists w'. exact Eemit.
  - intros recycled. split; [vm_compute; discriminate|].
    destruct (emit_signal_undelivered 9800 9500 7 0 None 0 zero_rtable
                recycled)
      as (sig & w1 & E & _ & _ & Hlive);
      [discriminate | vm_compute; reflexivity | exact Hwf | exact (Hmiss 7)
      | intros bytes Habs; discriminate |].
    destruct Hlive as (s & w' & _ & Eemit & _).
    + intros ->. vm_compute in E. discriminate.
    + exists w'. exact Eemit.
Defined.
